(** * Kanji mnemonic generator: the RAG core of [rag_mnemonics.py]

    A shallow embedding of [src/Mnemonics/rag_mnemonics.py]: the text
    normaliser ([_strip_cjk], [_one_sentence], the arrow-line surgery of
    [generate_mnemonic]), the lazy radical index ([_ensure_radical_index]),
    the retriever ([_retrieve_relevant_radicals]) and [generate_mnemonic]
    itself, followed by the properties the specification states about them.
    Beside the core stand the parts of its two neighbours that meet it:
    the snapshot names and the retry loop of [radical_visual_form.py], and
    the fallback line and the index of saved mnemonics of [app.py].

    Python strings are sequences of Unicode code points, so a [str] is a
    list of code points; regular expressions are embedded as the scanning
    functions they denote, each next to the pattern it stands for. *)

From Stdlib Require Import NArith ZArith List Ascii String Bool Lia Sorted.
From stdpp Require Import gmap.
Import ListNotations.

#[local] Open Scope bool_scope.
#[local] Open Scope list_scope.

(** ** Code points and string literals *)

Definition char : Type := N.
Abbreviation str := (list char).

(** Source literals are written as UTF-8 text and decoded to code points. *)
Fixpoint utf8_decode (bs : list N) : str :=
  match bs with
  | [] => []
  | b0 :: r0 =>
    if (b0 <? 0x80)%N then b0 :: utf8_decode r0 else
    match r0 with
    | [] => []
    | b1 :: r1 =>
      if (b0 <? 0xE0)%N then ((b0 - 0xC0) * 64 + (b1 - 0x80))%N :: utf8_decode r1 else
      match r1 with
      | [] => []
      | b2 :: r2 =>
        if (b0 <? 0xF0)%N
        then (((b0 - 0xE0) * 64 + (b1 - 0x80)) * 64 + (b2 - 0x80))%N :: utf8_decode r2
        else
          match r2 with
          | [] => []
          | b3 :: r3 =>
            ((((b0 - 0xF0) * 64 + (b1 - 0x80)) * 64 + (b2 - 0x80)) * 64 + (b3 - 0x80))%N
              :: utf8_decode r3
          end
      end
    end
  end.

Definition u (s : string) : str :=
  utf8_decode (List.map N_of_ascii (list_ascii_of_string s)).

Arguments u : simpl never.

Definition ARROW : char := 0x2192%N.      (* "→" *)
Definition ELLIPSIS : char := 0x2026%N.   (* "…" *)
Definition EM_DASH : char := 0x2014%N.    (* "—" *)
Definition NEWLINE : char := 0x0A%N.
Definition SPACE : char := 0x20%N.
Definition BAR : char := 0x7C%N.          (* "|" *)
Definition EQUALS : char := 0x3D%N.       (* "=" *)
Definition COLON : char := 0x3A%N.        (* ":" *)
Definition LT : char := 0x3C%N.           (* "<" *)
Definition GT : char := 0x3E%N.           (* ">" *)

#[local] Open Scope N_scope.

Definition in_range (lo hi c : char) : bool := (lo <=? c) && (c <=? hi).

(** [str.isspace] on one code point, which is also the regular expression
    class [\s] of a [str] pattern. *)
Definition is_space (c : char) : bool :=
  in_range 0x09 0x0D c || in_range 0x1C 0x20 c || (c =? 0x85)%N || (c =? 0xA0)%N
  || (c =? 0x1680)%N || in_range 0x2000 0x200A c || (c =? 0x2028)%N || (c =? 0x2029)%N
  || (c =? 0x202F)%N || (c =? 0x205F)%N || (c =? 0x3000)%N.

(** [_CJK_RE = [぀-ヿ㐀-䶿一-鿿豈-﫿]+] *)
Definition is_cjk (c : char) : bool :=
  in_range 0x3040 0x30FF c || in_range 0x3400 0x4DBF c
  || in_range 0x4E00 0x9FFF c || in_range 0xF900 0xFAFF c.

Definition not_cjk (c : char) : bool := negb (is_cjk c).

Definition is_ascii (c : char) : bool := (c <=? 0x7F)%N.

(** The characters after which [_one_sentence] ends a sentence: [.!?]. *)
Definition is_sentence_end (c : char) : bool :=
  (c =? 0x2E)%N || (c =? 0x21)%N || (c =? 0x3F)%N.

(** [right[-1] not in ".!?…"] *)
Definition is_terminal (c : char) : bool := is_sentence_end c || (c =? ELLIPSIS)%N.

(** The set given to [rstrip(" ,;:")]. *)
Definition is_trim_punct (c : char) : bool :=
  (c =? SPACE)%N || (c =? 0x2C)%N || (c =? 0x3B)%N || (c =? COLON)%N.

Definition ascii_lower (c : char) : char :=
  if in_range 0x41 0x5A c then (c + 32)%N else c.

Definition ascii_word (c : char) : bool :=
  in_range 0x30 0x39 c || in_range 0x41 0x5A c || in_range 0x61 0x7A c || (c =? 0x5F)%N.

#[local] Close Scope N_scope.

(** ** The interpreter's Unicode tables

    [str.lower], case-insensitive matching under [re.I] and the word class
    [\w] (behind [\b]) consult the Unicode database of the interpreter.  The
    development is parametric in these tables; only their behaviour on
    ASCII is fixed, and that lowering a string never empties it. *)
Class PyUnicode : Type := {
  str_lower : str -> str;
  ci_eq : char -> char -> bool;
  is_word : char -> bool;
  str_lower_ascii : forall s, forallb is_ascii s = true -> str_lower s = List.map ascii_lower s;
  str_lower_nonempty : forall s, s <> [] -> str_lower s <> [];
  ci_eq_ascii : forall a b, is_ascii a = true -> is_ascii b = true ->
    ci_eq a b = (ascii_lower a =? ascii_lower b)%N;
  is_word_ascii : forall c, is_ascii c = true -> is_word c = ascii_word c
}.

(** The tables cut down to ASCII (every other code point caseless and not a
    word character), used to evaluate the model on concrete inputs. *)
#[export] Program Instance ascii_tables : PyUnicode := {|
  str_lower := List.map ascii_lower;
  ci_eq := fun a b => (ascii_lower a =? ascii_lower b)%N;
  is_word := ascii_word
|}.
Next Obligation. reflexivity. Qed.
Next Obligation. intros [| c s] H; [congruence | discriminate]. Qed.
Next Obligation. reflexivity. Qed.
Next Obligation. reflexivity. Qed.

(** ** String primitives *)

Fixpoint drop_while (p : char -> bool) (s : str) : str :=
  match s with
  | [] => []
  | c :: r => if p c then drop_while p r else s
  end.

Fixpoint take_while (p : char -> bool) (s : str) : str :=
  match s with
  | [] => []
  | c :: r => if p c then c :: take_while p r else []
  end.

(** [s.rstrip(chars)] and [s.lstrip(chars)], the set given as a predicate. *)
Definition rstrip_by (p : char -> bool) (s : str) : str := rev (drop_while p (rev s)).
Definition lstrip_by (p : char -> bool) (s : str) : str := drop_while p s.

(** [s.strip()] *)
Definition strip (s : str) : str := rstrip_by is_space (lstrip_by is_space s).

(** [sep in s] for a one-character separator. *)
Definition contains (sep : char) (s : str) : bool := existsb (N.eqb sep) s.
Arguments contains : simpl never.

(** [s.split(sep, 1)] for a one-character separator that occurs in [s]:
    the text before the first occurrence and the text after it. *)
Definition before_first (sep : char) (s : str) : str :=
  take_while (fun c => negb (sep =? c)%N) s.
Definition after_first (sep : char) (s : str) : str :=
  tl (drop_while (fun c => negb (sep =? c)%N) s).

(** [s.replace("|", " ")] *)
Definition replace_bar (s : str) : str :=
  List.map (fun c => if (c =? BAR)%N then SPACE else c) s.

(** [re.sub] putting one space for every match of [\s+]; [in_ws] tells
    that the previous character belonged to the run already replaced. *)
Fixpoint collapse_from (in_ws : bool) (s : str) : str :=
  match s with
  | [] => []
  | c :: r =>
    if is_space c
    then (if in_ws then collapse_from true r else SPACE :: collapse_from true r)
    else c :: collapse_from false r
  end.
Definition collapse_ws (s : str) : str := collapse_from false s.

(** [re.sub] deleting every match of [<[^>]*>]: a "<" opens a match when
    a ">" follows somewhere, and the match ends at the first such ">". *)
Fixpoint remove_tags_from (inside : bool) (s : str) : str :=
  match s with
  | [] => []
  | c :: r =>
    if inside then remove_tags_from (negb (c =? GT)%N) r
    else if (c =? LT)%N && contains GT r then remove_tags_from true r
    else c :: remove_tags_from false r
  end.
Definition remove_tags (s : str) : str := remove_tags_from false s.

(** [re.split(r"(?<=[.!?])\s+", s)[0]]: the text before the first
    whitespace character that follows one of [.!?]. *)
Fixpoint first_sentence_from (after_end : bool) (s : str) : str :=
  match s with
  | [] => []
  | c :: r =>
    if after_end && is_space c then []
    else c :: first_sentence_from (is_sentence_end c) r
  end.
Definition first_sentence (s : str) : str := first_sentence_from false s.

(** ** [_strip_cjk] and [_one_sentence] *)

Definition _strip_cjk (s : str) : str := List.filter (fun c => negb (is_cjk c)) s.

(** The sentence [_one_sentence] holds in [one] before its length test. *)
Definition reduce_sentence (text : str) : str :=
  let t := strip text in
  let t := remove_tags t in
  let t := before_first ARROW t in
  let one := first_sentence t in
  strip (collapse_ws one).

Definition _one_sentence (text : str) (max_chars : nat) : str :=
  let one := reduce_sentence text in
  if (max_chars <? length one)%nat
  then rstrip_by is_trim_punct (firstn max_chars one) ++ [ELLIPSIS]
  else one.

(** [_to_ascii] *)
Fixpoint nonascii_to_space (in_run : bool) (s : str) : str :=
  match s with
  | [] => []
  | c :: r =>
    if is_ascii c then c :: nonascii_to_space false r
    else if in_run then nonascii_to_space true r
    else SPACE :: nonascii_to_space true r
  end.
Definition _to_ascii (text : str) : str := strip (nonascii_to_space false text).

(** ** The arrow-line surgery of [generate_mnemonic] *)

(** [sep.join(parts)] *)
Fixpoint join (sep : str) (parts : list str) : str :=
  match parts with
  | [] => []
  | [x] => x
  | x :: rest => x ++ sep ++ join sep rest
  end.

(** A literal pattern (the result of [re.escape]) at the head of [s]: the
    text left after it. *)
Fixpoint literal_prefix (pat s : str) : option str :=
  match pat, s with
  | [], _ => Some s
  | _ :: _, [] => None
  | p :: pat', c :: r => if (p =? c)%N then literal_prefix pat' r else None
  end.

Definition not_newline (c : char) : bool := negb (c =? NEWLINE)%N.

(** One attempt of [re.escape(k)\s*=\s*.*?→.*] at the head of [s], giving
    [group(0)].  Neither [\s*] gains anything by giving characters back:
    "=" and "→" are no whitespace, and [.] refuses only the newline. *)
Definition match_line_at (k s : str) : option str :=
  match literal_prefix k s with
  | None => None
  | Some r1 =>
    match drop_while is_space r1 with
    | [] => None
    | c :: r3 =>
      let r4 := drop_while is_space r3 in
      let body := before_first ARROW r4 in
      if (c =? EQUALS)%N && contains ARROW r4 && forallb not_newline body
      then Some (k ++ take_while is_space r1 ++ [EQUALS] ++ take_while is_space r3
                   ++ body ++ [ARROW] ++ take_while not_newline (after_first ARROW r4))
      else None
    end
  end.

(** [re.search(rf"{re.escape(k)}\s*=\s*.*?→.*", text)]: the leftmost start
    at which the pattern matches. *)
Fixpoint re_search_line (k text : str) : option str :=
  match match_line_at k text with
  | Some m => Some m
  | None =>
    match text with
    | [] => None
    | _ :: rest => re_search_line k rest
    end
  end.

Definition last_char (s : str) : option char := List.last (List.map Some s) None.

Section Normalizer.
Context {U : PyUnicode}.

(** A literal pattern matched under [re.I]. *)
Fixpoint ci_prefix (pat s : str) : option str :=
  match pat, s with
  | [], _ => Some s
  | _ :: _, [] => None
  | p :: pat', c :: r => if ci_eq p c then ci_prefix pat' r else None
  end.

Definition is_word_at (c : option char) : bool :=
  match c with Some c => is_word c | None => false end.

(** [\b] between two neighbouring positions of the subject. *)
Definition word_boundary (before after : option char) : bool :=
  xorb (is_word_at before) (is_word_at after).

(** One round of the group [pat \b \s* :? \s*] at the head of [s], for a
    non-empty [pat]: the text left after it. *)
Definition lead_once (pat s : str) : option str :=
  match ci_prefix pat s with
  | None => None
  | Some r =>
    if word_boundary (last_char (firstn (length pat) s)) (head r) then
      let r := drop_while is_space r in
      let r := match r with
               | c :: r' => if (c =? COLON)%N then r' else r
               | [] => r
               end in
      Some (drop_while is_space r)
    else None
  end.

Fixpoint lead_loop (fuel : nat) (pat s : str) : str :=
  match fuel with
  | O => s
  | S n =>
    match lead_once pat s with
    | Some r => lead_loop n pat r
    | None => s
    end
  end.

(** Lines 168 and 171: [re.sub] deleting the match of
    [^(?: pat \b \s* :? \s* )+] under [re.I], [pat] being [re.escape]d.
    Every round of a non-empty [pat] eats a character, so [length s]
    rounds are enough; an empty [pat] can match the empty string only,
    whose removal changes nothing. *)
Definition strip_leading (pat s : str) : str :=
  match pat with
  | [] => s
  | _ :: _ => lead_loop (length s) pat s
  end.

Definition nonempty (s : str) : bool :=
  match s with [] => false | _ :: _ => true end.

(** Line 165: [re.sub] deleting the match of [^[=\s]+]. *)
Definition strip_eq_ws (s : str) : str :=
  drop_while (fun c => (c =? EQUALS)%N || is_space c) s.

Definition ends_terminal (s : str) : bool :=
  match last_char s with Some c => is_terminal c | None => false end.

(** Line 158: the line built by hand when the search finds nothing. *)
Definition synth_line (k lhs meanings : str) : str :=
  k ++ u " = " ++ lhs ++ u " → Represents " ++ str_lower meanings ++ u " through its parts.".

(** Lines 153-158. *)
Definition extract_line (k lhs meanings text : str) : str :=
  match re_search_line k text with
  | Some m => strip m
  | None => synth_line k lhs meanings
  end.

(** Lines 163-171: the right-hand side cleaned and rid of a leading
    repetition of [lhs] and of [meanings]. *)
Definition strip_repeats (lhs meanings right : str) : str :=
  let right := _strip_cjk right in
  let right := _one_sentence right 120 in
  let right := strip_eq_ws right in
  let right := if nonempty lhs then strip_leading (strip lhs) right else right in
  if nonempty meanings then strip_leading (strip meanings) right else right.

(** Line 174: the right-hand side built from the meanings. *)
Definition regenerated (meanings : str) : str :=
  _one_sentence (u "Represents " ++ str_lower meanings ++ u ".") 120.

(** Lines 172-176. *)
Definition finish_right (meanings right : str) : str :=
  let right := strip right in
  let right := if nonempty right then right else regenerated meanings in
  if nonempty right && negb (ends_terminal right) then right ++ u "." else right.

(** Lines 163-176: what becomes of [right]. *)
Definition sanitize_right (lhs meanings right : str) : str :=
  finish_right meanings (strip_repeats lhs meanings right).

(** Lines 161-177. *)
Definition sanitize_line (lhs meanings line : str) : str :=
  if contains ARROW line then
    let left := before_first ARROW line in
    let right := after_first ARROW line in
    strip left ++ u " → " ++ sanitize_right lhs meanings right
  else line.

(** Line 150. *)
Definition clean_text (text : str) : str := collapse_ws (replace_bar text).

(** Lines 149-178, for the text [raw] the pipeline handed back. *)
Definition normalize (k lhs meanings raw : str) : str :=
  sanitize_line lhs meanings (extract_line k lhs meanings (clean_text (strip raw))).

(** Lines 181-182. *)
Definition fallback_line (k lhs meanings : str) : str :=
  let fallback_lhs :=
    if nonempty lhs then lhs else if nonempty meanings then meanings else [EM_DASH] in
  let lowered := str_lower meanings in
  k ++ u " = " ++ fallback_lhs ++ u " → Represents "
    ++ (if nonempty lowered then lowered else u "meaning") ++ u " through its parts.".


(** A normalised right-hand side that lines 163-171 leave alone: short or
    cut, free of CJK, not starting with "=", and starting with no
    repetition of [lhs] or [meanings]. *)
Definition stable_right (lhs meanings r : str) : Prop :=
  (length r <= 120 \/ last_char r = Some ELLIPSIS)
  /\ forallb not_cjk r = true
  /\ strip_eq_ws r = r
  /\ (if nonempty lhs then strip_leading (strip lhs) r else r) = r
  /\ (if nonempty meanings then strip_leading (strip meanings) r else r) = r.

End Normalizer.

(** ** Exceptions, the stores and the lazily built globals *)

(** A call either returns a value or raises; the globals a raising call
    leaves behind are not followed. *)
Inductive result (A : Type) : Type :=
| Ok (a : A)
| Raise.
Arguments Ok {A} a.
Arguments Raise {A}.

#[export] Instance result_bind : MBind result := fun A B f r =>
  match r with
  | Ok a => f a
  | Raise => Raise
  end.

#[export] Instance result_fmap : FMap result := fun A B f r =>
  match r with
  | Ok a => Ok (f a)
  | Raise => Raise
  end.

(** One value of [merged_kanji.json]: the two keys the core reads, and
    whether the object holds any other key (an empty object is falsy).
    Both values are lists of strings here; [Untyped.JsonRecord] below has
    the values of every other type, on which lines 111-116 raise. *)
Record KanjiRecord : Type := {
  rec_meanings : option (list str);
  rec_wk_radicals : option (list str);
  rec_other_keys : bool
}.

(** [not details] is false for an object with at least one key. *)
Definition record_truthy (d : KanjiRecord) : bool :=
  match rec_meanings d, rec_wk_radicals d with
  | None, None => rec_other_keys d
  | _, _ => true
  end.

(** [details.get(key, [])] *)
Definition get_list (field : option (list str)) : list str :=
  match field with Some l => l | None => [] end.

(** [l[i]] on a Python list: a negative index counts from the end, and an
    index outside the list raises [IndexError]. *)
Definition py_getitem {A : Type} (l : list A) (i : Z) : result A :=
  let n := Z.of_nat (length l) in
  let j := if (i <? 0)%Z then (i + n)%Z else i in
  if (0 <=? j)%Z && (j <? n)%Z
  then match nth_error l (Z.to_nat j) with Some x => Ok x | None => Raise end
  else Raise.

Section Core.
Context {U : PyUnicode}.
(** Embedding vectors are opaque to the core. *)
Context {vec : Type}.

(** [faiss.IndexFlatL2]: its dimension and the vectors added so far. *)
Record FlatIndex : Type := {
  idx_dim : nat;
  idx_rows : list vec
}.

(** What lies outside the module: the two data files, the embedding
    model, the nearest-neighbour search of faiss and the text pipeline.
    An inner [Raise] is the exception the call would raise.  The calls of
    [encode] and of [search] return here; [Untyped.World] below has their
    exceptions. *)
Record World : Type := {
  (** [KANJI_JSON.open] and [json.load] *)
  kanji_json : result (gmap str KanjiRecord);
  (** [_find_radicals_csv]: [None] when no file matches the pattern;
      else [pd.read_csv], the rows as their ["Radical"] and ["Meaning"]
      cells, each already through [str]. *)
  radicals_csv : option (result (list (str * str)));
  (** [SentenceTransformer(...)], as the embedding of one sentence;
      [encode] embeds each sentence of its list. *)
  sentence_transformer : result (str -> vec);
  vec_dim : vec -> nat;
  (** [index.search(query, k)[1][0]]: the labels of the [k] nearest rows,
      padded with [-1]. *)
  faiss_search : FlatIndex -> vec -> nat -> list Z;
  (** [pipeline("text-generation", ...)]; a call gives the generated text
      ([resp[0]["generated_text"]], or [str(resp)]) or raises. *)
  text_generation : result (str -> result str)
}.

(** The module's globals. *)
Record State : Type := {
  _KANJI_DATA : option (gmap str KanjiRecord);
  _RADICAL_DOCS : option (list str);
  _EMBEDDER : option (str -> vec);
  _FAISS_INDEX : option FlatIndex;
  _PIPE : option (str -> result str)
}.

Definition initial_state : State :=
  {| _KANJI_DATA := None; _RADICAL_DOCS := None; _EMBEDDER := None;
     _FAISS_INDEX := None; _PIPE := None |}.

Definition _ensure_kanji_data (w : World) (st : State) : result State :=
  match _KANJI_DATA st with
  | Some _ => Ok st
  | None =>
    data ← kanji_json w;
    Ok {| _KANJI_DATA := Some data; _RADICAL_DOCS := _RADICAL_DOCS st;
          _EMBEDDER := _EMBEDDER st; _FAISS_INDEX := _FAISS_INDEX st;
          _PIPE := _PIPE st |}
  end.

(** Lines 61-63: the document of one row. *)
Definition radical_doc (row : str * str) : str :=
  u "Radical: " ++ _to_ascii (fst row) ++ [NEWLINE] ++ u "Meaning: " ++ _to_ascii (snd row).

(** [radical_embeddings.shape[1]]: the array of no sentence has no second
    axis. *)
Definition shape1 (w : World) (embeddings : list vec) : result nat :=
  match embeddings with
  | [] => Raise
  | v :: _ => Ok (vec_dim w v)
  end.

(** [index.add(embeddings)] *)
Definition index_add (ix : FlatIndex) (embeddings : list vec) : FlatIndex :=
  {| idx_dim := idx_dim ix; idx_rows := idx_rows ix ++ embeddings |}.

Definition set_index (st : State) (docs : list str) (e : option (str -> vec))
    (ix : option FlatIndex) : State :=
  {| _KANJI_DATA := _KANJI_DATA st; _RADICAL_DOCS := Some docs;
     _EMBEDDER := e; _FAISS_INDEX := ix; _PIPE := _PIPE st |}.

Definition _ensure_radical_index (w : World) (st : State) : result State :=
  match _RADICAL_DOCS st, _EMBEDDER st, _FAISS_INDEX st with
  | Some _, Some _, Some _ => Ok st
  | _, _, _ =>
    match radicals_csv w with
    | Some csv =>
      df ← csv;
      let docs := List.map radical_doc df in
      embed ← sentence_transformer w;
      let radical_embeddings := List.map embed docs in
      dim ← shape1 w radical_embeddings;
      let ix := index_add {| idx_dim := dim; idx_rows := [] |} radical_embeddings in
      Ok (set_index st docs (Some embed) (Some ix))
    | None => Ok (set_index st [] None None)
    end
  end.

Definition _ensure_pipe (w : World) (st : State) : result State :=
  match _PIPE st with
  | Some _ => Ok st
  | None =>
    pipe ← text_generation w;
    Ok {| _KANJI_DATA := _KANJI_DATA st; _RADICAL_DOCS := _RADICAL_DOCS st;
          _EMBEDDER := _EMBEDDER st; _FAISS_INDEX := _FAISS_INDEX st;
          _PIPE := Some pipe |}
  end.

(** Line 86: [[_RADICAL_DOCS[i] for i in I[0] if 0 <= i < len(_RADICAL_DOCS)]] *)
Fixpoint pick_docs (docs : list str) (labels : list Z) : result (list str) :=
  match labels with
  | [] => Ok []
  | i :: rest =>
    if (0 <=? i)%Z && (i <? Z.of_nat (length docs))%Z
    then d ← py_getitem docs i; ds ← pick_docs docs rest; Ok (d :: ds)
    else pick_docs docs rest
  end.

Definition _retrieve_relevant_radicals (w : World) (st : State)
    (query_text : str) (top_k : nat) : result (list str) :=
  match _RADICAL_DOCS st with
  | None | Some [] => Ok []
  | Some docs =>
    match _EMBEDDER st, _FAISS_INDEX st with
    | Some embed, Some ix =>
      pick_docs docs (faiss_search w ix (embed query_text) top_k)
    | _, _ => Ok []
    end
  end.

Definition QUOTE : char := 0x22%N.

(** Lines 118-138. *)
Definition build_prompt (k lhs meanings radical_context : str) : str :=
  [NEWLINE] ++ u "You are a Kanji mnemonic generator." ++ [NEWLINE]
  ++ u "Combine the radicals’ meanings to create a short, logical English mnemonic."
  ++ [NEWLINE; NEWLINE]
  ++ u "Follow this exact one-line format:" ++ [NEWLINE]
  ++ k ++ u " = " ++ lhs ++ u " → <short, clear mnemonic>" ++ [NEWLINE; NEWLINE]
  ++ u "Rules:" ++ [NEWLINE]
  ++ u "- Use ONLY English words and ASCII punctuation. Never include Japanese/Chinese (kanji, kana, hanzi) in the mnemonic."
  ++ [NEWLINE]
  ++ u "- Ignore any non-English visual descriptions; translate their ideas into simple English or omit them."
  ++ [NEWLINE]
  ++ u "- Keep it under 120 characters." ++ [NEWLINE]
  ++ u "- Output exactly one line. No extra text." ++ [NEWLINE; NEWLINE]
  ++ u "Example:" ++ [NEWLINE]
  ++ u "買 = Net + Shell → Buying involves catching valuable shells in a net."
  ++ [NEWLINE; NEWLINE]
  ++ u "Context about the radicals (English-only):" ++ [NEWLINE]
  ++ radical_context ++ [NEWLINE; NEWLINE]
  ++ u "Now generate for " ++ k ++ u " (" ++ [QUOTE] ++ meanings ++ [QUOTE] ++ u ")."
  ++ [NEWLINE].

(** Lines 140-182: the guarded call of the pipeline. *)
Definition generate_line (pipe : str -> result str) (k lhs meanings prompt : str) : str :=
  match pipe prompt with
  | Ok raw => normalize k lhs meanings raw
  | Raise => fallback_line k lhs meanings
  end.

(** Lines 111-113. *)
Definition meanings_of (details : KanjiRecord) : str :=
  join (u ", ") (get_list (rec_meanings details)).

Definition lhs_of (details : KanjiRecord) : str :=
  let radicals_en := get_list (rec_wk_radicals details) in
  match radicals_en with
  | [] => meanings_of details
  | _ :: _ => join (u " + ") radicals_en
  end.

Definition not_found (k : str) : str := u "Kanji " ++ k ++ u " not found.".

Definition generate_mnemonic (w : World) (st : State) (kanji : str)
    : result (State * str) :=
  st ← _ensure_kanji_data w st;
  st ← _ensure_radical_index w st;
  st ← _ensure_pipe w st;
  match _KANJI_DATA st, _PIPE st with
  | Some data, Some pipe =>
    let k := strip kanji in
    match data !! k with
    | Some details =>
      if record_truthy details then
        let meanings := meanings_of details in
        let radicals_en := get_list (rec_wk_radicals details) in
        let lhs := lhs_of details in
        found ← _retrieve_relevant_radicals w st (join (u " ") radicals_en) 3;
        let radical_context := join [NEWLINE; NEWLINE] found in
        Ok (st, generate_line pipe k lhs meanings
                  (build_prompt k lhs meanings radical_context))
      else Ok (st, not_found k)
    | None => Ok (st, not_found k)
    end
  | _, _ => Raise
  end.

(** The join between documents and vectors: row [i] of the index is the
    embedding of document [i]. *)
Definition index_consistent (st : State) : Prop :=
  match _FAISS_INDEX st with
  | Some ix =>
    exists docs embed, _RADICAL_DOCS st = Some docs /\ _EMBEDDER st = Some embed
      /\ idx_rows ix = List.map embed docs
  | None => True
  end.

End Core.

(** ** The shape of a reduced sentence

    What [reduce_sentence] establishes, as decidable predicates: no tag is
    left, no arrow, no sentence end followed by whitespace, every run of
    whitespace is one space, and neither end is whitespace. *)

Fixpoint tag_free (s : str) : bool :=
  match s with
  | [] => true
  | c :: r => negb ((c =? LT)%N && contains GT r) && tag_free r
  end.

Fixpoint sent_ok (after_end : bool) (s : str) : bool :=
  match s with
  | [] => true
  | c :: r => negb (after_end && is_space c) && sent_ok (is_sentence_end c) r
  end.

Fixpoint coll_ok (in_ws : bool) (s : str) : bool :=
  match s with
  | [] => true
  | c :: r =>
    if is_space c then negb in_ws && (c =? SPACE)%N && coll_ok true r
    else coll_ok false r
  end.

Definition trimmed (s : str) : bool :=
  match s, last_char s with
  | c :: _, Some d => negb (is_space c) && negb (is_space d)
  | _, _ => true
  end.

Definition normal4 (s : str) : bool :=
  tag_free s && negb (contains ARROW s) && sent_ok false s && coll_ok false s.

Definition reduced (s : str) : bool := normal4 s && trimmed s.

(** A text of at most [n] characters, or one cut at [n] characters, with
    nothing trimmed, before the ellipsis marker. *)
Definition cut_ok (n : nat) (r : str) : Prop :=
  length r <= n
  \/ exists t, r = t ++ [ELLIPSIS] /\ length t = n /\ rstrip_by is_trim_punct t = t.

(** A string is [dropped ++ rest]: [rest] is what is left of it. *)
Definition left_of (s rest : str) : Prop := exists dropped, s = dropped ++ rest.

Definition no_leading_space (s : str) : Prop :=
  match s with
  | c :: _ => is_space c = false
  | [] => True
  end.

(** ** Predicates on the globals *)

Section GlobalsPredicates.
Context {vec : Type}.

(** Every stored radical document is ASCII. *)
Definition docs_ascii (st : @State vec) : Prop :=
  match _RADICAL_DOCS st with
  | Some docs => Forall (fun d => forallb is_ascii d = true) docs
  | None => True
  end.

End GlobalsPredicates.

(** The sentence of line 158. *)
Definition synth_sentence {U : PyUnicode} (meanings : str) : str :=
  u "Represents " ++ str_lower meanings ++ u " through its parts.".

(** ** The core on whatever the files hold

    [Section Core] reads the kanji file as an object of records whose
    "meanings" and "wk_radicals" are lists of strings or absent, and takes
    [encode] and [search] as calls that return.  [Untyped] follows the same
    lines of the source without these assumptions: the file holds any JSON
    value, a value under a key is of any type, and [encode] and [search]
    may raise.  [lift_world] and [lift_state] embed the first model into
    the second. *)

Module Untyped.
Section UntypedCore.
Context {U : PyUnicode}.
Context {vec : Type}.

(** The value under "meanings" or "wk_radicals", as [str.join] and the
    truth test of line 113 tell values apart. *)
Inductive JsonField : Type :=
| Absent                        (* no such key: [get] gives the default [[]] *)
| Strings (parts : list str)    (* a list of strings; also a string (its characters)
                                   or an object (its keys): what [join] accepts *)
| Unjoinable (truthy : bool).   (* null, a number, true or false, a list holding a
                                   value that is no string: [join] raises TypeError *)

Record JsonRecord : Type := {
  json_meanings : JsonField;
  json_wk_radicals : JsonField;
  json_other_keys : bool
}.

(** A value of the kanji file: an object, or any other value, which has
    no [get]. *)
Inductive JsonDetails : Type :=
| DetailsObject (r : JsonRecord)
| DetailsOther (truthy : bool).

(** What [json.load] gave, when it was not [null]. *)
Inductive JsonStore : Type :=
| StoreObject (values : gmap str JsonDetails)
| StoreOther.

Record World : Type := {
  (** [KANJI_JSON.open] and [json.load]; [None] is the JSON [null]. *)
  kanji_json : result (option JsonStore);
  radicals_csv : option (result (list (str * str)));
  (** [SentenceTransformer(...)]; [encode] on a sentence may raise. *)
  sentence_transformer : result (str -> result vec);
  vec_dim : vec -> nat;
  (** [index.search(query, k)[1][0]], or the exception of the call. *)
  faiss_search : @FlatIndex vec -> vec -> nat -> result (list Z);
  text_generation : result (str -> result str)
}.

Record State : Type := {
  _KANJI_DATA : option JsonStore;
  _RADICAL_DOCS : option (list str);
  _EMBEDDER : option (str -> result vec);
  _FAISS_INDEX : option (@FlatIndex vec);
  _PIPE : option (str -> result str)
}.

Definition initial_state : State :=
  {| _KANJI_DATA := None; _RADICAL_DOCS := None; _EMBEDDER := None;
     _FAISS_INDEX := None; _PIPE := None |}.

(** Lines 42-46: a file holding [null] leaves the global [None]. *)
Definition _ensure_kanji_data (w : World) (st : State) : result State :=
  match _KANJI_DATA st with
  | Some _ => Ok st
  | None =>
    data ← kanji_json w;
    Ok {| _KANJI_DATA := data; _RADICAL_DOCS := _RADICAL_DOCS st;
          _EMBEDDER := _EMBEDDER st; _FAISS_INDEX := _FAISS_INDEX st;
          _PIPE := _PIPE st |}
  end.

(** [_EMBEDDER.encode(docs)]: every sentence is embedded, or the call
    raises. *)
Fixpoint encode (embed : str -> result vec) (sentences : list str) : result (list vec) :=
  match sentences with
  | [] => Ok []
  | s :: rest => v ← embed s; vs ← encode embed rest; Ok (v :: vs)
  end.

Definition shape1 (w : World) (embeddings : list vec) : result nat :=
  match embeddings with
  | [] => Raise
  | v :: _ => Ok (vec_dim w v)
  end.

Definition set_index (st : State) (docs : list str) (e : option (str -> result vec))
    (ix : option (@FlatIndex vec)) : State :=
  {| _KANJI_DATA := _KANJI_DATA st; _RADICAL_DOCS := Some docs;
     _EMBEDDER := e; _FAISS_INDEX := ix; _PIPE := _PIPE st |}.

(** Lines 48-76. *)
Definition _ensure_radical_index (w : World) (st : State) : result State :=
  match _RADICAL_DOCS st, _EMBEDDER st, _FAISS_INDEX st with
  | Some _, Some _, Some _ => Ok st
  | _, _, _ =>
    match radicals_csv w with
    | Some csv =>
      df ← csv;
      let docs := List.map radical_doc df in
      embed ← sentence_transformer w;
      radical_embeddings ← encode embed docs;
      dim ← shape1 w radical_embeddings;
      let ix := index_add {| idx_dim := dim; idx_rows := [] |} radical_embeddings in
      Ok (set_index st docs (Some embed) (Some ix))
    | None => Ok (set_index st [] None None)
    end
  end.

(** Lines 88-98. *)
Definition _ensure_pipe (w : World) (st : State) : result State :=
  match _PIPE st with
  | Some _ => Ok st
  | None =>
    pipe ← text_generation w;
    Ok {| _KANJI_DATA := _KANJI_DATA st; _RADICAL_DOCS := _RADICAL_DOCS st;
          _EMBEDDER := _EMBEDDER st; _FAISS_INDEX := _FAISS_INDEX st;
          _PIPE := Some pipe |}
  end.

(** Lines 78-86: [encode] of line 84 and [search] of line 85 may raise. *)
Definition _retrieve_relevant_radicals (w : World) (st : State)
    (query_text : str) (top_k : nat) : result (list str) :=
  match _RADICAL_DOCS st with
  | None | Some [] => Ok []
  | Some docs =>
    match _EMBEDDER st, _FAISS_INDEX st with
    | Some embed, Some ix =>
      query_emb ← embed query_text;
      labels ← faiss_search w ix query_emb top_k;
      pick_docs docs labels
    | _, _ => Ok []
    end
  end.

(** [not details] *)
Definition object_truthy (r : JsonRecord) : bool :=
  match json_meanings r, json_wk_radicals r with
  | Absent, Absent => json_other_keys r
  | _, _ => true
  end.

Definition details_truthy (d : JsonDetails) : bool :=
  match d with
  | DetailsObject r => object_truthy r
  | DetailsOther truthy => truthy
  end.

(** The truth test of line 113 on [details.get("wk_radicals", [])]. *)
Definition field_truthy (f : JsonField) : bool :=
  match f with
  | Absent => false
  | Strings parts => match parts with [] => false | _ :: _ => true end
  | Unjoinable truthy => truthy
  end.

(** [sep.join(details.get(key, []))] *)
Definition str_join (sep : str) (f : JsonField) : result str :=
  match f with
  | Absent => Ok (join sep [])
  | Strings parts => Ok (join sep parts)
  | Unjoinable _ => Raise
  end.

(** Lines 100-182.  Lines 106-116 stand outside the try block: a store
    or a value without [get], a field that [join] refuses, and an
    exception of the retrieval all reach the caller.  A pipeline that is
    not callable raises inside the try block. *)
Definition generate_mnemonic (w : World) (st : State) (kanji : str)
    : result (State * str) :=
  st ← _ensure_kanji_data w st;
  st ← _ensure_radical_index w st;
  st ← _ensure_pipe w st;
  let k := strip kanji in
  match _KANJI_DATA st with
  | Some (StoreObject data) =>
    match data !! k with
    | Some details =>
      if details_truthy details then
        match details with
        | DetailsObject r =>
          meanings ← str_join (u ", ") (json_meanings r);
          let radicals_en := json_wk_radicals r in
          lhs ← (if field_truthy radicals_en then str_join (u " + ") radicals_en
                 else Ok meanings);
          query_text ← str_join (u " ") radicals_en;
          found ← _retrieve_relevant_radicals w st query_text 3;
          let radical_context := join [NEWLINE; NEWLINE] found in
          let pipe := match _PIPE st with
                      | Some pipe => pipe
                      | None => fun _ => Raise
                      end in
          Ok (st, generate_line pipe k lhs meanings
                    (build_prompt k lhs meanings radical_context))
        | DetailsOther _ => Raise
        end
      else Ok (st, not_found k)
    | None => Ok (st, not_found k)
    end
  | Some StoreOther | None => Raise
  end.

(** A record read as [Section Core] reads it: both fields absent or
    joinable. *)
Definition typed_field (f : JsonField) : option (option (list str)) :=
  match f with
  | Absent => Some None
  | Strings parts => Some (Some parts)
  | Unjoinable _ => None
  end.

Definition typed_record (r : JsonRecord) : option KanjiRecord :=
  match typed_field (json_meanings r), typed_field (json_wk_radicals r) with
  | Some meanings, Some radicals =>
    Some {| rec_meanings := meanings; rec_wk_radicals := radicals;
            rec_other_keys := json_other_keys r |}
  | _, _ => None
  end.

(** A looked-up value on which lines 108-116 raise nothing of their own:
    none, a falsy one, or an object with joinable fields. *)
Definition answerable (value : option JsonDetails) : Prop :=
  match value with
  | None => True
  | Some (DetailsOther truthy) => truthy = false
  | Some (DetailsObject r) => typed_record r <> None
  end.

(** All five globals are set: the guards of the three loaders pass. *)
Definition warm (st : State) : Prop :=
  _KANJI_DATA st <> None /\ _RADICAL_DOCS st <> None /\ _EMBEDDER st <> None
  /\ _FAISS_INDEX st <> None /\ _PIPE st <> None.

End UntypedCore.
End Untyped.

(** *** The first model inside the second *)

Section Lifting.
Context {vec : Type}.

Definition lift_field (f : option (list str)) : Untyped.JsonField :=
  match f with
  | None => Untyped.Absent
  | Some parts => Untyped.Strings parts
  end.

Definition lift_record (d : KanjiRecord) : Untyped.JsonRecord :=
  {| Untyped.json_meanings := lift_field (rec_meanings d);
     Untyped.json_wk_radicals := lift_field (rec_wk_radicals d);
     Untyped.json_other_keys := rec_other_keys d |}.

Definition lift_store (data : gmap str KanjiRecord) : Untyped.JsonStore :=
  Untyped.StoreObject ((fun d => Untyped.DetailsObject (lift_record d)) <$> data).

Definition lift_embedder (embed : str -> vec) : str -> result vec :=
  fun sentence => Ok (embed sentence).

Definition lift_state (st : @State vec) : @Untyped.State vec :=
  {| Untyped._KANJI_DATA := lift_store <$> _KANJI_DATA st;
     Untyped._RADICAL_DOCS := _RADICAL_DOCS st;
     Untyped._EMBEDDER := lift_embedder <$> _EMBEDDER st;
     Untyped._FAISS_INDEX := _FAISS_INDEX st;
     Untyped._PIPE := _PIPE st |}.

Definition lift_world (w : @World vec) : @Untyped.World vec :=
  {| Untyped.kanji_json := (fun data => Some (lift_store data)) <$> kanji_json w;
     Untyped.radicals_csv := radicals_csv w;
     Untyped.sentence_transformer := lift_embedder <$> sentence_transformer w;
     Untyped.vec_dim := vec_dim w;
     Untyped.faiss_search := fun ix q k => Ok (faiss_search w ix q k);
     Untyped.text_generation := text_generation w |}.

End Lifting.

(** Whitespace is the single blank only (in particular no line break). *)
Definition blank_only (s : str) : bool :=
  forallb (fun c => negb (is_space c) || (c =? SPACE)%N) s.

(** A text that can stand on the left of a line as it is: not empty,
    stripped, its whitespace single blanks, and holding neither an arrow
    nor a bar. *)
Definition plain (s : str) : bool :=
  nonempty s && trimmed s && coll_ok false s
  && negb (contains ARROW s) && negb (contains BAR s).

(** ** [_find_radicals_csv] and the snapshots it looks for

    [HERE.glob(pattern)] gives the entries of the directory whose name
    matches the pattern; all lie in [HERE], so sorting the paths is
    sorting the names, and a path is given by its name.  Names are
    compared as a case-sensitive file system has them. *)

(** [a < b] on strings: by code points. *)
Fixpoint str_ltb (a b : str) : bool :=
  match a, b with
  | _, [] => false
  | [], _ :: _ => true
  | x :: a', y :: b' => (x <? y)%N || ((x =? y)%N && str_ltb a' b')
  end.

Definition ends_with (suffix s : str) : bool :=
  match literal_prefix (rev suffix) (rev s) with Some _ => true | None => false end.

(** The pattern [radicals_with_visual_form_*.csv] on a name. *)
Definition glob_match (name : str) : bool :=
  match literal_prefix (u "radicals_with_visual_form_") name with
  | Some rest => ends_with (u ".csv") rest
  | None => false
  end.

(** [sorted]: ascending and stable, comparing with [<] only. *)
Fixpoint insert_sorted (x : str) (l : list str) : list str :=
  match l with
  | [] => [x]
  | y :: l' => if str_ltb y x then y :: insert_sorted x l' else x :: y :: l'
  end.

Definition sorted (l : list str) : list str := fold_right insert_sorted [] l.

(** Lines 12-14, on the names the directory holds. *)
Definition _find_radicals_csv (listing : list str) : option str :=
  let candidates := sorted (List.filter glob_match listing) in
  match candidates with
  | [] => None
  | _ :: _ => List.last (List.map Some candidates) None
  end.

(** *** [radical_visual_form.py], lines 61-62: the name of a snapshot *)

Record DateTime : Type := {
  year : N; month : N; day : N; hour : N; minute : N; second : N
}.

(** The values [datetime.now()] can take, from the year 1000 on, where
    [%Y] has its four digits on every platform. *)
Definition valid_datetime (dt : DateTime) : Prop :=
  (1000 <= year dt <= 9999 /\ 1 <= month dt <= 12 /\ 1 <= day dt <= 31
   /\ hour dt <= 23 /\ minute dt <= 59 /\ second dt <= 59)%N.

Definition digit (n : N) : char := (48 + n mod 10)%N.
Definition two_digits (n : N) : str := [digit (n / 10); digit n].
Definition four_digits (n : N) : str :=
  [digit (n / 1000); digit (n / 100); digit (n / 10); digit n].

(** [dt.strftime("%Y%m%d_%H%M%S")] *)
Definition strftime (dt : DateTime) : str :=
  four_digits (year dt) ++ two_digits (month dt) ++ two_digits (day dt)
  ++ u "_" ++ two_digits (hour dt) ++ two_digits (minute dt) ++ two_digits (second dt).

Definition csv_path (timestamp : str) : str :=
  u "radicals_with_visual_form_" ++ timestamp ++ u ".csv".

(** [a < b] on two moments: field by field, the year first. *)
Fixpoint fields_ltb (a b : list N) : bool :=
  match a, b with
  | x :: a', y :: b' => (x <? y)%N || ((x =? y)%N && fields_ltb a' b')
  | _, _ => false
  end.

Definition fields (dt : DateTime) : list N :=
  [year dt; month dt; day dt; hour dt; minute dt; second dt].

Definition earlier (a b : DateTime) : bool := fields_ltb (fields a) (fields b).

(** ** [radical_visual_form.py]: asking the model for a visual form *)

(** What [subprocess.run(..., check=True)] comes to. *)
Inductive RunOutcome : Type :=
| Completed (stdout : str)
| CalledProcessError (stderr : str)
| OtherException (message : str).

Definition failed (o : RunOutcome) : Prop :=
  match o with Completed _ => False | _ => True end.

(** What the script has done so far: the runs of the model it started,
    the messages printed, the seconds slept, the lines written to the
    log. *)
Record Effects : Type := {
  runs : nat;
  printed : list str;
  slept : nat;
  logged : list str
}.

Definition no_effects : Effects :=
  {| runs := 0; printed := []; slept := 0; logged := [] |}.

Definition ran (e : Effects) : Effects :=
  {| runs := S (runs e); printed := printed e; slept := slept e; logged := logged e |}.
Definition safe_print (msg : str) (e : Effects) : Effects :=
  {| runs := runs e; printed := printed e ++ [msg]; slept := slept e; logged := logged e |}.
Definition sleep (seconds : nat) (e : Effects) : Effects :=
  {| runs := runs e; printed := printed e; slept := slept e + seconds;
     logged := logged e |}.
Definition log_write (line : str) (e : Effects) : Effects :=
  {| runs := runs e; printed := printed e; slept := slept e;
     logged := logged e ++ [line] |}.

(** Lines 25-39. *)
Definition visual_prompt (radical meaning : str) : str :=
  [NEWLINE]
  ++ u "        You are a visual description assistant for JAPANESE radicals." ++ [NEWLINE]
  ++ u "        Your task: Describe, in under 10 words, what the radical *looks like* and how it visually connects to its meaning."
  ++ [NEWLINE; NEWLINE]
  ++ u "        Examples:" ++ [NEWLINE]
  ++ u "        火 (fire) → flames rising upward" ++ [NEWLINE]
  ++ u "        水 (water) → flowing river" ++ [NEWLINE]
  ++ u "        木 (tree) → trunk with spreading branches" ++ [NEWLINE]
  ++ u "        山 (mountain) → three peaks" ++ [NEWLINE]
  ++ u "        日 (sun) → round sun or bright circle" ++ [NEWLINE; NEWLINE]
  ++ u "        Now describe visually:" ++ [NEWLINE]
  ++ u "        " ++ radical ++ u " (" ++ meaning ++ u ")" ++ [NEWLINE]
  ++ u "        Output only the short description, no extra text." ++ [NEWLINE]
  ++ u "    ".

(** Lines 41-58: [left] iterations of the loop are still to come.
    [ollama n input] is what run number [n] of the model comes to. *)
Fixpoint attempts (ollama : nat -> str -> RunOutcome) (radical prompt : str)
    (left : nat) (e : Effects) : str * Effects :=
  match left with
  | O => ([], e)
  | S left' =>
    match ollama (runs e) prompt with
    | Completed stdout => (strip stdout, ran e)
    | CalledProcessError stderr =>
      let e := safe_print (u "⚠️ Ollama error for " ++ radical ++ u ": " ++ strip stderr)
                 (ran e) in
      attempts ollama radical prompt left' (sleep 1 e)
    | OtherException message =>
      let e := safe_print (u "⚠️ Other error for " ++ radical ++ u ": " ++ message)
                 (ran e) in
      attempts ollama radical prompt left' (sleep 1 e)
    end
  end.

(** Lines 24-58; [range(retries)] is empty for [retries <= 0]. *)
Definition generate_visual_form_ollama (ollama : nat -> str -> RunOutcome)
    (radical meaning : str) (retries : Z) (e : Effects) : str * Effects :=
  attempts ollama radical (visual_prompt radical meaning) (Z.to_nat retries) e.

(** Lines 70-79: one row of the table. *)
Definition visual_row (ollama : nat -> str -> RunOutcome) (row : str * str)
    (e : Effects) : str * Effects :=
  let radical := fst row in
  let meaning := snd row in
  let e := safe_print ([NEWLINE] ++ u "🔹 Generating for " ++ radical ++ u " (" ++ meaning
                         ++ u ")...") e in
  let '(visual, e) := generate_visual_form_ollama ollama radical meaning 2 e in
  let e := safe_print (u "✨ Visual form: " ++ visual) e in
  let e := log_write (radical ++ u " (" ++ meaning ++ u "): " ++ visual ++ [NEWLINE]) e in
  (visual, sleep 1 e).

(** Lines 66-79: the column [visual_forms], one entry appended per row. *)
Fixpoint visual_forms (ollama : nat -> str -> RunOutcome) (rows : list (str * str))
    (e : Effects) : list str * Effects :=
  match rows with
  | [] => ([], e)
  | row :: rest =>
    let '(visual, e) := visual_row ollama row e in
    let '(visuals, e) := visual_forms ollama rest e in
    (visual :: visuals, e)
  end.

(** ** [app.py]: the fallback line of the page *)

Section AppFallback.
Context {U : PyUnicode}.

(** Lines 180, 205 and 292-294: the line shown when the generator gave
    nothing.  [info.get(key) or []] is [get_list] on a record. *)
Definition app_fallback (k : str) (info : KanjiRecord) : str :=
  let meanings := get_list (rec_meanings info) in
  let radicals := get_list (rec_wk_radicals info) in
  let meanings_str :=
    match meanings with [] => u "meaning" | _ :: _ => join (u ", ") meanings end in
  let lhs :=
    match radicals with [] => meanings_str | _ :: _ => join (u " + ") radicals end in
  k ++ u " = " ++ lhs ++ u " → Represents " ++ str_lower meanings_str
    ++ u " through its parts.".

End AppFallback.

(** ** [app.py]: the index of saved mnemonics *)

(** The value under a key of a parsed object, as far as lines 102-108
    tell values apart. *)
Inductive JField : Type :=
| Missing                       (* no such key: [get] gives [None] *)
| JStr (s : str)
| JFalsy                        (* null, false, zero, an empty list or object *)
| JTruthy (hashable : bool).    (* any other value; lists and objects are unhashable *)

(** What [json.loads] makes of a line. *)
Inductive JLine : Type :=
| Unparseable                   (* it raises *)
| NonObject                     (* a value without [get] *)
| JObject (kanji mnemonic reminder : JField).

Record Saved : Type := { saved_mnemonic : str; saved_reminder : str }.

(** [(obj.get(key) or "").strip()]: only a string has [strip]. *)
Definition saved_text (f : JField) : result str :=
  match f with
  | JStr s => Ok (strip s)
  | Missing | JFalsy => Ok []
  | JTruthy _ => Raise
  end.

(** Lines 106-109: the entry built from the two texts. *)
Definition saved_entry (m r : JField) : result Saved :=
  m ← saved_text m; r ← saved_text r;
  Ok {| saved_mnemonic := m; saved_reminder := r |}.

(** Lines 95-109: one line of the file.  The index is followed on its
    string keys, the only ones the page asks for; an entry stored under
    another hashable key leaves them alone. *)
Definition index_line (json_loads : str -> JLine) (idx : gmap str Saved) (line : str)
    : result (gmap str Saved) :=
  let line := strip line in
  if nonempty line then
    match json_loads line with
    | Unparseable => Ok idx
    | NonObject => Raise
    | JObject k m r =>
      match k with
      | Missing | JFalsy | JStr [] => Ok idx
      | JStr k => e ← saved_entry m r; Ok (<[k := e]> idx)
      | JTruthy hashable => e ← saved_entry m r; if hashable then Ok idx else Raise
      end
    end
  else Ok idx.

Fixpoint index_lines (json_loads : str -> JLine) (idx : gmap str Saved)
    (lines : list str) : result (gmap str Saved) :=
  match lines with
  | [] => Ok idx
  | line :: rest => idx ← index_line json_loads idx line; index_lines json_loads idx rest
  end.

(** Lines 89-110; [file] is [None] when the file does not exist. *)
Definition load_mnemonics_index (json_loads : str -> JLine) (file : option (list str))
    : result (gmap str Saved) :=
  match file with
  | None => Ok ∅
  | Some lines => index_lines json_loads ∅ lines
  end.

(** The line stores an entry for [k]. *)
Definition names_kanji (json_loads : str -> JLine) (k line : str) : bool :=
  nonempty (strip line)
  && match json_loads (strip line) with
     | JObject (JStr k') _ _ => nonempty k' && bool_decide (k' = k)
     | _ => false
     end.

(** The line is passed over: blank, or not parseable. *)
Definition passed_over (json_loads : str -> JLine) (line : str) : bool :=
  negb (nonempty (strip line))
  || match json_loads (strip line) with Unparseable => true | _ => false end.

(** [a <= b]: [b < a] fails. *)
Definition str_le (a b : str) : Prop := str_ltb b a = false.


(** Every key is non-empty and every stored text is stripped. *)
Definition clean_entries (idx : gmap str Saved) : Prop :=
  forall k e, idx !! k = Some e ->
    k <> [] /\ trimmed (saved_mnemonic e) = true /\ trimmed (saved_reminder e) = true.


(** Line 122 of the core: the line the prompt asks for. *)
Definition arrow_line (k lhs r : str) : str := k ++ u " = " ++ lhs ++ u " → " ++ r.

(** ** Concrete collaborators for evaluating the model

    A toy world: vectors are sentence lengths, the search lists the rows in
    index order and pads with [-1] as faiss does when the index holds fewer
    than [k] vectors.  Closed statements below are evaluated with the
    tables [ascii_tables]. *)

Definition toy_search (ix : @FlatIndex nat) (query : nat) (k : nat) : list Z :=
  List.map Z.of_nat (seq 0 (Nat.min k (length (idx_rows ix))))
    ++ repeat (-1)%Z (k - length (idx_rows ix)).

Definition kai_record : KanjiRecord :=
  {| rec_meanings := Some [u "buy"; u "purchase"];
     rec_wk_radicals := Some [u "Net"; u "Shell"];
     rec_other_keys := true |}.

Definition toy_store : gmap str KanjiRecord := {[ u "買" := kai_record ]}.

Definition toy_rows : list (str * str) :=
  [(u "网 Net", u "a net"); (u "貝 Shell", u "a shell")].

(** The pipeline of the toy world answers every prompt with [reply]. *)
Definition toy_world (csv : option (result (list (str * str)))) (reply : result str)
    : @World nat :=
  {| kanji_json := Ok toy_store;
     radicals_csv := csv;
     sentence_transformer := Ok (@length char);
     vec_dim := fun _ => 1;
     faiss_search := toy_search;
     text_generation := Ok (fun _ => reply) |}.

(** A world whose kanji file cannot be read. *)
Definition unreadable_world : @World nat :=
  {| kanji_json := Raise;
     radicals_csv := None;
     sentence_transformer := Ok (@length char);
     vec_dim := fun _ => 1;
     faiss_search := toy_search;
     text_generation := Ok (fun _ => Raise) |}.

Definition toy_docs : list str := List.map radical_doc toy_rows.

(** The globals of the toy world after [_ensure_radical_index] found the
    store, and after it found none. *)
Definition toy_built : @State nat :=
  set_index initial_state toy_docs (Some (@length char))
    (Some {| idx_dim := 1; idx_rows := List.map (@length char) toy_docs |}).

Definition toy_unbuilt : @State nat := set_index initial_state [] None None.

(** The globals of the toy world after each of the three loaders. *)
Definition toy_st1 : @State nat :=
  {| _KANJI_DATA := Some toy_store; _RADICAL_DOCS := None; _EMBEDDER := None;
     _FAISS_INDEX := None; _PIPE := None |}.

Definition toy_st2 : @State nat :=
  set_index toy_st1 toy_docs (Some (@length char))
    (Some {| idx_dim := 1; idx_rows := List.map (@length char) toy_docs |}).

Definition toy_st3 (reply : result str) : @State nat :=
  {| _KANJI_DATA := _KANJI_DATA toy_st2; _RADICAL_DOCS := _RADICAL_DOCS toy_st2;
     _EMBEDDER := _EMBEDDER toy_st2; _FAISS_INDEX := _FAISS_INDEX toy_st2;
     _PIPE := Some (fun _ => reply) |}.

(** A kanji file whose record for 買 holds [null] under "meanings". *)
Definition null_meanings_world : @Untyped.World nat :=
  {| Untyped.kanji_json :=
       Ok (Some (Untyped.StoreObject
                   {[ u "買" := Untyped.DetailsObject
                        {| Untyped.json_meanings := Untyped.Unjoinable false;
                           Untyped.json_wk_radicals := Untyped.Strings [u "Net"; u "Shell"];
                           Untyped.json_other_keys := true |} ]}));
     Untyped.radicals_csv := None;
     Untyped.sentence_transformer := Ok (fun sentence => Ok (length sentence));
     Untyped.vec_dim := fun _ => 1;
     Untyped.faiss_search := fun ix q k => Ok (toy_search ix q k);
     Untyped.text_generation := Ok (fun _ => Ok (u "買 = Net + Shell → A net of shells.")) |}.

(** The toy world with a search that raises. *)
Definition failing_search_world : @Untyped.World nat :=
  {| Untyped.kanji_json := Ok (Some (lift_store toy_store));
     Untyped.radicals_csv := Some (Ok toy_rows);
     Untyped.sentence_transformer := Ok (fun sentence => Ok (length sentence));
     Untyped.vec_dim := fun _ => 1;
     Untyped.faiss_search := fun _ _ _ => Raise;
     Untyped.text_generation := Ok (fun _ => Ok (u "買 = Net + Shell → A net of shells.")) |}.

(** A model that fails once and then answers. *)
Definition flaky_ollama (n : nat) (input : str) : RunOutcome :=
  match n with
  | O => CalledProcessError (u "model not found ")
  | S _ => Completed (u " three peaks ")
  end.


(** A parser for the lines of the example: a line is read by its first
    character. *)
Definition toy_loads (line : str) : JLine :=
  match line with
  | 0x7B%N :: k :: rest => JObject (JStr [k]) (JStr rest) Missing
  | 0x5B%N :: _ => NonObject
  | _ => Unparseable
  end.


Definition snapshot_2024 : DateTime :=
  {| year := 2024; month := 12; day := 31; hour := 23; minute := 59; second := 59 |}.
Definition snapshot_2025 : DateTime :=
  {| year := 2025; month := 1; day := 2; hour := 3; minute := 4; second := 5 |}.

Definition toy_listing : list str :=
  [u "radicals_with_visual_form_20250102_030405.csv"; u "merged_kanji.json";
   u "radicals_with_visual_form_20241231_235959.csv"; u "japanese-radicals.csv"].

(** ** The model on the scenarios of the specification *)

Example one_sentence_ex1 :
  _one_sentence (u " 購入 <b>Buy</b>  it!  Now.  → x") 120 = u "購入 Buy it!".
Proof. vm_compute. reflexivity. Qed.

Example normalize_well_formed :
  normalize (u "買") (u "Net + Shell") (u "buy, purchase")
    (u "買 = Net + Shell → Buying involves catching valuable shells in a net.")
  = u "買 = Net + Shell → Buying involves catching valuable shells in a net.".
Proof. vm_compute. reflexivity. Qed.

Example normalize_cjk_prefix :
  normalize (u "買") (u "Net + Shell") (u "buy, purchase")
    (u "買 = Net + Shell → 購入 means buying shells as valuable items obtained via a net, literally.")
  = u "買 = Net + Shell → means buying shells as valuable items obtained via a net, literally.".
Proof. vm_compute. reflexivity. Qed.

Example normalize_free_text :
  normalize (u "買") (u "Net + Shell") (u "buy, purchase") (u "I cannot help with that")
  = u "買 = Net + Shell → Represents buy, purchase through its parts.".
Proof. vm_compute. reflexivity. Qed.

Example normalize_lhs_repeat :
  normalize (u "買") (u "Net + Shell") (u "buy, purchase")
    (u "Sure! 買=Net + Shell→ net + shell: Buy, purchase: a net full of shells")
  = u "買=Net + Shell → a net full of shells.".
Proof. vm_compute. reflexivity. Qed.

Example toy_docs_ascii :
  toy_docs = [u "Radical: Net" ++ [NEWLINE] ++ u "Meaning: a net";
              u "Radical: Shell" ++ [NEWLINE] ++ u "Meaning: a shell"].
Proof. vm_compute. reflexivity. Qed.

Example generate_mnemonic_found :
  snd <$> generate_mnemonic (toy_world (Some (Ok toy_rows)) (Ok (u "買 = Net + Shell → A net | of shells.  Extra.")))
            initial_state (u " 買 ")
  = Ok (u "買 = Net + Shell → A net of shells.").
Proof. vm_compute. reflexivity. Qed.

(** ** The retriever *)

Section RetrieverFacts.
Context {vec : Type}.
Implicit Types (w : @World vec) (st : @State vec).

Lemma py_getitem_in_range {A : Type} (l : list A) (i : Z) :
  (0 <= i < Z.of_nat (length l))%Z ->
  exists x, py_getitem l i = Ok x /\ In x l.
Proof.
  intros Hi. unfold py_getitem.
  destruct (Z.ltb_spec i 0) as [Hneg | _]; [lia |].
  destruct (Z.leb_spec 0 i) as [_ | Hneg]; [| lia].
  destruct (Z.ltb_spec i (Z.of_nat (length l))) as [_ | Hbig]; [| lia].
  cbn [andb].
  destruct (nth_error l (Z.to_nat i)) as [x |] eqn:Hnth.
  - exists x. split; [reflexivity | eapply nth_error_In; eassumption].
  - apply nth_error_None in Hnth. lia.
Qed.

(** The comprehension of line 86 never indexes outside the list. *)
Lemma pick_docs_ok (docs : list str) (labels : list Z) :
  exists ds, pick_docs docs labels = Ok ds
    /\ length ds <= length labels
    /\ forall d, In d ds -> In d docs.
Proof.
  induction labels as [| i rest IH]; cbn [pick_docs].
  - exists []. cbn. repeat split; [lia | intros d []].
  - destruct IH as (ds & Hds & Hlen & Hin).
    destruct ((0 <=? i)%Z && (i <? Z.of_nat (length docs))%Z) eqn:Hguard.
    + apply andb_true_iff in Hguard as [H0 H1].
      apply Z.leb_le in H0. apply Z.ltb_lt in H1.
      destruct (py_getitem_in_range docs i (conj H0 H1)) as (x & Hx & Hxin).
      rewrite Hx, Hds. cbn. exists (x :: ds). repeat split.
      * cbn. lia.
      * intros d [<- | Hd]; auto.
    + exists ds. repeat split; [assumption | cbn; lia | assumption].
Qed.

Lemma retrieve_total w st (query_text : str) (top_k : nat) :
  exists ds, _retrieve_relevant_radicals w st query_text top_k = Ok ds
    /\ (forall d, In d ds ->
          exists docs, _RADICAL_DOCS st = Some docs /\ In d docs)
    /\ (ds = [] \/
          exists embed ix, _EMBEDDER st = Some embed /\ _FAISS_INDEX st = Some ix
            /\ length ds <= length (faiss_search w ix (embed query_text) top_k)).
Proof.
  unfold _retrieve_relevant_radicals.
  destruct (_RADICAL_DOCS st) as [[| d0 docs] |] eqn:Hdocs;
    try (exists []; repeat split; [intros d [] | left; reflexivity]).
  destruct (_EMBEDDER st) as [embed |] eqn:He;
    [| exists []; repeat split; [intros d [] | left; reflexivity]].
  destruct (_FAISS_INDEX st) as [ix |] eqn:Hix;
    [| exists []; repeat split; [intros d [] | left; reflexivity]].
  destruct (pick_docs_ok (d0 :: docs) (faiss_search w ix (embed query_text) top_k))
    as (ds & Hds & Hlen & Hin).
  exists ds. repeat split; [assumption | |].
  - intros d Hd. exists (d0 :: docs). split; [reflexivity | apply Hin, Hd].
  - right. exists embed, ix. repeat split; assumption.
Qed.


End RetrieverFacts.



(** C3, as stated, fails: a kanji without radical names sends the empty
    query to a built index, and the search answers with its nearest rows. *)
Lemma retrieve_empty_query_finds_documents :
  _ensure_radical_index (toy_world (Some (Ok toy_rows)) Raise) initial_state = Ok toy_built
  /\ _retrieve_relevant_radicals (toy_world (Some (Ok toy_rows)) Raise) toy_built
       (join (u " ") []) 3 = Ok toy_docs
  /\ toy_docs <> [].
Proof. repeat split; [vm_compute; reflexivity .. | discriminate]. Qed.

Section IndexFacts.
Context {vec : Type}.
Implicit Types (w : @World vec) (st : @State vec).

(** C3, amended.  The retriever returns the empty list, and returns
    normally, whenever the stored documents are unset or empty or the
    embedder or the index is unset; this is the state in which
    [_ensure_radical_index] leaves the globals when it finds no store. *)
Theorem retrieve_empty_context w st0 st (query_text : str) (top_k : nat) :
  _RADICAL_DOCS st = None \/ _RADICAL_DOCS st = Some [] \/ _EMBEDDER st = None
    \/ _FAISS_INDEX st = None
    \/ (radicals_csv w = None /\ _FAISS_INDEX st0 = None
        /\ _ensure_radical_index w st0 = Ok st) ->
  _retrieve_relevant_radicals w st query_text top_k = Ok [].
Proof.
  intros H.
  assert (Hcases : _RADICAL_DOCS st = None \/ _RADICAL_DOCS st = Some []
                   \/ _EMBEDDER st = None \/ _FAISS_INDEX st = None).
  { destruct H as [H | [H | [H | [H | (Hcsv & Hix & Hens)]]]]; auto.
    unfold _ensure_radical_index in Hens. rewrite Hix, Hcsv in Hens.
    destruct (_RADICAL_DOCS st0), (_EMBEDDER st0); inversion Hens; cbn; auto. }
  unfold _retrieve_relevant_radicals.
  destruct Hcases as [-> | [-> | [He | Hix]]]; try reflexivity.
  - destruct (_RADICAL_DOCS st) as [[| ? ?] |]; try reflexivity.
    rewrite He. reflexivity.
  - destruct (_RADICAL_DOCS st) as [[| ? ?] |]; try reflexivity.
    rewrite Hix. destruct (_EMBEDDER st); reflexivity.
Qed.

Lemma nth_error_map_rows {A B : Type} (f : A -> B) (l : list A) (i : nat) :
  nth_error (List.map f l) i = option_map f (nth_error l i).
Proof. revert i. induction l as [| a l IH]; intros [| i]; cbn; auto. Qed.

(** C9, amended.  From globals whose index, if any, is consistent:
    - every return of [_ensure_radical_index] leaves them consistent;
    - with a store of at least one row and a loadable model, and no index
      yet, the call returns with one document per row and one vector per
      document, vector [i] being the embedding of document [i], and these
      globals stay as they are in every later call, whatever the files
      then hold;
    - with no store, and no index yet, the call returns with an empty
      document list and no index.  In that state every retrieval is
      empty, and a later call leaves it as long as the store is absent;
      but the guard of line 50 does not hold in it, so every call looks
      for the store again, and a later call that finds a store of at
      least one row builds the index. *)
Theorem ensure_radical_index_consistent w st :
  index_consistent st ->
  (forall st', _ensure_radical_index w st = Ok st' -> index_consistent st')
  /\ (forall df embed,
        _FAISS_INDEX st = None -> radicals_csv w = Some (Ok df) -> df <> [] ->
        sentence_transformer w = Ok embed ->
        exists st' docs ix,
          _ensure_radical_index w st = Ok st'
          /\ _RADICAL_DOCS st' = Some docs /\ _FAISS_INDEX st' = Some ix
          /\ docs = List.map radical_doc df
          /\ length docs = length (idx_rows ix)
          /\ (forall i, nth_error (idx_rows ix) i = option_map embed (nth_error docs i))
          /\ forall w', _ensure_radical_index w' st' = Ok st')
  /\ (_FAISS_INDEX st = None -> radicals_csv w = None ->
        exists st',
          _ensure_radical_index w st = Ok st'
          /\ _RADICAL_DOCS st' = Some [] /\ _EMBEDDER st' = None /\ _FAISS_INDEX st' = None
          /\ (forall w' q k, _retrieve_relevant_radicals w' st' q k = Ok [])
          /\ (forall w', radicals_csv w' = None -> _ensure_radical_index w' st' = Ok st')
          /\ (forall w' df embed,
                radicals_csv w' = Some (Ok df) -> df <> [] ->
                sentence_transformer w' = Ok embed ->
                exists st'' ix,
                  _ensure_radical_index w' st' = Ok st''
                  /\ _RADICAL_DOCS st'' = Some (List.map radical_doc df)
                  /\ _EMBEDDER st'' = Some embed
                  /\ _FAISS_INDEX st'' = Some ix
                  /\ idx_rows ix = List.map embed (List.map radical_doc df))).
Proof.
  intros Hinv.
  assert (Hbuild : forall w0 st0 df embed,
    _FAISS_INDEX st0 = None -> radicals_csv w0 = Some (Ok df) -> df <> [] ->
    sentence_transformer w0 = Ok embed ->
    _ensure_radical_index w0 st0
    = Ok (set_index st0 (List.map radical_doc df) (Some embed)
            (Some {| idx_dim := vec_dim w0 (embed (radical_doc (hd ([], []) df)));
                     idx_rows := List.map embed (List.map radical_doc df) |}))).
  { intros w0 st0 df embed Hix Hcsv Hne Hload.
    unfold _ensure_radical_index. rewrite Hix, Hcsv, Hload.
    destruct df as [| row rows]; [congruence |].
    destruct (_RADICAL_DOCS st0), (_EMBEDDER st0); reflexivity. }
  split; [| split].
  - intros st' Hens. unfold _ensure_radical_index in Hens.
    destruct (_RADICAL_DOCS st) as [docs0 |] eqn:Hd, (_EMBEDDER st) as [e0 |] eqn:He,
      (_FAISS_INDEX st) as [ix0 |] eqn:Hi;
      try (inversion Hens; subst st'; exact Hinv);
      (destruct (radicals_csv w) as [[df |] |]; cbn in Hens; try discriminate;
       [ destruct (sentence_transformer w) as [embed |]; cbn in Hens; try discriminate;
         destruct (shape1 w (List.map embed (List.map radical_doc df))) as [dim |];
         cbn in Hens; try discriminate;
         inversion Hens; subst st'; unfold index_consistent; cbn;
         exists (List.map radical_doc df), embed; auto
       | inversion Hens; subst st'; unfold index_consistent; cbn; exact I ]).
  - intros df embed Hix Hcsv Hne Hload.
    eexists _, _, _. split; [exact (Hbuild w st df embed Hix Hcsv Hne Hload) |].
    cbn [set_index _RADICAL_DOCS _FAISS_INDEX _EMBEDDER idx_rows].
    repeat split; try reflexivity.
    + cbn [idx_rows]. rewrite !length_map. reflexivity.
    + intros i. apply nth_error_map_rows.
  - intros Hix Hcsv.
    assert (Hens : _ensure_radical_index w st = Ok (set_index st [] None None)).
    { unfold _ensure_radical_index. rewrite Hix, Hcsv.
      destruct (_RADICAL_DOCS st), (_EMBEDDER st); reflexivity. }
    exists (set_index st [] None None). split; [exact Hens |].
    split; [reflexivity | split; [reflexivity | split; [reflexivity |]]].
    split; [reflexivity | split].
    + intros w' Hnone. unfold _ensure_radical_index. cbn. rewrite Hnone. reflexivity.
    + intros w' df embed Hcsv' Hne Hload.
      eexists _, _. split.
      * apply (Hbuild w' (set_index st [] None None) df embed); auto.
      * cbn [set_index _RADICAL_DOCS _FAISS_INDEX _EMBEDDER idx_rows]. auto.
Qed.

End IndexFacts.

Lemma retrieve_empty_context_witness :
  _retrieve_relevant_radicals (toy_world None Raise) toy_unbuilt (u "Net Shell") 3 = Ok [].
Proof.
  apply (retrieve_empty_context (toy_world None Raise) initial_state toy_unbuilt).
  right; right; right; right. repeat split; reflexivity.
Defined.

(** C9 at the toy store of two rows, from the initial globals. *)
Lemma ensure_radical_index_consistent_witness : index_consistent toy_built.
Proof.
  apply (proj1 (ensure_radical_index_consistent
                  (toy_world (Some (Ok toy_rows)) Raise) initial_state I) toy_built).
  vm_compute. reflexivity.
Defined.

(** C9, as stated, fails in its last part: the globals left without a
    store are no steady state of the process.  The next call in which the
    store is present builds the index, and retrieval finds documents. *)
Lemma unbuilt_index_is_built_later :
  _ensure_radical_index (toy_world None Raise) initial_state = Ok toy_unbuilt
  /\ _retrieve_relevant_radicals (toy_world None Raise) toy_unbuilt (u "Net Shell") 3 = Ok []
  /\ _ensure_radical_index (toy_world (Some (Ok toy_rows)) Raise) toy_unbuilt = Ok toy_built
  /\ _retrieve_relevant_radicals (toy_world (Some (Ok toy_rows)) Raise) toy_built
       (u "Net Shell") 3
     = Ok toy_docs.
Proof. repeat split; vm_compute; reflexivity. Qed.

(** ** [generate_mnemonic]: loading, the missing record and the fallback *)

Section GenerateFacts.
Context {U : PyUnicode} {vec : Type}.
Implicit Types (w : @World vec) (st : @State vec).

Lemma ensure_kanji_data_loaded w st st1 :
  _ensure_kanji_data w st = Ok st1 ->
  exists data, _KANJI_DATA st1 = Some data.
Proof.
  unfold _ensure_kanji_data. destruct (_KANJI_DATA st) as [data |] eqn:Hd.
  - intros [= <-]. eauto.
  - destruct (kanji_json w) as [data |]; cbn; [intros [= <-]; cbn; eauto | discriminate].
Qed.

Lemma ensure_radical_index_frame w st st1 :
  _ensure_radical_index w st = Ok st1 ->
  _KANJI_DATA st1 = _KANJI_DATA st /\ _PIPE st1 = _PIPE st.
Proof.
  unfold _ensure_radical_index.
  destruct (_RADICAL_DOCS st), (_EMBEDDER st), (_FAISS_INDEX st);
    try (intros [= <-]; auto);
    (destruct (radicals_csv w) as [[df |] |]; cbn; try discriminate;
     [ destruct (sentence_transformer w) as [embed |]; cbn; try discriminate;
       destruct (shape1 w (List.map embed (List.map radical_doc df))); cbn;
       try discriminate |]; intros [= <-]; auto).
Qed.

Lemma ensure_pipe_loaded w st st1 :
  _ensure_pipe w st = Ok st1 ->
  (exists pipe, _PIPE st1 = Some pipe) /\ _KANJI_DATA st1 = _KANJI_DATA st.
Proof.
  unfold _ensure_pipe. destruct (_PIPE st) as [pipe |] eqn:Hp.
  - intros [= <-]. eauto.
  - destruct (text_generation w) as [pipe |]; cbn; [intros [= <-]; cbn; eauto | discriminate].
Qed.

(** Once the three loaders have returned, the call is the body of lines
    106-182 on the loaded globals. *)
Lemma generate_mnemonic_loaded w st st1 st2 st3 (kanji : str) :
  _ensure_kanji_data w st = Ok st1 ->
  _ensure_radical_index w st1 = Ok st2 ->
  _ensure_pipe w st2 = Ok st3 ->
  exists data pipe,
    _KANJI_DATA st3 = Some data /\ _PIPE st3 = Some pipe
    /\ generate_mnemonic w st kanji =
       match data !! strip kanji with
       | Some details =>
         if record_truthy details then
           found ← _retrieve_relevant_radicals w st3
                     (join (u " ") (get_list (rec_wk_radicals details))) 3;
           Ok (st3, generate_line pipe (strip kanji) (lhs_of details) (meanings_of details)
                      (build_prompt (strip kanji) (lhs_of details) (meanings_of details)
                         (join [NEWLINE; NEWLINE] found)))
         else Ok (st3, not_found (strip kanji))
       | None => Ok (st3, not_found (strip kanji))
       end.
Proof.
  intros H1 H2 H3.
  destruct (ensure_kanji_data_loaded _ _ _ H1) as [data Hdata].
  destruct (ensure_radical_index_frame _ _ _ H2) as [Hk2 _].
  destruct (ensure_pipe_loaded _ _ _ H3) as [[pipe Hpipe] Hk3].
  exists data, pipe. split; [congruence | split; [assumption |]].
  unfold generate_mnemonic. rewrite H1. cbn [mbind result_bind].
  rewrite H2. cbn [mbind result_bind]. rewrite H3. cbn [mbind result_bind].
  rewrite Hpipe. replace (_KANJI_DATA st3) with (Some data) by congruence.
  reflexivity.
Qed.

(** C2, amended.  When the loaders return and the store holds no record
    (or an empty one) under the stripped kanji, the call returns the text
    "Kanji <k> not found." without raising and without asking the pipeline. *)
Theorem generate_mnemonic_not_found w st st1 st2 st3 data (kanji : str) :
  _ensure_kanji_data w st = Ok st1 ->
  _ensure_radical_index w st1 = Ok st2 ->
  _ensure_pipe w st2 = Ok st3 ->
  _KANJI_DATA st3 = Some data ->
  (data !! strip kanji = None
   \/ exists details, data !! strip kanji = Some details /\ record_truthy details = false) ->
  generate_mnemonic w st kanji = Ok (st3, u "Kanji " ++ strip kanji ++ u " not found.").
Proof.
  intros H1 H2 H3 Hdata Hrec.
  destruct (generate_mnemonic_loaded w st st1 st2 st3 kanji H1 H2 H3)
    as (data' & pipe & Hdata' & _ & ->).
  assert (data' = data) as -> by congruence.
  destruct Hrec as [-> | (details & -> & ->)]; reflexivity.
Qed.

Lemma lowered_or_default (meanings : str) :
  (if nonempty (str_lower meanings) then str_lower meanings else u "meaning")
  = str_lower (if nonempty meanings then meanings else u "meaning").
Proof.
  destruct meanings as [| c m]; cbn [nonempty].
  - rewrite (str_lower_ascii []) by reflexivity. cbn [List.map nonempty].
    rewrite str_lower_ascii by reflexivity. reflexivity.
  - destruct (str_lower (c :: m)) eqn:Hl; [| reflexivity].
    exfalso. eapply str_lower_nonempty; [| exact Hl]. discriminate.
Qed.

(** C8.  When the pipeline call raises, the call of [generate_mnemonic]
    returns the fallback line
    "<kanji> = <lhs or meanings or '—'> → Represents <meanings or 'meaning',
    lowercased> through its parts."; the line is built by a total function
    of the three strings alone. *)
Theorem generate_mnemonic_fallback w st st1 st2 st3 data details found
    (pipe : str -> result str) (kanji : str) :
  let k := strip kanji in
  let lhs := lhs_of details in
  let meanings := meanings_of details in
  _ensure_kanji_data w st = Ok st1 ->
  _ensure_radical_index w st1 = Ok st2 ->
  _ensure_pipe w st2 = Ok st3 ->
  _KANJI_DATA st3 = Some data -> _PIPE st3 = Some pipe ->
  data !! k = Some details -> record_truthy details = true ->
  _retrieve_relevant_radicals w st3 (join (u " ") (get_list (rec_wk_radicals details))) 3
    = Ok found ->
  pipe (build_prompt k lhs meanings (join [NEWLINE; NEWLINE] found)) = Raise ->
  generate_mnemonic w st kanji
  = Ok (st3, k ++ u " = "
               ++ (if nonempty lhs then lhs else if nonempty meanings then meanings else u "—")
               ++ u " → Represents "
               ++ str_lower (if nonempty meanings then meanings else u "meaning")
               ++ u " through its parts.")
  /\ fallback_line k lhs meanings
     = k ++ u " = "
         ++ (if nonempty lhs then lhs else if nonempty meanings then meanings else u "—")
         ++ u " → Represents "
         ++ str_lower (if nonempty meanings then meanings else u "meaning")
         ++ u " through its parts.".
Proof.
  intros k lhs meanings H1 H2 H3 Hdata Hpipe Hrec Htruthy Hfound Hraise.
  assert (Hfb : fallback_line k lhs meanings
     = k ++ u " = "
         ++ (if nonempty lhs then lhs else if nonempty meanings then meanings else u "—")
         ++ u " → Represents "
         ++ str_lower (if nonempty meanings then meanings else u "meaning")
         ++ u " through its parts.").
  { unfold fallback_line. rewrite lowered_or_default. reflexivity. }
  split; [| exact Hfb].
  destruct (generate_mnemonic_loaded w st st1 st2 st3 kanji H1 H2 H3)
    as (data' & pipe' & Hdata' & Hpipe' & ->).
  assert (data' = data) as -> by congruence.
  assert (pipe' = pipe) as -> by congruence.
  fold k. rewrite Hrec, Htruthy, Hfound. cbn [mbind result_bind].
  unfold generate_line. fold k lhs meanings. rewrite Hraise, Hfb. reflexivity.
Qed.

End GenerateFacts.

(** C2, as stated, fails: for a kanji the store does not hold, the call
    returns a text without arrow, which is no mnemonic line. *)
Lemma missing_record_is_no_mnemonic_line :
  generate_mnemonic (toy_world (Some (Ok toy_rows)) (Ok (u "猫 = Cat → A cat.")))
    initial_state (u "猫")
  = Ok (toy_st3 (Ok (u "猫 = Cat → A cat.")), u "Kanji 猫 not found.")
  /\ contains ARROW (u "Kanji 猫 not found.") = false.
Proof. split; vm_compute; reflexivity. Qed.

Lemma generate_mnemonic_not_found_witness :
  generate_mnemonic (toy_world (Some (Ok toy_rows)) Raise) initial_state (u " 猫 ")
  = Ok (toy_st3 Raise, u "Kanji " ++ strip (u " 猫 ") ++ u " not found.").
Proof.
  apply (generate_mnemonic_not_found (toy_world (Some (Ok toy_rows)) Raise) initial_state
           toy_st1 toy_st2 (toy_st3 Raise) toy_store);
    try (vm_compute; reflexivity).
  left. vm_compute. reflexivity.
Defined.

Lemma generate_mnemonic_fallback_witness :
  generate_mnemonic (toy_world (Some (Ok toy_rows)) Raise) initial_state (u "買")
  = Ok (toy_st3 Raise, u "買 = Net + Shell → Represents buy, purchase through its parts.").
Proof.
  pose proof (generate_mnemonic_fallback (toy_world (Some (Ok toy_rows)) Raise)
    initial_state toy_st1 toy_st2 (toy_st3 Raise) toy_store kai_record toy_docs
    (fun _ => Raise) (u "買")) as H.
  cbv zeta in H.
  destruct H as [H _]; [vm_compute; reflexivity .. |].
  rewrite H. vm_compute. reflexivity.
Defined.

(** ** Facts about the string primitives *)

Lemma take_drop_while (p : char -> bool) (s : str) :
  take_while p s ++ drop_while p s = s.
Proof.
  induction s as [| c r IH]; cbn; [reflexivity |].
  destruct (p c); cbn; [rewrite IH |]; reflexivity.
Qed.

Lemma drop_while_head (p : char -> bool) (s : str) (c : char) (r : str) :
  drop_while p s = c :: r -> p c = false.
Proof.
  induction s as [| d s IH]; cbn; [discriminate |].
  destruct (p d) eqn:Hd; [exact IH |].
  intros [= <- <-]. exact Hd.
Qed.

Lemma drop_while_fix (p : char -> bool) (s : str) :
  match s with c :: _ => p c = false | [] => True end -> drop_while p s = s.
Proof. destruct s as [| c r]; cbn; [reflexivity | intros ->; reflexivity]. Qed.

Lemma drop_while_idem (p : char -> bool) (s : str) :
  drop_while p (drop_while p s) = drop_while p s.
Proof.
  apply drop_while_fix. destruct (drop_while p s) as [| c r] eqn:H; [exact I |].
  eapply drop_while_head; eassumption.
Qed.

Lemma drop_while_all (p : char -> bool) (s : str) :
  forallb p s = true -> drop_while p s = [].
Proof.
  induction s as [| c r IH]; cbn; [reflexivity |].
  intros H. apply andb_true_iff in H as [-> H]. auto.
Qed.

Lemma take_while_all (p : char -> bool) (s : str) : forallb p (take_while p s) = true.
Proof.
  induction s as [| c r IH]; cbn; [reflexivity |].
  destruct (p c) eqn:Hc; cbn; [rewrite Hc, IH |]; reflexivity.
Qed.

Lemma take_while_fix (p : char -> bool) (s : str) :
  forallb p s = true -> take_while p s = s.
Proof.
  induction s as [| c r IH]; cbn; [reflexivity |].
  intros H. apply andb_true_iff in H as [-> H]. rewrite IH; auto.
Qed.

Lemma left_of_refl (s : str) : left_of s s.
Proof. exists []. reflexivity. Qed.

Lemma left_of_trans (s t r : str) : left_of s t -> left_of t r -> left_of s r.
Proof. intros [a ->] [b ->]. exists (a ++ b). rewrite app_assoc. reflexivity. Qed.

Lemma left_of_drop_while (p : char -> bool) (s : str) : left_of s (drop_while p s).
Proof. exists (take_while p s). symmetry. apply take_drop_while. Qed.

Lemma left_of_length (s r : str) : left_of s r -> length r <= length s.
Proof. intros [d ->]. rewrite length_app. lia. Qed.

Lemma last_char_snoc (s : str) (c : char) : last_char (s ++ [c]) = Some c.
Proof. unfold last_char. rewrite map_app. apply last_last. Qed.

(** [rstrip_by] on a string given by its last character. *)
Lemma rstrip_by_snoc (p : char -> bool) (s : str) (c : char) :
  rstrip_by p (s ++ [c]) = if p c then rstrip_by p s else s ++ [c].
Proof.
  unfold rstrip_by. rewrite rev_app_distr. cbn.
  destruct (p c); [reflexivity |]. cbn. rewrite rev_involutive. reflexivity.
Qed.

Lemma rstrip_by_nil (p : char -> bool) : rstrip_by p [] = [].
Proof. reflexivity. Qed.

(** What [rstrip_by] cuts off is a run of characters of the set. *)
Lemma rstrip_by_split (p : char -> bool) (s : str) :
  exists t, s = rstrip_by p s ++ t /\ forallb p t = true.
Proof.
  induction s as [| c s IH] using rev_ind.
  - exists []. split; reflexivity.
  - rewrite rstrip_by_snoc. destruct (p c) eqn:Hc.
    + destruct IH as (t & Hs & Ht). exists (t ++ [c]). split.
      * rewrite app_assoc, <- Hs. reflexivity.
      * rewrite forallb_app, Ht. cbn. rewrite Hc. reflexivity.
    + exists []. split; [rewrite app_nil_r |]; reflexivity.
Qed.

Lemma rstrip_by_last (p : char -> bool) (s : str) (c : char) :
  last_char (rstrip_by p s) = Some c -> p c = false.
Proof.
  unfold rstrip_by. intros H.
  destruct (drop_while p (rev s)) as [| d r] eqn:Hd; [discriminate |].
  change (rev (d :: r)) with (rev r ++ [d]) in H.
  rewrite last_char_snoc in H. injection H as <-.
  eapply drop_while_head; eassumption.
Qed.

Lemma last_char_nil : last_char [] = None.
Proof. reflexivity. Qed.

Lemma rstrip_by_fix (p : char -> bool) (s : str) :
  match last_char s with Some c => p c = false | None => True end ->
  rstrip_by p s = s.
Proof.
  destruct s as [| c s _] using rev_ind; [reflexivity |].
  rewrite last_char_snoc, rstrip_by_snoc. intros ->. reflexivity.
Qed.

Lemma rstrip_by_idem (p : char -> bool) (s : str) :
  rstrip_by p (rstrip_by p s) = rstrip_by p s.
Proof.
  apply rstrip_by_fix. destruct (last_char (rstrip_by p s)) as [c |] eqn:H; [| exact I].
  eapply rstrip_by_last; eassumption.
Qed.

Lemma rstrip_by_length (p : char -> bool) (s : str) :
  length (rstrip_by p s) <= length s.
Proof.
  destruct (rstrip_by_split p s) as (t & Hs & _).
  rewrite Hs at 2. rewrite length_app. lia.
Qed.

(** ** [_one_sentence]: the truncation *)

(** C4, as stated, fails: a right-hand side of more than 120 characters
    whose first sentence is short comes back without ellipsis marker. *)
Lemma long_text_short_sentence_no_ellipsis :
  120 < length (u "Buy it. " ++ repeat 0x61%N 200)
  /\ _one_sentence (u "Buy it. " ++ repeat 0x61%N 200) 120 = u "Buy it."
  /\ last_char (u "Buy it.") <> Some ELLIPSIS.
Proof.
  split; [| split].
  - apply Nat.ltb_lt. vm_compute. reflexivity.
  - vm_compute. reflexivity.
  - vm_compute. discriminate.
Qed.

(** A sentence of 121 letters: 120 of them are kept before the marker. *)
Example one_sentence_121_letters :
  _one_sentence (repeat 0x61%N 121) 120 = repeat 0x61%N 120 ++ [ELLIPSIS].
Proof. vm_compute. reflexivity. Qed.

(** C4, amended.  When the reduced first sentence (tags and the text
    from the first arrow on removed, whitespace collapsed and trimmed) is
    longer than [max_chars], the result ends with the ellipsis marker, and
    what stands before the marker is a prefix of that sentence of at most
    [max_chars] characters that ends in none of " ,;:". *)
Theorem one_sentence_truncates (text : str) (max_chars : nat) :
  max_chars < length (reduce_sentence text) ->
  exists kept cut,
    _one_sentence text max_chars = kept ++ [ELLIPSIS]
    /\ last_char (_one_sentence text max_chars) = Some ELLIPSIS
    /\ reduce_sentence text = kept ++ cut
    /\ length kept <= max_chars
    /\ rstrip_by is_trim_punct kept = kept.
Proof.
  intros Hlong. unfold _one_sentence.
  destruct (Nat.ltb_spec max_chars (length (reduce_sentence text))) as [_ | Hle]; [| lia].
  set (one := reduce_sentence text) in *.
  destruct (rstrip_by_split is_trim_punct (firstn max_chars one)) as (t & Hsplit & _).
  exists (rstrip_by is_trim_punct (firstn max_chars one)), (t ++ skipn max_chars one).
  repeat split.
  - apply last_char_snoc.
  - rewrite app_assoc, <- Hsplit. symmetry. apply firstn_skipn.
  - etransitivity; [apply rstrip_by_length |]. apply firstn_le_length.
  - apply rstrip_by_idem.
Qed.

Lemma one_sentence_truncates_witness :
  exists kept cut,
    _one_sentence (u "Catch, " ++ repeat 0x61%N 112 ++ u ", and more") 120 = kept ++ [ELLIPSIS]
    /\ last_char (_one_sentence (u "Catch, " ++ repeat 0x61%N 112 ++ u ", and more") 120)
       = Some ELLIPSIS
    /\ reduce_sentence (u "Catch, " ++ repeat 0x61%N 112 ++ u ", and more") = kept ++ cut
    /\ length kept <= 120
    /\ rstrip_by is_trim_punct kept = kept.
Proof.
  apply (one_sentence_truncates (u "Catch, " ++ repeat 0x61%N 112 ++ u ", and more") 120).
  apply Nat.ltb_lt. vm_compute. reflexivity.
Defined.

(** ** Facts about the stages of [reduce_sentence] *)

Lemma contains_cons (c d : char) (s : str) :
  contains c (d :: s) = (c =? d)%N || contains c s.
Proof. reflexivity. Qed.

Lemma contains_app (c : char) (a b : str) :
  contains c (a ++ b) = contains c a || contains c b.
Proof. apply existsb_app. Qed.

Lemma is_space_not_sentence_end (c : char) : is_space c = true -> is_sentence_end c = false.
Proof.
  intros Hs. destruct (is_sentence_end c) eqn:He; [| reflexivity].
  unfold is_sentence_end in He.
  apply orb_true_iff in He as [He | He]; [apply orb_true_iff in He as [He | He] |];
    apply N.eqb_eq in He; subst c; discriminate Hs.
Qed.

Lemma contains_collapse (c : char) (b : bool) (s : str) :
  is_space c = false -> contains c (collapse_from b s) = contains c s.
Proof.
  intros Hc. revert b. induction s as [| d r IH]; intros b; [reflexivity |].
  cbn [collapse_from]. destruct (is_space d) eqn:Hd.
  - assert (Hcd : (c =? d)%N = false).
    { apply N.eqb_neq. intros ->. congruence. }
    rewrite (contains_cons c d), Hcd. cbn [orb].
    destruct b; rewrite ?contains_cons, IH; [reflexivity |].
    replace (c =? SPACE)%N with false; [reflexivity |].
    symmetry. apply N.eqb_neq. intros ->. discriminate Hc.
  - rewrite !contains_cons, IH. reflexivity.
Qed.

(** *** Tags *)

Lemma tag_free_app (a b : str) :
  tag_free (a ++ b) = true -> tag_free a = true /\ tag_free b = true.
Proof.
  induction a as [| c a IH]; cbn; [auto |].
  intros H. apply andb_true_iff in H as [Hc H]. destruct (IH H) as [Ha Hb].
  split; [| exact Hb]. rewrite Ha, andb_true_r.
  rewrite contains_app in Hc. destruct (c =? LT)%N; [| reflexivity].
  cbn in *. destruct (contains GT a); [discriminate | reflexivity].
Qed.

Lemma tag_free_snoc (s : str) (c : char) :
  (c =? GT)%N = false -> tag_free s = true -> tag_free (s ++ [c]) = true.
Proof.
  intros Hc. induction s as [| d s IH]; cbn.
  - intros _. rewrite !andb_false_r. reflexivity.
  - intros H. apply andb_true_iff in H as [Hd H]. rewrite (IH H), andb_true_r.
    rewrite contains_app, (contains_cons GT c []), (N.eqb_sym GT c), Hc.
    change (contains GT []) with false. rewrite !orb_false_r. exact Hd.
Qed.

Lemma remove_tags_forallb (q : char -> bool) (b : bool) (s : str) :
  forallb q s = true -> forallb q (remove_tags_from b s) = true.
Proof.
  revert b. induction s as [| c r IH]; intros b; cbn; [reflexivity |].
  intros H. apply andb_true_iff in H as [Hc H].
  destruct b; [apply IH, H |].
  destruct ((c =? LT)%N && contains GT r); [apply IH, H |].
  cbn. rewrite Hc. apply IH, H.
Qed.

Lemma contains_forallb (c : char) (s : str) :
  contains c s = negb (forallb (fun x => negb (c =? x)%N) s).
Proof.
  induction s as [| d s IH]; [reflexivity |].
  rewrite contains_cons. cbn [forallb]. rewrite IH. destruct (c =? d)%N; reflexivity.
Qed.

Lemma remove_tags_contains (c : char) (b : bool) (s : str) :
  contains c s = false -> contains c (remove_tags_from b s) = false.
Proof.
  rewrite !contains_forallb. intros H. apply negb_false_iff in H.
  apply negb_false_iff. apply remove_tags_forallb, H.
Qed.

Lemma remove_tags_tag_free (b : bool) (s : str) : tag_free (remove_tags_from b s) = true.
Proof.
  revert b. induction s as [| c r IH]; intros b; cbn; [reflexivity |].
  destruct b; [apply IH |].
  destruct ((c =? LT)%N && contains GT r) eqn:Htag; [apply IH |].
  cbn. rewrite IH, andb_true_r.
  destruct (c =? LT)%N; [| reflexivity]. cbn in *.
  rewrite (remove_tags_contains GT false r Htag). reflexivity.
Qed.

Lemma remove_tags_fix (s : str) : tag_free s = true -> remove_tags s = s.
Proof.
  unfold remove_tags. induction s as [| c r IH]; cbn; [reflexivity |].
  intros H. apply andb_true_iff in H as [Hc H]. apply negb_true_iff in Hc.
  rewrite Hc, (IH H). reflexivity.
Qed.

Lemma tag_free_collapse (b : bool) (s : str) :
  tag_free s = true -> tag_free (collapse_from b s) = true.
Proof.
  revert b. induction s as [| c r IH]; intros b; cbn; [reflexivity |].
  intros H. apply andb_true_iff in H as [Hc H].
  destruct (is_space c) eqn:Hs.
  - destruct b; [apply IH, H |]. cbn. apply IH, H.
  - cbn. rewrite (IH _ H), andb_true_r, contains_collapse by reflexivity. exact Hc.
Qed.

(** *** The arrow *)

Lemma before_first_no_sep (sep : char) (s : str) : contains sep (before_first sep s) = false.
Proof.
  unfold before_first. induction s as [| c r IH]; cbn; [reflexivity |].
  destruct (sep =? c)%N eqn:H; cbn; [reflexivity |].
  rewrite contains_cons, H. exact IH.
Qed.

Lemma before_first_fix (sep : char) (s : str) :
  contains sep s = false -> before_first sep s = s.
Proof.
  unfold before_first. induction s as [| c r IH]; cbn; [reflexivity |].
  rewrite contains_cons. intros H. apply orb_false_iff in H as [Hc H].
  rewrite Hc. cbn. rewrite (IH H). reflexivity.
Qed.

Lemma before_after_first (sep : char) (s : str) :
  contains sep s = true -> s = before_first sep s ++ sep :: after_first sep s.
Proof.
  unfold before_first, after_first. induction s as [| c r IH]; [discriminate |].
  rewrite contains_cons. cbn. destruct (sep =? c)%N eqn:H; cbn.
  - intros _. apply N.eqb_eq in H. subst c. reflexivity.
  - intros Hr. rewrite <- (IH Hr). reflexivity.
Qed.

(** *** Sentences *)

Lemma sent_ok_weaken (b : bool) (s : str) : sent_ok b s = true -> sent_ok false s = true.
Proof.
  destruct s as [| c r]; cbn; [reflexivity |].
  intros H. apply andb_true_iff in H as [_ H]. exact H.
Qed.

Lemma sent_ok_app (b : bool) (x y : str) :
  sent_ok b (x ++ y) = true -> sent_ok b x = true /\ sent_ok false y = true.
Proof.
  revert b. induction x as [| c x IH]; intros b; cbn.
  - intros H. split; [reflexivity | eapply sent_ok_weaken, H].
  - intros H. apply andb_true_iff in H as [Hc H]. destruct (IH _ H) as [Hx Hy].
    rewrite Hc, Hx. auto.
Qed.

Lemma sent_ok_snoc (b : bool) (s : str) (c : char) :
  is_space c = false -> sent_ok b s = true -> sent_ok b (s ++ [c]) = true.
Proof.
  intros Hc. revert b. induction s as [| d s IH]; intros b; cbn.
  - intros _. rewrite Hc, andb_false_r. reflexivity.
  - intros H. apply andb_true_iff in H as [Hd H]. rewrite Hd, (IH _ H). reflexivity.
Qed.

Lemma first_sentence_sent_ok (b : bool) (s : str) :
  sent_ok b (first_sentence_from b s) = true.
Proof.
  revert b. induction s as [| c r IH]; intros b; cbn; [reflexivity |].
  destruct (b && is_space c) eqn:H; cbn; [reflexivity |]. rewrite H, IH. reflexivity.
Qed.

Lemma first_sentence_fix (b : bool) (s : str) :
  sent_ok b s = true -> first_sentence_from b s = s.
Proof.
  revert b. induction s as [| c r IH]; intros b; cbn; [reflexivity |].
  intros H. apply andb_true_iff in H as [Hc H]. apply negb_true_iff in Hc.
  rewrite Hc, (IH _ H). reflexivity.
Qed.

Lemma first_sentence_prefix (b : bool) (s : str) :
  exists rest, s = first_sentence_from b s ++ rest.
Proof.
  revert b. induction s as [| c r IH]; intros b; cbn; [exists []; reflexivity |].
  destruct (b && is_space c); [exists (c :: r); reflexivity |].
  destruct (IH (is_sentence_end c)) as [rest Hrest].
  exists rest. cbn. rewrite <- Hrest. reflexivity.
Qed.

Lemma sent_ok_collapse (b w : bool) (s : str) :
  sent_ok b s = true -> sent_ok b (collapse_from w s) = true.
Proof.
  revert b w. induction s as [| c r IH]; intros b w; cbn; [reflexivity |].
  intros H. apply andb_true_iff in H as [Hc H].
  destruct (is_space c) eqn:Hs.
  - rewrite (is_space_not_sentence_end c Hs) in H.
    rewrite andb_true_r in Hc. apply negb_true_iff in Hc. subst b.
    destruct w; [apply IH, H |]. cbn. apply IH, H.
  - cbn. rewrite Hs, andb_false_r. cbn. apply IH, H.
Qed.

(** *** Whitespace runs *)

Lemma coll_ok_weaken (s : str) : coll_ok true s = true -> coll_ok false s = true.
Proof.
  destruct s as [| c r]; cbn; [reflexivity |].
  destruct (is_space c); [discriminate | auto].
Qed.

Lemma coll_ok_app (w : bool) (x y : str) :
  coll_ok w (x ++ y) = true -> coll_ok w x = true /\ coll_ok false y = true.
Proof.
  revert w. induction x as [| c x IH]; intros w; cbn.
  - intros H. split; [reflexivity |]. destruct w; [apply coll_ok_weaken, H | exact H].
  - destruct (is_space c).
    + intros H. apply andb_true_iff in H as [Hc H]. destruct (IH _ H) as [Hx Hy].
      rewrite Hc, Hx. auto.
    + apply IH.
Qed.

Lemma coll_ok_snoc (w : bool) (s : str) (c : char) :
  is_space c = false -> coll_ok w s = true -> coll_ok w (s ++ [c]) = true.
Proof.
  intros Hc. revert w. induction s as [| d s IH]; intros w; cbn.
  - intros _. rewrite Hc. reflexivity.
  - destruct (is_space d).
    + intros H. apply andb_true_iff in H as [Hd H]. rewrite Hd, (IH _ H). reflexivity.
    + apply IH.
Qed.

Lemma collapse_coll_ok (w : bool) (s : str) : coll_ok w (collapse_from w s) = true.
Proof.
  revert w. induction s as [| c r IH]; intros w; cbn; [reflexivity |].
  destruct (is_space c) eqn:Hs.
  - destruct w; [apply IH |]. cbn. apply IH.
  - cbn. rewrite Hs. apply IH.
Qed.

Lemma collapse_fix (w : bool) (s : str) : coll_ok w s = true -> collapse_from w s = s.
Proof.
  revert w. induction s as [| c r IH]; intros w; cbn; [reflexivity |].
  destruct (is_space c).
  - intros H. apply andb_true_iff in H as [Hc H]. apply andb_true_iff in Hc as [Hw Hc].
    apply negb_true_iff in Hw. apply N.eqb_eq in Hc. subst w c.
    rewrite (IH _ H). reflexivity.
  - intros H. rewrite (IH _ H). reflexivity.
Qed.

(** *** The ends *)

Lemma strip_split (s : str) : exists a b, s = a ++ strip s ++ b.
Proof.
  unfold strip, lstrip_by.
  destruct (rstrip_by_split is_space (drop_while is_space s)) as (b & Hb & _).
  exists (take_while is_space s), b.
  rewrite <- Hb. symmetry. apply take_drop_while.
Qed.

Lemma trimmed_strip (s : str) : trimmed (strip s) = true.
Proof.
  unfold strip, lstrip_by. set (x := drop_while is_space s).
  destruct (rstrip_by_split is_space x) as (b & Hb & _).
  unfold trimmed.
  destruct (rstrip_by is_space x) as [| c t] eqn:Hr; [reflexivity |].
  destruct (last_char (c :: t)) as [d |] eqn:Hd; [| reflexivity].
  rewrite <- Hr in Hd. apply rstrip_by_last in Hd. rewrite Hd.
  assert (Hc : is_space c = false).
  { apply (drop_while_head is_space s c (t ++ b)). fold x. rewrite Hb. reflexivity. }
  rewrite Hc. reflexivity.
Qed.

Lemma last_char_cons (c : char) (s : str) : exists d, last_char (c :: s) = Some d.
Proof.
  destruct (exists_last (l := c :: s)) as (s' & d & ->); [discriminate |].
  exists d. apply last_char_snoc.
Qed.

Lemma strip_fix (s : str) : trimmed s = true -> strip s = s.
Proof.
  unfold trimmed, strip, lstrip_by. destruct s as [| c r]; [reflexivity |].
  destruct (last_char_cons c r) as [d Hd]. rewrite Hd. intros H.
  apply andb_true_iff in H as [Hc Hl]. apply negb_true_iff in Hc, Hl.
  rewrite drop_while_fix by exact Hc.
  apply rstrip_by_fix. rewrite Hd. exact Hl.
Qed.

Lemma strip_space_cons (s : str) : strip (SPACE :: s) = strip s.
Proof. reflexivity. Qed.

(** *** Properties of every character *)

Lemma forallb_left_of (q : char -> bool) (s r : str) :
  left_of s r -> forallb q s = true -> forallb q r = true.
Proof.
  intros [d ->] H. rewrite forallb_app in H. apply andb_true_iff in H as [_ H]. exact H.
Qed.

Lemma forallb_prefix (q : char -> bool) (a b : str) :
  forallb q (a ++ b) = true -> forallb q a = true.
Proof. rewrite forallb_app. intros H. apply andb_true_iff in H as [H _]. exact H. Qed.

Lemma forallb_strip (q : char -> bool) (s : str) :
  forallb q s = true -> forallb q (strip s) = true.
Proof.
  destruct (strip_split s) as (a & b & Hs). intros H. rewrite Hs in H.
  rewrite !forallb_app in H. apply andb_true_iff in H as [_ H].
  apply andb_true_iff in H as [H _]. exact H.
Qed.

Lemma forallb_rstrip_by (q p : char -> bool) (s : str) :
  forallb q s = true -> forallb q (rstrip_by p s) = true.
Proof.
  destruct (rstrip_by_split p s) as (t & Hs & _). intros H. rewrite Hs in H.
  eapply forallb_prefix, H.
Qed.

Lemma forallb_firstn (q : char -> bool) (n : nat) (s : str) :
  forallb q s = true -> forallb q (firstn n s) = true.
Proof. intros H. rewrite <- (firstn_skipn n s) in H. eapply forallb_prefix, H. Qed.

Lemma forallb_before_first (q : char -> bool) (sep : char) (s : str) :
  forallb q s = true -> forallb q (before_first sep s) = true.
Proof.
  unfold before_first. intros H.
  rewrite <- (take_drop_while (fun c => negb (sep =? c)%N) s) in H.
  eapply forallb_prefix, H.
Qed.

Lemma forallb_first_sentence (q : char -> bool) (s : str) :
  forallb q s = true -> forallb q (first_sentence s) = true.
Proof.
  unfold first_sentence. destruct (first_sentence_prefix false s) as [rest Hs].
  intros H. rewrite Hs in H. eapply forallb_prefix, H.
Qed.

Lemma forallb_collapse (q : char -> bool) (w : bool) (s : str) :
  q SPACE = true -> forallb q s = true -> forallb q (collapse_from w s) = true.
Proof.
  intros Hq. revert w. induction s as [| c r IH]; intros w; cbn; [reflexivity |].
  intros H. apply andb_true_iff in H as [Hc H].
  destruct (is_space c); [destruct w |]; cbn; rewrite ?Hq, ?Hc; apply IH, H.
Qed.

Lemma forallb_reduce_sentence (q : char -> bool) (text : str) :
  q SPACE = true -> forallb q text = true -> forallb q (reduce_sentence text) = true.
Proof.
  intros Hq H. unfold reduce_sentence.
  apply forallb_strip, forallb_collapse; [exact Hq |].
  apply forallb_first_sentence, forallb_before_first, remove_tags_forallb, forallb_strip, H.
Qed.

Lemma forallb_one_sentence (q : char -> bool) (text : str) (n : nat) :
  q SPACE = true -> q ELLIPSIS = true ->
  forallb q text = true -> forallb q (_one_sentence text n) = true.
Proof.
  intros Hq He H. unfold _one_sentence.
  pose proof (forallb_reduce_sentence q text Hq H) as Hone.
  destruct (n <? length (reduce_sentence text))%nat; [| exact Hone].
  rewrite forallb_app. cbn. rewrite He, andb_true_r.
  apply forallb_rstrip_by, forallb_firstn, Hone.
Qed.

Lemma strip_cjk_not_cjk (s : str) : forallb not_cjk (_strip_cjk s) = true.
Proof.
  unfold _strip_cjk. induction s as [| c r IH]; cbn; [reflexivity |].
  destruct (is_cjk c) eqn:Hc; cbn; [exact IH |].
  unfold not_cjk at 1. rewrite Hc. exact IH.
Qed.

Lemma strip_cjk_fix (s : str) : forallb not_cjk s = true -> _strip_cjk s = s.
Proof.
  unfold _strip_cjk. induction s as [| c r IH]; cbn; [reflexivity |].
  intros H. apply andb_true_iff in H as [Hc H]. unfold not_cjk in Hc.
  rewrite Hc, (IH H). reflexivity.
Qed.

(** *** Reduced sentences *)

Lemma normal4_parts (s : str) :
  normal4 s = true <->
  tag_free s = true /\ contains ARROW s = false
  /\ sent_ok false s = true /\ coll_ok false s = true.
Proof.
  unfold normal4. rewrite !andb_true_iff, negb_true_iff. tauto.
Qed.

Lemma normal4_app (a b : str) :
  normal4 (a ++ b) = true -> normal4 a = true /\ normal4 b = true.
Proof.
  rewrite !normal4_parts. intros (Ht & Ha & Hs & Hc).
  apply tag_free_app in Ht as [Ht1 Ht2].
  apply sent_ok_app in Hs as [Hs1 Hs2].
  apply coll_ok_app in Hc as [Hc1 Hc2].
  rewrite contains_app in Ha. apply orb_false_iff in Ha as [Ha1 Ha2].
  auto 10.
Qed.

Lemma normal4_snoc (s : str) (c : char) :
  is_space c = false -> (c =? GT)%N = false -> (c =? ARROW)%N = false ->
  normal4 s = true -> normal4 (s ++ [c]) = true.
Proof.
  rewrite !normal4_parts. intros Hsp Hgt Har (Ht & Ha & Hs & Hc).
  repeat split.
  - apply tag_free_snoc; assumption.
  - rewrite contains_app, (contains_cons ARROW c []), (N.eqb_sym ARROW c), Har, Ha.
    reflexivity.
  - apply sent_ok_snoc; assumption.
  - apply coll_ok_snoc; assumption.
Qed.

Lemma normal4_strip (s : str) : normal4 s = true -> normal4 (strip s) = true.
Proof.
  destruct (strip_split s) as (a & b & Hs). intros H. rewrite Hs in H.
  apply normal4_app in H as [_ H]. apply normal4_app in H as [H _]. exact H.
Qed.

Lemma normal4_left_of (s r : str) : left_of s r -> normal4 s = true -> normal4 r = true.
Proof. intros [d ->] H. apply normal4_app in H as [_ H]. exact H. Qed.

Lemma reduce_sentence_reduced (text : str) : reduced (reduce_sentence text) = true.
Proof.
  unfold reduced, reduce_sentence. rewrite trimmed_strip, andb_true_r.
  apply normal4_strip.
  set (x2 := remove_tags (strip text)).
  assert (H2 : tag_free x2 = true) by apply remove_tags_tag_free.
  set (x3 := before_first ARROW x2).
  assert (H3 : tag_free x3 = true).
  { unfold x3, before_first.
    rewrite <- (take_drop_while (fun c => negb (ARROW =? c)%N) x2) in H2.
    apply tag_free_app in H2 as [H2 _]. exact H2. }
  assert (A3 : contains ARROW x3 = false) by apply before_first_no_sep.
  set (x4 := first_sentence x3).
  destruct (first_sentence_prefix false x3) as [rest Hrest]. fold (first_sentence x3) in Hrest.
  fold x4 in Hrest.
  assert (H4 : tag_free x4 = true).
  { rewrite Hrest in H3. apply tag_free_app in H3 as [H3 _]. exact H3. }
  assert (A4 : contains ARROW x4 = false).
  { rewrite Hrest, contains_app in A3. apply orb_false_iff in A3 as [A3 _]. exact A3. }
  assert (S4 : sent_ok false x4 = true) by apply first_sentence_sent_ok.
  apply normal4_parts. unfold collapse_ws. repeat split.
  - apply tag_free_collapse, H4.
  - rewrite contains_collapse by reflexivity. exact A4.
  - apply sent_ok_collapse, S4.
  - apply collapse_coll_ok.
Qed.

Lemma reduce_sentence_fix (s : str) : reduced s = true -> reduce_sentence s = s.
Proof.
  unfold reduced. rewrite andb_true_iff, normal4_parts.
  intros [(Ht & Ha & Hs & Hc) Htr].
  unfold reduce_sentence, first_sentence, collapse_ws.
  rewrite (strip_fix s Htr), (remove_tags_fix s Ht), (before_first_fix _ s Ha).
  rewrite (first_sentence_fix _ s Hs), (collapse_fix _ s Hc). apply strip_fix, Htr.
Qed.

Lemma trimmed_head (c : char) (s : str) : trimmed (c :: s) = true -> is_space c = false.
Proof.
  unfold trimmed. destruct (last_char_cons c s) as [d ->].
  intros H. apply andb_true_iff in H as [H _]. apply negb_true_iff in H. exact H.
Qed.

Lemma trimmed_snoc (s : str) (c : char) :
  is_space c = false ->
  match s with d :: _ => is_space d = false | [] => True end ->
  trimmed (s ++ [c]) = true.
Proof.
  intros Hc Hs. pose proof (last_char_snoc s c) as Hl.
  destruct s as [| d s]; unfold trimmed; cbn [app] in *; rewrite Hl;
    [rewrite Hc | rewrite Hs, Hc]; reflexivity.
Qed.

(** The result of [_one_sentence] is a reduced sentence, cut or not. *)
Lemma one_sentence_reduced (text : str) (n : nat) : reduced (_one_sentence text n) = true.
Proof.
  unfold _one_sentence. pose proof (reduce_sentence_reduced text) as Hone.
  set (one := reduce_sentence text) in *.
  destruct (n <? length one)%nat; [| exact Hone].
  unfold reduced in *. apply andb_true_iff in Hone as [Hn Htr].
  destruct (rstrip_by_split is_trim_punct (firstn n one)) as (t & Ht & _).
  set (kept := rstrip_by is_trim_punct (firstn n one)) in *.
  assert (Hsplit : one = kept ++ (t ++ skipn n one)).
  { rewrite app_assoc, <- Ht. symmetry. apply firstn_skipn. }
  apply andb_true_iff. split.
  - apply normal4_snoc; try reflexivity.
    rewrite Hsplit in Hn. apply normal4_app in Hn as [Hn _]. exact Hn.
  - apply trimmed_snoc; [reflexivity |].
    destruct kept as [| d kept']; [exact I |].
    rewrite Hsplit in Htr. cbn [app] in Htr. eapply trimmed_head, Htr.
Qed.

(** *** The cut *)

Lemma cut_ok_length (n : nat) (r : str) : cut_ok n r -> length r <= n + 1.
Proof.
  intros [H | (t & -> & Ht & _)]; [lia |]. rewrite length_app. cbn. lia.
Qed.

Lemma cut_ok_sub (n : nat) (r a r' b : str) :
  cut_ok n r -> r = a ++ r' ++ b -> cut_ok n r'.
Proof.
  intros Hr Hsplit. pose proof (cut_ok_length n r Hr) as Hlen.
  destruct a as [| c a].
  - destruct b as [| d b].
    + cbn in Hsplit. rewrite app_nil_r in Hsplit. subst r'. exact Hr.
    + left. rewrite Hsplit in Hlen. cbn in Hlen. rewrite length_app in Hlen.
      cbn in Hlen. lia.
  - left. rewrite Hsplit in Hlen. cbn in Hlen. rewrite !length_app in Hlen. lia.
Qed.

Lemma cut_ok_left_of (n : nat) (r r' : str) : cut_ok n r -> left_of r r' -> cut_ok n r'.
Proof.
  intros Hr [d Hd]. apply (cut_ok_sub n r d r' [] Hr). rewrite app_nil_r. exact Hd.
Qed.

Lemma cut_ok_strip (n : nat) (r : str) : cut_ok n r -> cut_ok n (strip r).
Proof.
  intros Hr. destruct (strip_split r) as (a & b & Hs). eapply cut_ok_sub; eassumption.
Qed.

Lemma one_sentence_cut_ok (text : str) (n : nat) : cut_ok n (_one_sentence text n).
Proof.
  unfold _one_sentence. set (one := reduce_sentence text).
  destruct (Nat.ltb_spec n (length one)) as [Hlong | Hshort]; [| left; exact Hshort].
  set (kept := rstrip_by is_trim_punct (firstn n one)).
  assert (Hk : length kept <= n).
  { etransitivity; [apply rstrip_by_length | apply firstn_le_length]. }
  destruct (Nat.eq_dec (length kept) n) as [Heq | Hne].
  - right. exists kept. repeat split; [exact Heq | apply rstrip_by_idem].
  - left. rewrite length_app. cbn. lia.
Qed.

(** [_one_sentence] leaves a reduced sentence that is short or already
    cut as it is. *)
Lemma one_sentence_fix (r : str) (n : nat) :
  reduced r = true -> cut_ok n r -> _one_sentence r n = r.
Proof.
  intros Hred Hcut. unfold _one_sentence. rewrite (reduce_sentence_fix r Hred).
  destruct Hcut as [Hshort | (t & -> & Hlen & Hfix)].
  - destruct (Nat.ltb_spec n (length r)); [lia | reflexivity].
  - rewrite length_app. cbn [length].
    destruct (Nat.ltb_spec n (length t + 1)); [| lia].
    rewrite firstn_app, <- Hlen, firstn_all, Nat.sub_diag. cbn [firstn].
    rewrite app_nil_r, Hfix. reflexivity.
Qed.

Lemma one_sentence_space_cons (r : str) (n : nat) :
  _one_sentence (SPACE :: r) n = _one_sentence r n.
Proof. reflexivity. Qed.

(** *** The first character *)

Lemma strip_head (c : char) (x : str) :
  is_space c = false -> exists y, strip (c :: x) = c :: y.
Proof.
  intros Hc. unfold strip, lstrip_by. cbn [drop_while]. rewrite Hc.
  destruct (rstrip_by_split is_space (c :: x)) as (t & Ht & Hall).
  destruct (rstrip_by is_space (c :: x)) as [| d y].
  - cbn in Ht. subst t. cbn in Hall. rewrite Hc in Hall. discriminate.
  - cbn in Ht. injection Ht as <- _. exists y. reflexivity.
Qed.

Lemma reduce_sentence_head (c : char) (x : str) :
  is_space c = false -> (c =? LT)%N = false -> (ARROW =? c)%N = false ->
  exists y, reduce_sentence (c :: x) = c :: y.
Proof.
  intros Hsp Hlt Har. unfold reduce_sentence.
  destruct (strip_head c x Hsp) as [y1 ->].
  unfold remove_tags. cbn [remove_tags_from]. rewrite Hlt. cbn [andb].
  unfold before_first. cbn [take_while]. rewrite Har. cbn [negb].
  unfold first_sentence. cbn [first_sentence_from andb].
  unfold collapse_ws. cbn [collapse_from]. rewrite Hsp.
  apply strip_head, Hsp.
Qed.

Lemma one_sentence_nonempty (c : char) (x : str) (n : nat) :
  is_space c = false -> (c =? LT)%N = false -> (ARROW =? c)%N = false ->
  _one_sentence (c :: x) n <> [].
Proof.
  intros Hsp Hlt Har. unfold _one_sentence.
  destruct (reduce_sentence_head c x Hsp Hlt Har) as [y ->].
  destruct (n <? length (c :: y))%nat; [| discriminate].
  intros H. apply app_eq_nil in H as [_ H]. discriminate.
Qed.

(** *** Splitting at the first arrow *)

Lemma before_first_app (sep : char) (a b : str) :
  contains sep a = false -> before_first sep (a ++ b) = a ++ before_first sep b.
Proof.
  unfold before_first. induction a as [| c a IH]; [reflexivity |].
  rewrite contains_cons. intros H. apply orb_false_iff in H as [Hc H].
  cbn. rewrite Hc. cbn. rewrite (IH H). reflexivity.
Qed.

Lemma after_first_app (sep : char) (a b : str) :
  contains sep a = false -> after_first sep (a ++ b) = after_first sep b.
Proof.
  unfold after_first. induction a as [| c a IH]; [reflexivity |].
  rewrite contains_cons. intros H. apply orb_false_iff in H as [Hc H].
  cbn. rewrite Hc. cbn. exact (IH H).
Qed.

Lemma contains_strip (c : char) (s : str) :
  contains c s = false -> contains c (strip s) = false.
Proof.
  rewrite !contains_forallb. intros H. apply negb_false_iff in H.
  apply negb_false_iff, forallb_strip, H.
Qed.

Lemma strip_snoc_space (a : str) : trimmed a = true -> strip (a ++ [SPACE]) = a.
Proof.
  intros Ht. destruct a as [| c a]; [reflexivity |].
  pose proof (trimmed_head c a Ht) as Hc.
  unfold strip, lstrip_by. cbn [app drop_while]. rewrite Hc.
  change (c :: a ++ [SPACE]) with ((c :: a) ++ [SPACE]).
  rewrite rstrip_by_snoc. cbn [is_space].
  replace (is_space SPACE) with true by reflexivity.
  apply rstrip_by_fix. unfold trimmed in Ht.
  destruct (last_char (c :: a)) as [d |]; [| exact I].
  apply andb_true_iff in Ht as [_ Hd]. apply negb_true_iff in Hd. exact Hd.
Qed.

(** *** The arrow line found by the search *)

Lemma drop_while_app_keep (p : char -> bool) (y : str) (c : char) (z : str) :
  p c = false -> drop_while p (y ++ c :: z) = drop_while p y ++ c :: z.
Proof.
  intros Hc. induction y as [| d y IH]; cbn; [rewrite Hc; reflexivity |].
  destruct (p d); [exact IH | reflexivity].
Qed.

Lemma rstrip_by_app_keep (p : char -> bool) (a : str) (c : char) (x : str) :
  p c = false -> rstrip_by p (a ++ c :: x) = a ++ c :: rstrip_by p x.
Proof.
  intros Hc. unfold rstrip_by.
  replace (rev (a ++ c :: x)) with (rev x ++ c :: rev a)
    by (rewrite rev_app_distr; cbn [rev]; rewrite <- app_assoc; reflexivity).
  rewrite (drop_while_app_keep p _ c _ Hc).
  rewrite rev_app_distr. cbn [rev]. rewrite rev_involutive, <- app_assoc. reflexivity.
Qed.

Lemma contains_rstrip_by (p : char -> bool) (c : char) (x : str) :
  p c = false -> contains c (rstrip_by p x) = contains c x.
Proof.
  intros Hc. destruct (rstrip_by_split p x) as (t & Hx & Ht).
  rewrite Hx at 2. rewrite contains_app.
  replace (contains c t) with false; [rewrite orb_false_r; reflexivity |].
  symmetry. rewrite contains_forallb. apply negb_false_iff.
  clear Hx. induction t as [| d t IH]; [reflexivity |].
  cbn in Ht |- *. apply andb_true_iff in Ht as [Hd Ht]. rewrite (IH Ht), andb_true_r.
  apply negb_true_iff, N.eqb_neq. intros ->. congruence.
Qed.

Lemma spaces_no_arrow (sp : str) : forallb is_space sp = true -> contains ARROW sp = false.
Proof.
  induction sp as [| c sp IH]; [reflexivity |]. cbn [forallb]. intros H.
  apply andb_true_iff in H as [Hc H]. rewrite contains_cons, (IH H), orb_false_r.
  apply N.eqb_neq. intros <-. discriminate Hc.
Qed.

(** Trimming a text that starts with a trimmed key, blanks and "=": the
    key stays, the blanks stay unless the key is empty, and only the end
    of the rest is trimmed. *)
Lemma strip_keyed (k sp x : str) :
  trimmed k = true -> forallb is_space sp = true ->
  exists sp', (sp' = [] \/ sp' = sp)
    /\ strip (k ++ sp ++ EQUALS :: x) = k ++ sp' ++ EQUALS :: rstrip_by is_space x.
Proof.
  intros Hk Hsp. unfold strip, lstrip_by. destruct k as [| c k].
  - exists []. split; [left; reflexivity |]. cbn [app].
    rewrite (drop_while_app_keep is_space sp EQUALS x) by reflexivity.
    rewrite (drop_while_all _ _ Hsp). cbn [app].
    apply (rstrip_by_app_keep is_space [] EQUALS x). reflexivity.
  - exists sp. split; [right; reflexivity |].
    pose proof (trimmed_head c k Hk) as Hc.
    cbn [app drop_while]. rewrite Hc.
    change (c :: k ++ sp ++ EQUALS :: x) with ((c :: k) ++ sp ++ EQUALS :: x).
    rewrite app_assoc, (rstrip_by_app_keep is_space _ EQUALS x) by reflexivity.
    rewrite <- app_assoc. reflexivity.
Qed.

Lemma literal_prefix_split (pat s r : str) : literal_prefix pat s = Some r -> s = pat ++ r.
Proof.
  revert s. induction pat as [| p pat IH]; intros s H.
  - destruct s; cbn in H; injection H as <-; reflexivity.
  - destruct s as [| c s]; [discriminate |]. cbn [literal_prefix] in H.
    destruct (p =? c)%N eqn:Hpc; [| discriminate].
    apply N.eqb_eq in Hpc. subst c. cbn. f_equal. apply IH, H.
Qed.

Lemma take_while_space_collapsed (s : str) :
  coll_ok false s = true -> take_while is_space s = [] \/ take_while is_space s = [SPACE].
Proof.
  destruct s as [| c r]; [left; reflexivity |]. cbn.
  destruct (is_space c); [| left; reflexivity].
  intros H. apply andb_true_iff in H as [Hc H]. cbn in Hc. apply N.eqb_eq in Hc. subst c.
  right. destruct r as [| d r]; [reflexivity |]. cbn in H |- *.
  destruct (is_space d); [discriminate | reflexivity].
Qed.

(** A match of the search starts with the key, at most one blank when the
    text is whitespace-collapsed, and "=", and holds an arrow after it. *)
Lemma match_line_at_shape (k s m : str) :
  coll_ok false s = true -> match_line_at k s = Some m ->
  exists sp rest, m = k ++ sp ++ EQUALS :: rest
    /\ (sp = [] \/ sp = [SPACE]) /\ contains ARROW rest = true.
Proof.
  intros Hcoll. unfold match_line_at.
  destruct (literal_prefix k s) as [r1 |] eqn:Hk; [| discriminate].
  apply literal_prefix_split in Hk. subst s.
  apply coll_ok_app in Hcoll as [_ Hr1].
  destruct (drop_while is_space r1) as [| c r3]; [discriminate |].
  destruct ((c =? EQUALS)%N && contains ARROW (drop_while is_space r3)
            && forallb not_newline (before_first ARROW (drop_while is_space r3)));
    [| discriminate].
  intros [= <-]. eexists _, _. split; [reflexivity | split].
  - apply take_while_space_collapsed, Hr1.
  - rewrite !contains_app, (contains_cons ARROW ARROW), N.eqb_refl, !orb_true_r.
    reflexivity.
Qed.

Lemma re_search_line_shape (k text m : str) :
  coll_ok false text = true -> re_search_line k text = Some m ->
  exists sp rest, m = k ++ sp ++ EQUALS :: rest
    /\ (sp = [] \/ sp = [SPACE]) /\ contains ARROW rest = true.
Proof.
  induction text as [| c text IH]; intros Hcoll; cbn [re_search_line].
  - destruct (match_line_at k []) eqn:H; [| discriminate].
    intros [= <-]. eapply match_line_at_shape; eassumption.
  - destruct (match_line_at k (c :: text)) eqn:H.
    + intros [= <-]. eapply match_line_at_shape; eassumption.
    + apply IH. change (c :: text) with ([c] ++ text) in Hcoll.
      apply coll_ok_app in Hcoll as [_ Hcoll]. exact Hcoll.
Qed.

Lemma last_char_app (a b : str) : b <> [] -> last_char (a ++ b) = last_char b.
Proof.
  intros Hb. destruct (exists_last Hb) as (b' & c & ->).
  rewrite app_assoc, !last_char_snoc. reflexivity.
Qed.

Lemma spaces_blank (sp : str) : sp = [] \/ sp = [SPACE] -> forallb is_space sp = true.
Proof. intros [-> | ->]; reflexivity. Qed.

(** ** The normaliser *)

Section NormalizerFacts.
Context {U : PyUnicode}.

Lemma lead_once_none_fix (pat s : str) :
  lead_once pat s = None -> strip_leading pat s = s.
Proof.
  intros H. unfold strip_leading. destruct pat as [| p pat]; [reflexivity |].
  destruct s as [| a s]; [reflexivity |].
  cbn [length lead_loop]. rewrite H. reflexivity.
Qed.

(** Two ASCII letters that differ after lowering: the group cannot start. *)
Lemma strip_leading_head_mismatch (pat s : str) (p c : char) :
  head pat = Some p -> head s = Some c ->
  is_ascii p = true -> is_ascii c = true ->
  (ascii_lower p =? ascii_lower c)%N = false ->
  strip_leading pat s = s.
Proof.
  intros Hp Hc Hap Hac Hne. apply lead_once_none_fix.
  destruct pat as [| p' pat]; [discriminate |]. injection Hp as ->.
  destruct s as [| c' s]; [discriminate |]. injection Hc as ->.
  unfold lead_once. cbn [ci_prefix]. rewrite ci_eq_ascii, Hne by assumption.
  reflexivity.
Qed.

(** [sanitize_right] when neither prefix-stripping step finds its group. *)
Lemma sanitize_right_unstripped (lhs meanings right s6 : str) :
  s6 = strip_eq_ws (_one_sentence (_strip_cjk right) 120) ->
  strip_leading (strip lhs) s6 = s6 ->
  strip_leading (strip meanings) s6 = s6 ->
  nonempty (strip s6) = true ->
  sanitize_right lhs meanings right
  = if negb (ends_terminal (strip s6)) then strip s6 ++ u "." else strip s6.
Proof.
  intros Hs6 Hl Hm Hne. unfold sanitize_right, finish_right, strip_repeats. rewrite <- Hs6.
  assert (H7 : (if nonempty lhs then strip_leading (strip lhs) s6 else s6) = s6)
    by (destruct (nonempty lhs); auto).
  rewrite H7.
  assert (H8 : (if nonempty meanings then strip_leading (strip meanings) s6 else s6) = s6)
    by (destruct (nonempty meanings); auto).
  rewrite H8, Hne. cbv zeta. rewrite Hne. cbn [andb]. reflexivity.
Qed.

Lemma ci_prefix_split (pat s r : str) :
  ci_prefix pat s = Some r ->
  s = firstn (length pat) s ++ r /\ length (firstn (length pat) s) = length pat.
Proof.
  revert s. induction pat as [| p pat IH]; intros s H.
  - cbn in H. injection H as ->. split; reflexivity.
  - destruct s as [| c s]; [discriminate |]. cbn [ci_prefix] in H.
    destruct (ci_eq p c); [| discriminate].
    destruct (IH s H) as [Hs Hlen]. cbn [length firstn app]. split; congruence.
Qed.

(** One round of the group drops the pattern at least. *)
Lemma lead_once_drops (pat s r : str) :
  lead_once pat s = Some r ->
  exists dropped, s = dropped ++ r /\ length pat <= length dropped.
Proof.
  unfold lead_once. destruct (ci_prefix pat s) as [r0 |] eqn:Hci; [| discriminate].
  destruct (word_boundary _ _); [| discriminate].
  intros [= <-]. destruct (ci_prefix_split _ _ _ Hci) as [Hs Hlen].
  set (r1 := drop_while is_space r0).
  assert (H1 : left_of r0 r1) by apply left_of_drop_while.
  set (r2 := match r1 with c :: r' => if (c =? COLON)%N then r' else r1 | [] => r1 end).
  assert (H2 : left_of r1 r2).
  { subst r2. destruct r1 as [| c r']; [apply left_of_refl |].
    destruct (c =? COLON)%N; [exists [c]; reflexivity | apply left_of_refl]. }
  assert (H3 : left_of r2 (drop_while is_space r2)) by apply left_of_drop_while.
  destruct (left_of_trans _ _ _ (left_of_trans _ _ _ H1 H2) H3) as [d Hd].
  exists (firstn (length pat) s ++ d). split.
  - rewrite <- app_assoc, <- Hd. exact Hs.
  - rewrite length_app. lia.
Qed.


Lemma lead_loop_left_of (n : nat) (pat s : str) : left_of s (lead_loop n pat s).
Proof.
  revert s. induction n as [| n IH]; intros s; cbn [lead_loop]; [apply left_of_refl |].
  destruct (lead_once pat s) as [r |] eqn:H; [| apply left_of_refl].
  destruct (lead_once_drops _ _ _ H) as (d & -> & _).
  eapply left_of_trans; [| apply IH]. exists d. reflexivity.
Qed.

Lemma strip_leading_left_of (pat s : str) : left_of s (strip_leading pat s).
Proof.
  unfold strip_leading. destruct pat; [apply left_of_refl | apply lead_loop_left_of].
Qed.

(** [length s] rounds exhaust the group: no further round can start. *)
Lemma lead_loop_done (pat : str) (n : nat) (s : str) :
  pat <> [] -> length s <= n -> lead_once pat (lead_loop n pat s) = None.
Proof.
  intros Hpat. revert s. induction n as [| n IH]; intros s Hn; cbn [lead_loop].
  - destruct s; [| cbn in Hn; lia].
    unfold lead_once. destruct pat; [congruence | reflexivity].
  - destruct (lead_once pat s) as [r |] eqn:H; [| exact H].
    apply IH. destruct (lead_once_drops _ _ _ H) as (d & -> & Hd).
    rewrite length_app in Hn.
    destruct pat; [congruence |]. cbn in Hd. lia.
Qed.

Lemma strip_leading_done (pat s : str) :
  pat <> [] -> lead_once pat (strip_leading pat s) = None.
Proof.
  intros Hpat. unfold strip_leading. destruct pat as [| p pat]; [congruence |].
  apply lead_loop_done; [discriminate | lia].
Qed.

Lemma strip_leading_idem (pat s : str) :
  strip_leading pat (strip_leading pat s) = strip_leading pat s.
Proof.
  destruct pat as [| p pat]; [reflexivity |].
  apply lead_once_none_fix, strip_leading_done. discriminate.
Qed.















(** *** The stages of [sanitize_right] *)

Lemma strip_repeats_left_of (lhs meanings right : str) :
  left_of (_one_sentence (_strip_cjk right) 120) (strip_repeats lhs meanings right).
Proof.
  unfold strip_repeats.
  set (s5 := _one_sentence (_strip_cjk right) 120).
  assert (H6 : left_of s5 (strip_eq_ws s5)) by apply left_of_drop_while.
  set (s6 := strip_eq_ws s5) in *.
  set (s7 := if nonempty lhs then strip_leading (strip lhs) s6 else s6).
  assert (H7 : left_of s6 s7).
  { subst s7. destruct (nonempty lhs); [apply strip_leading_left_of | apply left_of_refl]. }
  eapply left_of_trans; [exact H6 |]. eapply left_of_trans; [exact H7 |].
  destruct (nonempty meanings); [apply strip_leading_left_of | apply left_of_refl].
Qed.

Lemma strip_repeats_normal4 (lhs meanings right : str) :
  normal4 (strip_repeats lhs meanings right) = true.
Proof.
  eapply normal4_left_of; [apply strip_repeats_left_of |].
  pose proof (one_sentence_reduced (_strip_cjk right) 120) as H.
  unfold reduced in H. apply andb_true_iff in H as [H _]. exact H.
Qed.

Lemma strip_repeats_not_cjk (lhs meanings right : str) :
  forallb not_cjk (strip_repeats lhs meanings right) = true.
Proof.
  eapply forallb_left_of; [apply strip_repeats_left_of |].
  apply forallb_one_sentence; [reflexivity | reflexivity | apply strip_cjk_not_cjk].
Qed.

Lemma strip_repeats_cut_ok (lhs meanings right : str) :
  cut_ok 120 (strip_repeats lhs meanings right).
Proof.
  eapply cut_ok_left_of; [apply one_sentence_cut_ok | apply strip_repeats_left_of].
Qed.

Lemma regenerated_nonempty (meanings : str) : regenerated meanings <> [].
Proof.
  unfold regenerated.
  change (u "Represents " ++ str_lower meanings ++ u ".")
    with (0x52%N :: (u "epresents " ++ str_lower meanings ++ u ".")).
  apply one_sentence_nonempty; reflexivity.
Qed.

Lemma regenerated_not_cjk (meanings : str) :
  forallb not_cjk (str_lower meanings) = true ->
  forallb not_cjk (regenerated meanings) = true.
Proof.
  intros H. unfold regenerated.
  apply forallb_one_sentence; [reflexivity | reflexivity |].
  rewrite !forallb_app, H. reflexivity.
Qed.

Lemma nonempty_true (s : str) : nonempty s = true <-> s <> [].
Proof. destruct s; cbn; split; congruence. Qed.

(** The right-hand side of lines 172-176: a non-empty text, the trimmed
    input or else the regenerated sentence, with a full stop added when
    it ends in none of ".!?…". *)
Lemma finish_right_cases (meanings x : str) :
  exists body,
    body <> []
    /\ (body = strip x \/ (strip x = [] /\ body = regenerated meanings))
    /\ ((ends_terminal body = true /\ finish_right meanings x = body)
        \/ (ends_terminal body = false /\ finish_right meanings x = body ++ [0x2E%N])).
Proof.
  unfold finish_right.
  set (body := if nonempty (strip x) then strip x else regenerated meanings).
  assert (Hne : body <> []).
  { subst body. destruct (nonempty (strip x)) eqn:H.
    - apply nonempty_true, H.
    - apply regenerated_nonempty. }
  exists body. split; [exact Hne | split].
  - subst body. destruct (strip x); cbn; auto.
  - cbv zeta. apply nonempty_true in Hne. rewrite Hne. cbn [andb].
    destruct (ends_terminal body); cbn [negb]; auto.
Qed.

Lemma finish_right_nonempty (meanings x : str) : finish_right meanings x <> [].
Proof.
  destruct (finish_right_cases meanings x) as (body & Hne & _ & [[_ ->] | [_ ->]]);
    [exact Hne |].
  intros H. apply app_eq_nil in H as [_ H]. discriminate.
Qed.

Lemma finish_right_terminal (meanings x : str) :
  ends_terminal (finish_right meanings x) = true.
Proof.
  destruct (finish_right_cases meanings x) as (body & _ & _ & [[H ->] | [_ ->]]);
    [exact H |].
  unfold ends_terminal. rewrite last_char_snoc. reflexivity.
Qed.

Lemma finish_right_not_cjk (meanings x : str) :
  forallb not_cjk x = true ->
  forallb not_cjk (str_lower meanings) = true ->
  forallb not_cjk (finish_right meanings x) = true.
Proof.
  intros Hx Hm.
  destruct (finish_right_cases meanings x) as (body & _ & Hbody & Hfin).
  assert (Hb : forallb not_cjk body = true).
  { destruct Hbody as [-> | [_ ->]];
      [apply forallb_strip, Hx | apply regenerated_not_cjk, Hm]. }
  destruct Hfin as [[_ ->] | [_ ->]]; [exact Hb |].
  rewrite forallb_app, Hb. reflexivity.
Qed.

Lemma finish_right_reduced (meanings x : str) :
  normal4 x = true -> reduced (finish_right meanings x) = true.
Proof.
  intros Hx.
  destruct (finish_right_cases meanings x) as (body & Hne & Hbody & Hfin).
  assert (Hb : reduced body = true).
  { destruct Hbody as [-> | [_ ->]].
    - unfold reduced. rewrite (normal4_strip x Hx), trimmed_strip. reflexivity.
    - apply one_sentence_reduced. }
  destruct Hfin as [[_ ->] | [_ ->]]; [exact Hb |].
  unfold reduced in *. apply andb_true_iff in Hb as [Hn Ht].
  rewrite normal4_snoc by (reflexivity || exact Hn). cbn [andb].
  apply trimmed_snoc; [reflexivity |].
  destruct body as [| c body]; [exact I | eapply trimmed_head, Ht].
Qed.

Lemma finish_right_cut_ok (meanings x : str) :
  cut_ok 120 x ->
  length (finish_right meanings x) <= 120
    \/ last_char (finish_right meanings x) = Some ELLIPSIS ->
  cut_ok 120 (finish_right meanings x).
Proof.
  intros Hx Hlen.
  destruct (finish_right_cases meanings x) as (body & _ & Hbody & Hfin).
  assert (Hb : cut_ok 120 body).
  { destruct Hbody as [-> | [_ ->]]; [apply cut_ok_strip, Hx | apply one_sentence_cut_ok]. }
  destruct Hfin as [[_ Hf] | [_ Hf]]; rewrite Hf in *; [exact Hb |].
  destruct Hlen as [Hlen | Hlast]; [left; exact Hlen |].
  rewrite last_char_snoc in Hlast. discriminate.
Qed.

(** *** A second pass *)

Lemma sanitize_right_stable (lhs meanings r : str) :
  reduced r = true -> cut_ok 120 r -> r <> [] -> ends_terminal r = true ->
  forallb not_cjk r = true ->
  strip_eq_ws r = r ->
  (if nonempty lhs then strip_leading (strip lhs) r else r) = r ->
  (if nonempty meanings then strip_leading (strip meanings) r else r) = r ->
  sanitize_right lhs meanings (SPACE :: r) = r.
Proof.
  intros Hred Hcut Hne Hterm Hcjk H6 H7 H8.
  unfold sanitize_right, strip_repeats.
  rewrite (strip_cjk_fix (SPACE :: r)) by (cbn [forallb]; rewrite Hcjk; reflexivity).
  rewrite one_sentence_space_cons, (one_sentence_fix r 120 Hred Hcut).
  rewrite H6, H7, H8.
  unfold finish_right. unfold reduced in Hred. apply andb_true_iff in Hred as [_ Htr].
  rewrite (strip_fix r Htr). apply nonempty_true in Hne. rewrite Hne. cbv zeta.
  rewrite Hne, Hterm. reflexivity.
Qed.

(** C5, amended.  Steps 3-11 applied to their own output give the same
    line again, provided that, when the line holds an arrow, its
    normalised right-hand side is [stable_right]: at most 120 characters
    long or ending with the ellipsis marker, free of CJK characters, not
    beginning with "=", and left as it is by the two prefix-stripping
    steps. *)
Theorem sanitize_line_idempotent (lhs meanings line : str) :
  (contains ARROW line = true ->
   stable_right lhs meanings (sanitize_right lhs meanings (after_first ARROW line))) ->
  sanitize_line lhs meanings (sanitize_line lhs meanings line)
  = sanitize_line lhs meanings line.
Proof.
  intros Hstable. unfold sanitize_line at 2.
  destruct (contains ARROW line) eqn:Harrow.
  - destruct (Hstable eq_refl) as (Hlen & Hcjk & H6 & H7 & H8).
    set (r1 := sanitize_right lhs meanings (after_first ARROW line)) in *.
    set (left := strip (before_first ARROW line)).
    assert (Hleft : contains ARROW left = false).
    { apply contains_strip, before_first_no_sep. }
    change (u " → " ++ r1) with ([SPACE] ++ ARROW :: SPACE :: r1).
    unfold sanitize_line.
    replace (contains ARROW (left ++ [SPACE] ++ ARROW :: SPACE :: r1)) with true
      by (rewrite !contains_app, (contains_cons ARROW ARROW), N.eqb_refl, !orb_true_r;
          reflexivity).
    rewrite Harrow. fold left r1.
    rewrite (app_assoc left [SPACE]).
    assert (Hls : contains ARROW (left ++ [SPACE]) = false).
    { rewrite contains_app, Hleft. reflexivity. }
    rewrite (before_first_app ARROW _ _ Hls), (after_first_app ARROW _ _ Hls).
    unfold before_first, after_first. cbn [take_while drop_while tl].
    rewrite N.eqb_refl. cbn [negb tl]. rewrite app_nil_r.
    rewrite (strip_snoc_space left) by apply trimmed_strip.
    rewrite sanitize_right_stable; try assumption.
    + reflexivity.
    + apply finish_right_reduced, strip_repeats_normal4.
    + apply finish_right_cut_ok; [apply strip_repeats_cut_ok | exact Hlen].
    + apply finish_right_nonempty.
    + apply finish_right_terminal.
  - unfold sanitize_line. rewrite Harrow. reflexivity.
Qed.

(** *** The shape of the line *)

Lemma extract_line_shape (k lhs meanings raw : str) :
  trimmed k = true ->
  exists sp rest,
    extract_line k lhs meanings (clean_text raw) = k ++ sp ++ EQUALS :: rest
    /\ (sp = [] \/ sp = [SPACE]) /\ contains ARROW rest = true.
Proof.
  intros Hk. unfold extract_line.
  destruct (re_search_line k (clean_text raw)) as [m |] eqn:Hm.
  - apply re_search_line_shape in Hm; [| apply collapse_coll_ok].
    destruct Hm as (sp & rest & -> & Hsp & Harrow).
    destruct (strip_keyed k sp rest Hk (spaces_blank sp Hsp)) as (sp' & Hsp' & ->).
    exists sp', (rstrip_by is_space rest). repeat split.
    + destruct Hsp' as [-> | ->]; auto.
    + rewrite contains_rstrip_by by reflexivity. exact Harrow.
  - exists [SPACE], (SPACE :: lhs ++ u " → Represents " ++ str_lower meanings
                       ++ u " through its parts.").
    repeat split; [right; reflexivity |].
    rewrite contains_cons, !contains_app.
    replace (contains ARROW (u " → Represents ")) with true by reflexivity.
    rewrite !orb_true_r. reflexivity.
Qed.

Lemma sanitize_line_shape (lhs meanings k sp rest : str) :
  trimmed k = true -> contains ARROW k = false ->
  sp = [] \/ sp = [SPACE] -> contains ARROW rest = true ->
  exists sp' mid,
    sanitize_line lhs meanings (k ++ sp ++ EQUALS :: rest)
    = k ++ sp' ++ [EQUALS] ++ mid ++ u " → "
        ++ sanitize_right lhs meanings (after_first ARROW rest)
    /\ (sp' = [] \/ sp' = [SPACE]) /\ contains ARROW mid = false.
Proof.
  intros Hk Hka Hsp Harrow.
  assert (Hpre : contains ARROW (k ++ sp ++ [EQUALS]) = false).
  { rewrite !contains_app, Hka, (spaces_no_arrow sp (spaces_blank sp Hsp)). reflexivity. }
  assert (Hline : k ++ sp ++ EQUALS :: rest = (k ++ sp ++ [EQUALS]) ++ rest).
  { rewrite <- !app_assoc. reflexivity. }
  unfold sanitize_line.
  replace (contains ARROW (k ++ sp ++ EQUALS :: rest)) with true
    by (rewrite Hline, contains_app, Harrow, orb_true_r; reflexivity).
  rewrite Hline, (before_first_app _ _ _ Hpre), (after_first_app _ _ _ Hpre).
  rewrite <- !app_assoc. cbn [app].
  destruct (strip_keyed k sp (before_first ARROW rest) Hk (spaces_blank sp Hsp))
    as (sp' & Hsp' & ->).
  exists sp', (rstrip_by is_space (before_first ARROW rest)). repeat split.
  - rewrite <- !app_assoc. reflexivity.
  - destruct Hsp' as [-> | ->]; auto.
  - rewrite contains_rstrip_by by reflexivity. apply before_first_no_sep.
Qed.

Lemma sanitize_right_shape (lhs meanings x : str) :
  sanitize_right lhs meanings x <> []
  /\ ends_terminal (sanitize_right lhs meanings x) = true
  /\ (forallb not_cjk (str_lower meanings) = true ->
      forallb not_cjk (sanitize_right lhs meanings x) = true).
Proof.
  unfold sanitize_right. split; [apply finish_right_nonempty |].
  split; [apply finish_right_terminal |].
  apply finish_right_not_cjk, strip_repeats_not_cjk.
Qed.

(** What every line of lines 140-182 looks like, for a key without
    arrow. *)
Lemma generate_line_shape (pipe : str -> result str) (k lhs meanings prompt : str) :
  trimmed k = true -> contains ARROW k = false ->
  exists sp mid right,
    generate_line pipe k lhs meanings prompt = k ++ sp ++ [EQUALS] ++ mid ++ u " → " ++ right
    /\ (sp = [] \/ sp = [SPACE])
    /\ (contains ARROW lhs = false -> contains ARROW meanings = false ->
        contains ARROW mid = false)
    /\ right <> []
    /\ ends_terminal right = true
    /\ (forallb not_cjk (str_lower meanings) = true -> forallb not_cjk right = true).
Proof.
  intros Hk Hka. unfold generate_line. destruct (pipe prompt) as [raw |].
  - unfold normalize.
    destruct (extract_line_shape k lhs meanings (strip raw) Hk)
      as (sp & rest & Hline & Hsp & Harrow).
    rewrite Hline.
    destruct (sanitize_line_shape lhs meanings k sp rest Hk Hka Hsp Harrow)
      as (sp' & mid & -> & Hsp' & Hmid).
    destruct (sanitize_right_shape lhs meanings (after_first ARROW rest))
      as (Hne & Hterm & Hcjk).
    exists sp', mid, (sanitize_right lhs meanings (after_first ARROW rest)).
    repeat split; auto.
  - unfold fallback_line.
    set (fl := if nonempty lhs then lhs else if nonempty meanings then meanings
               else [EM_DASH]).
    set (low := if nonempty (str_lower meanings) then str_lower meanings else u "meaning").
    exists [SPACE], (SPACE :: fl), (u "Represents " ++ low ++ u " through its parts.").
    split; [| split; [right; reflexivity | split; [| split; [| split]]]].
    + change (u " = ") with ([SPACE] ++ [EQUALS] ++ [SPACE]).
      change (u " → Represents ") with (u " → " ++ u "Represents ").
      rewrite <- !app_assoc. reflexivity.
    + intros Hl Hm. rewrite contains_cons. cbn [orb].
      replace (ARROW =? SPACE)%N with false by reflexivity. cbn [orb].
      subst fl. destruct (nonempty lhs); [exact Hl |].
      destruct (nonempty meanings); [exact Hm | reflexivity].
    + intros H. apply app_eq_nil in H as [H _]. discriminate.
    + unfold ends_terminal. rewrite app_assoc, last_char_app by discriminate.
      reflexivity.
    + intros Hm. rewrite !forallb_app.
      replace (forallb not_cjk low) with true; [reflexivity |].
      subst low. destruct (nonempty (str_lower meanings)); [auto | reflexivity].
Qed.

End NormalizerFacts.

(** ** ASCII data: the tables do not matter

    On an ASCII lhs, ASCII meanings and an ASCII right-hand side the
    normaliser gives the same result under every instance of the tables
    as under [ascii_tables], so what is evaluated with [ascii_tables] on
    such data holds for the tables of the interpreter. *)

Section AsciiData.
Context {U : PyUnicode}.

Lemma ci_prefix_ascii (pat s : str) :
  forallb is_ascii pat = true -> forallb is_ascii s = true ->
  ci_prefix pat s = ci_prefix (U := ascii_tables) pat s.
Proof.
  revert s. induction pat as [| p pat IH]; intros s Hp Hs; [reflexivity |].
  destruct s as [| c s]; [reflexivity |]. cbn [ci_prefix forallb] in *.
  apply andb_true_iff in Hp as [Hp Hpat]. apply andb_true_iff in Hs as [Hc Hs].
  rewrite (ci_eq_ascii p c Hp Hc). cbn [ci_eq ascii_tables].
  destruct (ascii_lower p =? ascii_lower c)%N; [apply IH; assumption | reflexivity].
Qed.

Lemma last_char_forallb (q : char -> bool) (s : str) (c : char) :
  forallb q s = true -> last_char s = Some c -> q c = true.
Proof.
  destruct s as [| d s _] using rev_ind; [discriminate |].
  rewrite forallb_app, last_char_snoc. cbn. intros H [= <-].
  apply andb_true_iff in H as [_ H]. apply andb_true_iff in H as [H _]. exact H.
Qed.

Lemma is_word_at_ascii (c : option char) :
  match c with Some c => is_ascii c = true | None => True end ->
  is_word_at c = is_word_at (U := ascii_tables) c.
Proof. destruct c as [c |]; [apply is_word_ascii | reflexivity]. Qed.

Lemma lead_once_ascii (pat s : str) :
  forallb is_ascii pat = true -> forallb is_ascii s = true ->
  lead_once pat s = lead_once (U := ascii_tables) pat s.
Proof.
  intros Hp Hs. unfold lead_once. rewrite (ci_prefix_ascii pat s Hp Hs).
  destruct (ci_prefix (U := ascii_tables) pat s) as [r |] eqn:Hci; [| reflexivity].
  destruct (ci_prefix_split (U := ascii_tables) pat s r Hci) as [Hsplit _].
  assert (Hr : forallb is_ascii r = true).
  { eapply forallb_left_of; [eexists; exact Hsplit | exact Hs]. }
  unfold word_boundary. rewrite !is_word_at_ascii; [reflexivity | |].
  - destruct r as [| c r]; [exact I |]. cbn in Hr |- *.
    apply andb_true_iff in Hr as [Hr _]. exact Hr.
  - destruct (last_char (firstn (length pat) s)) as [c |] eqn:Hl; [| exact I].
    eapply last_char_forallb; [| exact Hl]. apply forallb_firstn, Hs.
Qed.

Lemma lead_loop_ascii (n : nat) (pat s : str) :
  forallb is_ascii pat = true -> forallb is_ascii s = true ->
  lead_loop n pat s = lead_loop (U := ascii_tables) n pat s.
Proof.
  intros Hp. revert s. induction n as [| n IH]; intros s Hs; [reflexivity |].
  cbn [lead_loop]. rewrite (lead_once_ascii pat s Hp Hs).
  destruct (lead_once (U := ascii_tables) pat s) as [r |] eqn:Hr; [| reflexivity].
  apply IH. destruct (lead_once_drops (U := ascii_tables) pat s r Hr) as (d & Hd & _).
  eapply forallb_left_of; [eexists; exact Hd | exact Hs].
Qed.

Lemma strip_leading_ascii (pat s : str) :
  forallb is_ascii pat = true -> forallb is_ascii s = true ->
  strip_leading pat s = strip_leading (U := ascii_tables) pat s.
Proof.
  intros Hp Hs. unfold strip_leading. destruct pat; [reflexivity |].
  apply lead_loop_ascii; assumption.
Qed.

(** The right-hand side: the same under every instance of the tables,
    when the text entering the prefix-stripping steps is ASCII. *)
Lemma sanitize_right_ascii (lhs meanings right : str) :
  forallb is_ascii lhs = true -> forallb is_ascii meanings = true ->
  forallb is_ascii (strip_eq_ws (_one_sentence (_strip_cjk right) 120)) = true ->
  sanitize_right lhs meanings right = sanitize_right (U := ascii_tables) lhs meanings right.
Proof.
  intros Hl Hm Hs6. unfold sanitize_right.
  assert (H8 : strip_repeats lhs meanings right
               = strip_repeats (U := ascii_tables) lhs meanings right).
  { unfold strip_repeats.
    set (s6 := strip_eq_ws (_one_sentence (_strip_cjk right) 120)) in *.
    assert (H7 : (if nonempty lhs then strip_leading (strip lhs) s6 else s6)
                 = (if nonempty lhs then strip_leading (U := ascii_tables) (strip lhs) s6
                    else s6)).
    { destruct (nonempty lhs); [| reflexivity].
      apply strip_leading_ascii; [apply forallb_strip, Hl | exact Hs6]. }
    rewrite H7.
    destruct (nonempty meanings); [| reflexivity].
    apply strip_leading_ascii; [apply forallb_strip, Hm |].
    destruct (nonempty lhs); [| exact Hs6].
    eapply forallb_left_of; [apply (strip_leading_left_of (U := ascii_tables)) | exact Hs6]. }
  rewrite H8. unfold finish_right, regenerated.
  rewrite (str_lower_ascii meanings Hm). reflexivity.
Qed.

(** The line of the counterexample to the leading-repetition law, under
    every instance of the tables. *)
Example bracket_lhs_stays_any_tables :
  sanitize_right (U := U) (u "Drop (water)") (u "drip") (u "Drop (water): rain falls.")
  = u "Drop (water): rain falls.".
Proof.
  rewrite sanitize_right_ascii by (vm_compute; reflexivity).
  vm_compute. reflexivity.
Qed.

(** The first pass of the counterexample to idempotence, likewise. *)
Example full_stop_added_any_tables :
  sanitize_right (U := U) (u "Net + Shell") (u "buy, purchase") (SPACE :: repeat 0x61%N 120)
  = repeat 0x61%N 120 ++ u ".".
Proof.
  rewrite sanitize_right_ascii by (vm_compute; reflexivity).
  vm_compute. reflexivity.
Qed.

(** Its second pass cuts the text, whatever the tables: the cut text does
    not start like the lhs or the meanings. *)
Example full_stop_cut_any_tables :
  sanitize_right (U := U) (u "Net + Shell") (u "buy, purchase")
    (SPACE :: repeat 0x61%N 120 ++ u ".")
  = repeat 0x61%N 120 ++ [ELLIPSIS].
Proof.
  rewrite (sanitize_right_unstripped _ _ _ (repeat 0x61%N 120 ++ [ELLIPSIS])).
  - vm_compute. reflexivity.
  - vm_compute. reflexivity.
  - apply (strip_leading_head_mismatch _ _ 0x4E%N 0x61%N); vm_compute; reflexivity.
  - apply (strip_leading_head_mismatch _ _ 0x62%N 0x61%N); vm_compute; reflexivity.
  - vm_compute. reflexivity.
Qed.

End AsciiData.



Example repeated_lhs_example :
  sanitize_right (u "Net + Shell") (u "buy, purchase")
    (u "NET + shell: catch shells in a net")
  = u "catch shells in a net.".
Proof. vm_compute. reflexivity. Qed.

(** C5, as stated, fails: a right-hand side of exactly 120 characters
    without terminal punctuation gets a full stop in the first pass (121
    characters), and is cut to 120 characters plus the ellipsis marker in
    the second. *)
Lemma second_pass_cuts_full_stop :
  sanitize_line (u "Net + Shell") (u "buy, purchase")
    (u "買 = Net + Shell → " ++ repeat 0x61%N 120)
  = u "買 = Net + Shell → " ++ repeat 0x61%N 120 ++ u "."
  /\ sanitize_line (u "Net + Shell") (u "buy, purchase")
       (u "買 = Net + Shell → " ++ repeat 0x61%N 120 ++ u ".")
     = u "買 = Net + Shell → " ++ repeat 0x61%N 120 ++ [ELLIPSIS]
  /\ u "." <> [ELLIPSIS].
Proof. repeat split; [vm_compute; reflexivity .. | discriminate]. Qed.

(** A second way: the text "=" uncovered by the lhs step goes in the
    second pass only. *)
Example second_pass_strips_equals :
  sanitize_line (u "Net") (u "buy") (u "買 = Net → Net: = a net") = u "買 = Net → = a net."
  /\ sanitize_line (u "Net") (u "buy") (u "買 = Net → = a net.") = u "買 = Net → a net.".
Proof. split; vm_compute; reflexivity. Qed.

Lemma sanitize_line_idempotent_witness :
  sanitize_line (u "Net + Shell") (u "buy, purchase")
    (sanitize_line (u "Net + Shell") (u "buy, purchase")
       (u "買 = Net + Shell → 購入 net + shell: buying <b>shells</b>  in a net. Extra → x"))
  = sanitize_line (u "Net + Shell") (u "buy, purchase")
      (u "買 = Net + Shell → 購入 net + shell: buying <b>shells</b>  in a net. Extra → x").
Proof.
  apply (sanitize_line_idempotent (u "Net + Shell") (u "buy, purchase")
           (u "買 = Net + Shell → 購入 net + shell: buying <b>shells</b>  in a net. Extra → x")).
  intros _. unfold stable_right. repeat split; try (vm_compute; reflexivity).
  left. apply Nat.leb_le. vm_compute. reflexivity.
Defined.

Example stable_line_example :
  sanitize_line (u "Net + Shell") (u "buy, purchase")
    (u "買 = Net + Shell → 購入 net + shell: buying <b>shells</b>  in a net. Extra → x")
  = u "買 = Net + Shell → buying shells in a net.".
Proof. vm_compute. reflexivity. Qed.

(** ** [generate_mnemonic]: the line returned *)

Section LineFacts.
Context {U : PyUnicode} {vec : Type}.
Implicit Types (w : @Untyped.World vec) (st : @Untyped.State vec).

Lemma typed_record_truthy (r : Untyped.JsonRecord) (d : KanjiRecord) :
  Untyped.typed_record r = Some d -> Untyped.object_truthy r = record_truthy d.
Proof.
  unfold Untyped.typed_record, Untyped.object_truthy, record_truthy.
  destruct (Untyped.json_meanings r), (Untyped.json_wk_radicals r); cbn;
    intros [= <-]; reflexivity.
Qed.

Lemma typed_record_meanings (r : Untyped.JsonRecord) (d : KanjiRecord) (sep : str) :
  Untyped.typed_record r = Some d ->
  Untyped.str_join sep (Untyped.json_meanings r) = Ok (join sep (get_list (rec_meanings d))).
Proof.
  unfold Untyped.typed_record.
  destruct (Untyped.json_meanings r), (Untyped.json_wk_radicals r); cbn;
    intros [= <-]; reflexivity.
Qed.

Lemma typed_record_radicals (r : Untyped.JsonRecord) (d : KanjiRecord) (sep : str) :
  Untyped.typed_record r = Some d ->
  Untyped.str_join sep (Untyped.json_wk_radicals r)
  = Ok (join sep (get_list (rec_wk_radicals d)))
  /\ Untyped.field_truthy (Untyped.json_wk_radicals r)
     = match get_list (rec_wk_radicals d) with [] => false | _ :: _ => true end.
Proof.
  unfold Untyped.typed_record.
  destruct (Untyped.json_meanings r), (Untyped.json_wk_radicals r); cbn;
    intros [= <-]; split; reflexivity.
Qed.

(** Lines 111-116 on a record with joinable fields whose retrieval
    returns. *)
Lemma typed_record_line w st (r : Untyped.JsonRecord) (d : KanjiRecord) (k : str)
    (found : list str) :
  Untyped.typed_record r = Some d ->
  Untyped._retrieve_relevant_radicals w st (join (u " ") (get_list (rec_wk_radicals d))) 3
    = Ok found ->
  (meanings ← Untyped.str_join (u ", ") (Untyped.json_meanings r);
   lhs ← (if Untyped.field_truthy (Untyped.json_wk_radicals r)
          then Untyped.str_join (u " + ") (Untyped.json_wk_radicals r)
          else Ok meanings);
   query_text ← Untyped.str_join (u " ") (Untyped.json_wk_radicals r);
   found ← Untyped._retrieve_relevant_radicals w st query_text 3;
   Ok (st, generate_line
             (match Untyped._PIPE st with Some pipe => pipe | None => fun _ => Raise end)
             k lhs meanings
             (build_prompt k lhs meanings (join [NEWLINE; NEWLINE] found))))
  = Ok (st, generate_line
              (match Untyped._PIPE st with Some pipe => pipe | None => fun _ => Raise end)
              k (lhs_of d) (meanings_of d)
              (build_prompt k (lhs_of d) (meanings_of d) (join [NEWLINE; NEWLINE] found))).
Proof.
  intros Htyped Hfound.
  rewrite (typed_record_meanings r d (u ", ") Htyped). cbn [mbind result_bind].
  destruct (typed_record_radicals r d (u " + ") Htyped) as [Hplus Htruthy].
  destruct (typed_record_radicals r d (u " ") Htyped) as [Hblank _].
  rewrite Htruthy, Hplus, Hblank.
  assert (Hlhs : (if match get_list (rec_wk_radicals d) with [] => false | _ :: _ => true end
                  then Ok (join (u " + ") (get_list (rec_wk_radicals d)))
                  else Ok (join (u ", ") (get_list (rec_meanings d))))
                 = Ok (lhs_of d)).
  { unfold lhs_of, meanings_of. destruct (get_list (rec_wk_radicals d)); reflexivity. }
  rewrite Hlhs. cbn [mbind result_bind]. rewrite Hfound. cbn [mbind result_bind].
  reflexivity.
Qed.

(** C1, amended.  When the three loaders return, the kanji file holds an
    object, the value under the stripped kanji [k] (itself free of arrows)
    is an object with at least one key whose "meanings" and "wk_radicals"
    are absent or joinable, and the retrieval of line 116 returns, the
    call returns, whatever the pipeline returns or raises, a line
    "<k><sp>=<mid> → <right>" where [sp] is empty or one blank, [mid]
    holds no arrow (lhs and meanings holding none), and [right] is not
    empty, ends in one of ".!?…" and, the lower-cased meanings holding no
    CJK character, holds none. *)
Theorem generate_mnemonic_line_shape w st st1 st2 st3 data record details found
    (kanji : str) :
  let k := strip kanji in
  let lhs := lhs_of details in
  let meanings := meanings_of details in
  Untyped._ensure_kanji_data w st = Ok st1 ->
  Untyped._ensure_radical_index w st1 = Ok st2 ->
  Untyped._ensure_pipe w st2 = Ok st3 ->
  Untyped._KANJI_DATA st3 = Some (Untyped.StoreObject data) ->
  data !! k = Some (Untyped.DetailsObject record) ->
  Untyped.typed_record record = Some details -> record_truthy details = true ->
  Untyped._retrieve_relevant_radicals w st3
    (join (u " ") (get_list (rec_wk_radicals details))) 3 = Ok found ->
  contains ARROW k = false ->
  exists sp mid right,
    Untyped.generate_mnemonic w st kanji
      = Ok (st3, k ++ sp ++ [EQUALS] ++ mid ++ u " → " ++ right)
    /\ (sp = [] \/ sp = [SPACE])
    /\ (contains ARROW lhs = false -> contains ARROW meanings = false ->
        contains ARROW mid = false)
    /\ right <> []
    /\ ends_terminal right = true
    /\ (forallb not_cjk (str_lower meanings) = true -> forallb not_cjk right = true).
Proof.
  intros k lhs meanings H1 H2 H3 Hdata Hrec Htyped Htruthy Hfound Hka.
  unfold Untyped.generate_mnemonic.
  rewrite H1. cbn [mbind result_bind]. rewrite H2. cbn [mbind result_bind].
  rewrite H3. cbn [mbind result_bind]. cbv zeta. rewrite Hdata. fold k. rewrite Hrec.
  cbn [Untyped.details_truthy].
  rewrite (typed_record_truthy record details Htyped), Htruthy.
  rewrite (typed_record_line w st3 record details k found Htyped Hfound).
  fold lhs meanings.
  destruct (generate_line_shape
              (match Untyped._PIPE st3 with Some pipe => pipe | None => fun _ => Raise end)
              k lhs meanings
              (build_prompt k lhs meanings (join [NEWLINE; NEWLINE] found)))
    as (sp & mid & right & -> & Hrest).
  - apply trimmed_strip.
  - exact Hka.
  - exists sp, mid, right. split; [reflexivity | exact Hrest].
Qed.

End LineFacts.

(** C1, as stated, fails five ways: the kanji file may be unreadable
    (the loaders run outside the try block, and the call raises); a kanji
    without record gets a text that is no mnemonic line; a line found in
    the generated text keeps its own spacing around "="; a record holding
    [null] under "meanings" makes line 111 raise; and an exception of the
    search of line 85 reaches the caller. *)
Lemma generate_mnemonic_raises_or_misshapes :
  generate_mnemonic unreadable_world initial_state (u "買") = Raise
  /\ generate_mnemonic (toy_world None Raise) initial_state (u "犬")
     = Ok ({| _KANJI_DATA := Some toy_store; _RADICAL_DOCS := Some []; _EMBEDDER := None;
              _FAISS_INDEX := None; _PIPE := Some (fun _ => Raise) |},
           u "Kanji 犬 not found.")
  /\ snd <$> generate_mnemonic (toy_world None (Ok (u "買=Net→ shells"))) initial_state (u "買")
     = Ok (u "買=Net → shells.")
  /\ literal_prefix (u "買 = ") (u "買=Net → shells.") = None
  /\ Untyped.generate_mnemonic null_meanings_world Untyped.initial_state (u "買") = Raise
  /\ Untyped.generate_mnemonic failing_search_world Untyped.initial_state (u "買") = Raise.
Proof. repeat split; vm_compute; reflexivity. Qed.

Lemma generate_mnemonic_line_shape_witness :
  exists sp mid right,
    Untyped.generate_mnemonic
      (lift_world (toy_world (Some (Ok toy_rows)) (Ok (u "Here: 買=Net→ 貝 shells"))))
      Untyped.initial_state (u " 買")
    = Ok (lift_state (toy_st3 (Ok (u "Here: 買=Net→ 貝 shells"))),
          strip (u " 買") ++ sp ++ [EQUALS] ++ mid ++ u " → " ++ right)
    /\ (sp = [] \/ sp = [SPACE])
    /\ (contains ARROW (lhs_of kai_record) = false ->
        contains ARROW (meanings_of kai_record) = false -> contains ARROW mid = false)
    /\ right <> []
    /\ ends_terminal right = true
    /\ (forallb not_cjk (str_lower (meanings_of kai_record)) = true ->
        forallb not_cjk right = true).
Proof.
  apply (generate_mnemonic_line_shape
           (lift_world (toy_world (Some (Ok toy_rows)) (Ok (u "Here: 買=Net→ 貝 shells"))))
           Untyped.initial_state (lift_state toy_st1) (lift_state toy_st2)
           (lift_state (toy_st3 (Ok (u "Here: 買=Net→ 貝 shells"))))
           ((fun d => Untyped.DetailsObject (lift_record d)) <$> toy_store)
           (lift_record kai_record) kai_record toy_docs (u " 買"));
    vm_compute; reflexivity.
Defined.

Example respaced_line_example :
  snd <$> generate_mnemonic (toy_world (Some (Ok toy_rows)) (Ok (u "Here: 買=Net→ 貝 shells")))
            initial_state (u " 買")
  = Ok (u "買=Net → shells.").
Proof. vm_compute. reflexivity. Qed.

(** * Beyond the claims: further properties of the code *)

(** ** [_one_sentence] and the normalised line *)

Lemma coll_ok_blank_only (w : bool) (s : str) : coll_ok w s = true -> blank_only s = true.
Proof.
  unfold blank_only. revert w. induction s as [| c r IH]; intros w; cbn; [reflexivity |].
  destruct (is_space c); cbn.
  - intros H. apply andb_true_iff in H as [Hc H]. apply andb_true_iff in Hc as [_ Hc].
    rewrite Hc. eapply IH, H.
  - apply IH.
Qed.

Lemma blank_only_no_newline (s : str) : blank_only s = true -> contains NEWLINE s = false.
Proof.
  unfold blank_only. induction s as [| c r IH]; [reflexivity |]. cbn [forallb].
  intros H. apply andb_true_iff in H as [Hc H]. rewrite contains_cons, (IH H), orb_false_r.
  apply N.eqb_neq. intros <-. discriminate Hc.
Qed.

Lemma reduced_parts (s : str) :
  reduced s = true ->
  tag_free s = true /\ contains ARROW s = false /\ sent_ok false s = true
  /\ blank_only s = true /\ trimmed s = true.
Proof.
  unfold reduced. rewrite andb_true_iff, normal4_parts.
  intros [(Ht & Ha & Hs & Hc) Htr].
  repeat split; try assumption. eapply coll_ok_blank_only, Hc.
Qed.

(** X1.  [_one_sentence] is idempotent: applied to its own result, with
    the same bound, it changes nothing. *)
Theorem one_sentence_idempotent (text : str) (max_chars : nat) :
  _one_sentence (_one_sentence text max_chars) max_chars = _one_sentence text max_chars.
Proof.
  apply one_sentence_fix; [apply one_sentence_reduced | apply one_sentence_cut_ok].
Qed.

(** X2.  The result of [_one_sentence] has at most [max_chars + 1]
    characters; it holds no arrow, no "<" with a ">" after it, no
    character of [.!?] followed by whitespace, no whitespace but the single
    blank (so no line break), and no whitespace at either end. *)
Theorem one_sentence_well_formed (text : str) (max_chars : nat) :
  length (_one_sentence text max_chars) <= max_chars + 1
  /\ tag_free (_one_sentence text max_chars) = true
  /\ contains ARROW (_one_sentence text max_chars) = false
  /\ sent_ok false (_one_sentence text max_chars) = true
  /\ blank_only (_one_sentence text max_chars) = true
  /\ contains NEWLINE (_one_sentence text max_chars) = false
  /\ trimmed (_one_sentence text max_chars) = true.
Proof.
  destruct (reduced_parts _ (one_sentence_reduced text max_chars))
    as (Ht & Ha & Hs & Hb & Htr).
  repeat split; try assumption.
  - apply cut_ok_length, one_sentence_cut_ok.
  - apply blank_only_no_newline, Hb.
Qed.

Lemma contains_drop_while (p : char -> bool) (c : char) (s : str) :
  p c = false -> contains c (drop_while p s) = contains c s.
Proof.
  intros Hc. induction s as [| d s IH]; [reflexivity |]. cbn [drop_while].
  destruct (p d) eqn:Hd; [| reflexivity].
  rewrite IH, contains_cons.
  replace (c =? d)%N with false; [reflexivity |].
  symmetry. apply N.eqb_neq. intros ->. congruence.
Qed.

Lemma contains_strip_keep (c : char) (s : str) :
  is_space c = false -> contains c (strip s) = contains c s.
Proof.
  intros Hc. unfold strip, lstrip_by.
  rewrite contains_rstrip_by, contains_drop_while by exact Hc. reflexivity.
Qed.

Lemma match_line_at_arrow (k s m : str) :
  match_line_at k s = Some m -> contains ARROW m = true.
Proof.
  unfold match_line_at. destruct (literal_prefix k s) as [r1 |]; [| discriminate].
  destruct (drop_while is_space r1) as [| c r3]; [discriminate |].
  destruct ((c =? EQUALS)%N && contains ARROW (drop_while is_space r3)
            && forallb not_newline (before_first ARROW (drop_while is_space r3)));
    [| discriminate].
  intros [= <-].
  repeat (rewrite ?contains_app, ?contains_cons).
  rewrite N.eqb_refl, !orb_true_r. reflexivity.
Qed.

Lemma re_search_line_arrow (k text m : str) :
  re_search_line k text = Some m -> contains ARROW m = true.
Proof.
  induction text as [| c text IH]; cbn [re_search_line].
  - destruct (match_line_at k []) eqn:H; [| discriminate].
    intros [= <-]. eapply match_line_at_arrow, H.
  - destruct (match_line_at k (c :: text)) eqn:H; [| exact IH].
    intros [= <-]. eapply match_line_at_arrow, H.
Qed.

Section LineWellFormed.
Context {U : PyUnicode}.

Lemma extract_line_arrow (k lhs meanings text : str) :
  contains ARROW (extract_line k lhs meanings text) = true.
Proof.
  unfold extract_line. destruct (re_search_line k text) as [m |] eqn:Hm.
  - rewrite contains_strip_keep by reflexivity. eapply re_search_line_arrow, Hm.
  - unfold synth_line. rewrite !contains_app.
    replace (contains ARROW (u " → Represents ")) with true by reflexivity.
    rewrite !orb_true_r. reflexivity.
Qed.

Lemma finish_right_length (meanings x : str) :
  cut_ok 120 x -> length (finish_right meanings x) <= 121.
Proof.
  intros Hx.
  destruct (finish_right_cases meanings x) as (body & _ & Hbody & Hfin).
  assert (Hb : cut_ok 120 body).
  { destruct Hbody as [-> | [_ ->]]; [apply cut_ok_strip, Hx | apply one_sentence_cut_ok]. }
  destruct Hfin as [[_ ->] | [Hterm ->]]; [apply (cut_ok_length 120), Hb |].
  rewrite length_app. cbn [length].
  destruct Hb as [Hshort | (t & -> & _ & _)]; [lia |].
  unfold ends_terminal in Hterm. rewrite last_char_snoc in Hterm. discriminate.
Qed.

(** X3.  Whatever text the pipeline hands back, the normalised line is
    "<left> → <right>" with exactly this one arrow: [left] holds none and
    no whitespace at its ends, and [right] holds none, has at most 121
    characters, no line break nor other whitespace than single blanks, no
    "<" with a ">" after it, no character of [.!?] followed by whitespace,
    and no whitespace at its ends. *)
Theorem normalized_line_one_arrow (k lhs meanings raw : str) :
  exists left right,
    normalize k lhs meanings raw = left ++ u " → " ++ right
    /\ contains ARROW left = false /\ trimmed left = true
    /\ contains ARROW right = false
    /\ length right <= 121
    /\ blank_only right = true /\ contains NEWLINE right = false
    /\ tag_free right = true /\ sent_ok false right = true /\ trimmed right = true.
Proof.
  unfold normalize. set (line := extract_line k lhs meanings (clean_text (strip raw))).
  unfold sanitize_line. unfold line at 1. rewrite extract_line_arrow.
  exists (strip (before_first ARROW line)),
         (sanitize_right lhs meanings (after_first ARROW line)).
  split; [reflexivity |].
  split; [apply contains_strip, before_first_no_sep |].
  split; [apply trimmed_strip |].
  unfold sanitize_right.
  destruct (reduced_parts _ (finish_right_reduced meanings _
              (strip_repeats_normal4 lhs meanings (after_first ARROW line))))
    as (Ht & Ha & Hs & Hb & Htr).
  repeat split; try assumption.
  - apply finish_right_length, strip_repeats_cut_ok.
  - apply blank_only_no_newline, Hb.
Qed.

End LineWellFormed.

(** ** [_to_ascii] and the radical documents *)

Lemma nonascii_to_space_ascii (b : bool) (s : str) :
  forallb is_ascii (nonascii_to_space b s) = true.
Proof.
  revert b. induction s as [| c r IH]; intros b; cbn; [reflexivity |].
  destruct (is_ascii c) eqn:Hc; cbn; [rewrite Hc; apply IH |].
  destruct b; cbn; apply IH.
Qed.

Lemma nonascii_to_space_fix (b : bool) (s : str) :
  forallb is_ascii s = true -> nonascii_to_space b s = s.
Proof.
  revert b. induction s as [| c r IH]; intros b; cbn; [reflexivity |].
  intros H. apply andb_true_iff in H as [Hc H]. rewrite Hc, (IH _ H). reflexivity.
Qed.

(** X4.  The result of [_to_ascii] holds ASCII characters only and no
    whitespace at its ends; a text that is already so comes back
    unchanged, so [_to_ascii] is idempotent. *)
Theorem to_ascii_ascii_trimmed (text : str) :
  forallb is_ascii (_to_ascii text) = true
  /\ trimmed (_to_ascii text) = true
  /\ (forallb is_ascii text = true -> trimmed text = true -> _to_ascii text = text)
  /\ _to_ascii (_to_ascii text) = _to_ascii text.
Proof.
  assert (Ha : forall t, forallb is_ascii (_to_ascii t) = true).
  { intros t. apply forallb_strip, nonascii_to_space_ascii. }
  assert (Hfix : forall t, forallb is_ascii t = true -> trimmed t = true -> _to_ascii t = t).
  { intros t H1 H2. unfold _to_ascii. rewrite nonascii_to_space_fix by exact H1.
    apply strip_fix, H2. }
  repeat split; auto.
  - apply trimmed_strip.
  - apply Hfix; [apply Ha | apply trimmed_strip].
Qed.

Lemma radical_doc_ascii (row : str * str) : forallb is_ascii (radical_doc row) = true.
Proof.
  unfold radical_doc, _to_ascii. rewrite !forallb_app.
  rewrite !(forallb_strip is_ascii) by apply nonascii_to_space_ascii.
  reflexivity.
Qed.

Lemma join_forallb (q : char -> bool) (sep : str) (parts : list str) :
  forallb q sep = true -> Forall (fun d => forallb q d = true) parts ->
  forallb q (join sep parts) = true.
Proof.
  intros Hsep. induction 1 as [| d parts Hd Hparts IH]; [reflexivity |].
  destruct parts as [| e parts]; [exact Hd |].
  change (join sep (d :: e :: parts)) with (d ++ sep ++ join sep (e :: parts)).
  rewrite !forallb_app, Hd, Hsep, IH. reflexivity.
Qed.

Section AsciiContext.
Context {vec : Type}.
Implicit Types (w : @World vec) (st : @State vec).

(** X5.  The radical documents are ASCII-only and stay so: when the
    stored documents are ASCII (as initially, none being stored), they are
    ASCII after every return of [_ensure_radical_index], the retriever then
    hands back ASCII documents only, and the context block joined from
    them for the prompt is ASCII. *)
Theorem radical_context_ascii w st st' (query_text : str) (top_k : nat) :
  docs_ascii st ->
  _ensure_radical_index w st = Ok st' ->
  docs_ascii st'
  /\ exists found,
       _retrieve_relevant_radicals w st' query_text top_k = Ok found
       /\ Forall (fun d => forallb is_ascii d = true) found
       /\ forallb is_ascii (join [NEWLINE; NEWLINE] found) = true.
Proof.
  intros Hst Hens.
  assert (Hst' : docs_ascii st').
  { unfold _ensure_radical_index in Hens.
    destruct (_RADICAL_DOCS st) as [docs0 |] eqn:Hd, (_EMBEDDER st) as [e0 |],
      (_FAISS_INDEX st) as [ix0 |];
      try (inversion Hens; subst st'; exact Hst);
      (destruct (radicals_csv w) as [[df |] |]; cbn in Hens; try discriminate;
       [ destruct (sentence_transformer w) as [embed |]; cbn in Hens; try discriminate;
         destruct (shape1 w (List.map embed (List.map radical_doc df))) as [dim |];
         cbn in Hens; try discriminate;
         inversion Hens; subst st'; unfold docs_ascii; cbn [_RADICAL_DOCS set_index];
         apply List.Forall_forall; intros d Hin; apply in_map_iff in Hin as (row & <- & _);
         apply radical_doc_ascii
       | inversion Hens; subst st'; unfold docs_ascii; cbn [_RADICAL_DOCS set_index];
         constructor ]). }
  split; [exact Hst' |].
  destruct (retrieve_total w st' query_text top_k) as (found & Hfound & Hin & _).
  exists found. split; [exact Hfound |].
  assert (Hall : Forall (fun d => forallb is_ascii d = true) found).
  { apply List.Forall_forall. intros d Hd. destruct (Hin d Hd) as (docs & Hdocs & Hdin).
    unfold docs_ascii in Hst'. rewrite Hdocs in Hst'.
    rewrite List.Forall_forall in Hst'. apply Hst', Hdin. }
  split; [exact Hall |]. apply join_forallb; [reflexivity | exact Hall].
Qed.

End AsciiContext.

Lemma radical_context_ascii_witness :
  docs_ascii toy_built
  /\ exists found,
       _retrieve_relevant_radicals (toy_world (Some (Ok toy_rows)) Raise) toy_built
         (u "Net Shell") 3 = Ok found
       /\ Forall (fun d => forallb is_ascii d = true) found
       /\ forallb is_ascii (join [NEWLINE; NEWLINE] found) = true.
Proof.
  apply (radical_context_ascii (toy_world (Some (Ok toy_rows)) Raise) initial_state).
  - exact I.
  - vm_compute. reflexivity.
Defined.

(** ** The retriever: order of the documents *)

Lemma py_getitem_nth {A : Type} (l : list A) (i : Z) (d : A) :
  (0 <= i < Z.of_nat (length l))%Z -> py_getitem l i = Ok (nth (Z.to_nat i) l d).
Proof.
  intros Hi. unfold py_getitem.
  destruct (Z.ltb_spec i 0) as [Hneg | _]; [lia |].
  destruct (Z.leb_spec 0 i) as [_ | Hneg]; [| lia].
  destruct (Z.ltb_spec i (Z.of_nat (length l))) as [_ | Hbig]; [| lia].
  cbn [andb].
  destruct (nth_error l (Z.to_nat i)) as [x |] eqn:Hnth.
  - f_equal. symmetry. apply nth_error_nth, Hnth.
  - apply nth_error_None in Hnth. lia.
Qed.

Lemma pick_docs_in_order (docs : list str) (labels : list Z) :
  pick_docs docs labels
  = Ok (List.map (fun i => nth (Z.to_nat i) docs [])
          (List.filter (fun i => (0 <=? i)%Z && (i <? Z.of_nat (length docs))%Z) labels)).
Proof.
  induction labels as [| i rest IH]; [reflexivity |]. cbn [pick_docs List.filter].
  destruct ((0 <=? i)%Z && (i <? Z.of_nat (length docs))%Z) eqn:Hguard; [| exact IH].
  apply andb_true_iff in Hguard as [H0 H1]. apply Z.leb_le in H0. apply Z.ltb_lt in H1.
  rewrite (py_getitem_nth docs i [] (conj H0 H1)), IH. reflexivity.
Qed.

Section RetrieverOrder.
Context {vec : Type}.
Implicit Types (w : @World vec) (st : @State vec).

(** X6.  With documents stored and the index built, the retriever returns
    the documents at the labels of the search that lie inside the list, in
    the order of the labels and as often as a label occurs; a negative
    label is dropped and never counts from the end of the list. *)
Theorem retrieve_in_label_order w st docs embed ix (query_text : str) (top_k : nat) :
  _RADICAL_DOCS st = Some docs -> docs <> [] ->
  _EMBEDDER st = Some embed -> _FAISS_INDEX st = Some ix ->
  _retrieve_relevant_radicals w st query_text top_k
  = Ok (List.map (fun i => nth (Z.to_nat i) docs [])
          (List.filter (fun i => (0 <=? i)%Z && (i <? Z.of_nat (length docs))%Z)
             (faiss_search w ix (embed query_text) top_k))).
Proof.
  intros Hdocs Hne He Hix. unfold _retrieve_relevant_radicals.
  rewrite Hdocs, He, Hix. destruct docs as [| d docs]; [congruence |].
  apply pick_docs_in_order.
Qed.

End RetrieverOrder.

(** A search that answers with a label before the list, the last row, a
    label past the list, and the first row twice. *)
Example pick_docs_drops_and_repeats :
  pick_docs toy_docs [(-1)%Z; 1%Z; 2%Z; 0%Z; 0%Z]
  = Ok [nth 1 toy_docs []; nth 0 toy_docs []; nth 0 toy_docs []].
Proof. vm_compute. reflexivity. Qed.

Lemma retrieve_in_label_order_witness :
  _retrieve_relevant_radicals (toy_world (Some (Ok toy_rows)) Raise) toy_built (u "Net") 3
  = Ok (List.map (fun i => nth (Z.to_nat i) toy_docs [])
          (List.filter (fun i => (0 <=? i)%Z && (i <? Z.of_nat (length toy_docs))%Z)
             (toy_search {| idx_dim := 1; idx_rows := List.map (@length char) toy_docs |}
                (length (u "Net")) 3))).
Proof.
  apply (retrieve_in_label_order (toy_world (Some (Ok toy_rows)) Raise) toy_built
           toy_docs (@length char)
           {| idx_dim := 1; idx_rows := List.map (@length char) toy_docs |});
    [reflexivity | discriminate | reflexivity | reflexivity].
Defined.

(** ** The globals once loaded *)

Section WarmFacts.
Context {U : PyUnicode} {vec : Type}.
Implicit Types (w : @Untyped.World vec) (st : @Untyped.State vec).

Lemma untyped_generate_inv w st st' (kanji line : str) :
  Untyped.generate_mnemonic w st kanji = Ok (st', line) ->
  exists st1 st2 data,
    Untyped._ensure_kanji_data w st = Ok st1
    /\ Untyped._ensure_radical_index w st1 = Ok st2
    /\ Untyped._ensure_pipe w st2 = Ok st'
    /\ Untyped._KANJI_DATA st' = Some (Untyped.StoreObject data).
Proof.
  unfold Untyped.generate_mnemonic.
  destruct (Untyped._ensure_kanji_data w st) as [st1 |] eqn:H1; cbn [mbind result_bind];
    [| discriminate].
  destruct (Untyped._ensure_radical_index w st1) as [st2 |] eqn:H2;
    cbn [mbind result_bind]; [| discriminate].
  destruct (Untyped._ensure_pipe w st2) as [st3 |] eqn:H3; cbn [mbind result_bind];
    [| discriminate].
  cbv zeta. intros H. exists st1, st2.
  destruct (Untyped._KANJI_DATA st3) as [[data |] |] eqn:Hdata; try discriminate.
  exists data.
  assert (Hst : st3 = st').
  { destruct (data !! strip kanji) as [details |]; [| injection H as Hst _; exact Hst].
    destruct (Untyped.details_truthy details); [| injection H as Hst _; exact Hst].
    destruct details as [r | truthy]; [| discriminate].
    destruct (Untyped.str_join (u ", ") (Untyped.json_meanings r)) as [meanings |];
      cbn [mbind result_bind] in H; [| discriminate].
    destruct (if Untyped.field_truthy (Untyped.json_wk_radicals r)
              then Untyped.str_join (u " + ") (Untyped.json_wk_radicals r)
              else Ok meanings) as [lhs |]; cbn [mbind result_bind] in H; [| discriminate].
    destruct (Untyped.str_join (u " ") (Untyped.json_wk_radicals r)) as [query_text |];
      cbn [mbind result_bind] in H; [| discriminate].
    destruct (Untyped._retrieve_relevant_radicals w st3 query_text 3) as [found |];
      cbn [mbind result_bind] in H; [| discriminate].
    injection H as Hst _. exact Hst. }
  subst st3. auto.
Qed.

Lemma untyped_kanji_data_frame w st st1 :
  Untyped._ensure_kanji_data w st = Ok st1 ->
  Untyped._RADICAL_DOCS st1 = Untyped._RADICAL_DOCS st
  /\ Untyped._EMBEDDER st1 = Untyped._EMBEDDER st
  /\ Untyped._FAISS_INDEX st1 = Untyped._FAISS_INDEX st.
Proof.
  unfold Untyped._ensure_kanji_data. destruct (Untyped._KANJI_DATA st).
  - intros [= <-]. auto.
  - destruct (Untyped.kanji_json w); cbn; [intros [= <-]; auto | discriminate].
Qed.

Lemma untyped_radical_index_frame w st st1 :
  Untyped._ensure_radical_index w st = Ok st1 ->
  Untyped._KANJI_DATA st1 = Untyped._KANJI_DATA st /\ Untyped._PIPE st1 = Untyped._PIPE st.
Proof.
  unfold Untyped._ensure_radical_index. intros Hens.
  destruct (Untyped._RADICAL_DOCS st), (Untyped._EMBEDDER st), (Untyped._FAISS_INDEX st);
    try (injection Hens as <-; auto);
    (destruct (Untyped.radicals_csv w) as [[df |] |]; cbn in Hens; try discriminate;
     [ destruct (Untyped.sentence_transformer w) as [embed |]; cbn in Hens;
       try discriminate;
       destruct (Untyped.encode embed (List.map radical_doc df)) as [vs |]; cbn in Hens;
       try discriminate;
       destruct (Untyped.shape1 w vs) as [dim |]; cbn in Hens; try discriminate;
       injection Hens as <-; auto
     | injection Hens as <-; auto ]).
Qed.

Lemma untyped_radical_index_built w st st1 :
  Untyped._ensure_radical_index w st = Ok st1 ->
  Untyped.radicals_csv w <> None
    \/ (Untyped._RADICAL_DOCS st <> None /\ Untyped._EMBEDDER st <> None
        /\ Untyped._FAISS_INDEX st <> None) ->
  Untyped._RADICAL_DOCS st1 <> None /\ Untyped._EMBEDDER st1 <> None
  /\ Untyped._FAISS_INDEX st1 <> None.
Proof.
  unfold Untyped._ensure_radical_index. intros Hens Hpre.
  destruct (Untyped._RADICAL_DOCS st) as [docs0 |] eqn:Hd,
    (Untyped._EMBEDDER st) as [e0 |] eqn:He, (Untyped._FAISS_INDEX st) as [ix0 |] eqn:Hi;
    try (inversion Hens; subst st1; rewrite Hd, He, Hi; repeat split; discriminate);
    (destruct (Untyped.radicals_csv w) as [[df |] |]; cbn in Hens; try discriminate;
     [ destruct (Untyped.sentence_transformer w) as [embed |]; cbn in Hens;
       try discriminate;
       destruct (Untyped.encode embed (List.map radical_doc df)) as [vs |]; cbn in Hens;
       try discriminate;
       destruct (Untyped.shape1 w vs) as [dim |]; cbn in Hens; try discriminate;
       inversion Hens; subst st1; cbn; repeat split; discriminate
     | exfalso; destruct Hpre as [H | (H1 & H2 & H3)]; congruence ]).
Qed.

Lemma untyped_pipe_frame w st st1 :
  Untyped._ensure_pipe w st = Ok st1 ->
  Untyped._PIPE st1 <> None
  /\ Untyped._KANJI_DATA st1 = Untyped._KANJI_DATA st
  /\ Untyped._RADICAL_DOCS st1 = Untyped._RADICAL_DOCS st
  /\ Untyped._EMBEDDER st1 = Untyped._EMBEDDER st
  /\ Untyped._FAISS_INDEX st1 = Untyped._FAISS_INDEX st.
Proof.
  unfold Untyped._ensure_pipe. destruct (Untyped._PIPE st) eqn:Hp.
  - intros [= <-]. rewrite Hp. repeat split. discriminate.
  - destruct (Untyped.text_generation w); cbn; [intros [= <-]; cbn | discriminate].
    repeat split. discriminate.
Qed.

(** In warm globals the three loaders read nothing. *)
Lemma untyped_warm_loaders w st :
  Untyped.warm st ->
  Untyped._ensure_kanji_data w st = Ok st
  /\ Untyped._ensure_radical_index w st = Ok st
  /\ Untyped._ensure_pipe w st = Ok st.
Proof.
  intros (Hk & Hd & He & Hi & Hp).
  unfold Untyped._ensure_kanji_data, Untyped._ensure_radical_index, Untyped._ensure_pipe.
  destruct (Untyped._KANJI_DATA st); [| congruence].
  destruct (Untyped._RADICAL_DOCS st); [| congruence].
  destruct (Untyped._EMBEDDER st); [| congruence].
  destruct (Untyped._FAISS_INDEX st); [| congruence].
  destruct (Untyped._PIPE st); [| congruence]. auto.
Qed.

(** X7.  After one call of [generate_mnemonic] that returned, made with
    the radical store present (or the index built before), all five
    globals are set and the kanji data is an object.  From then on, in
    whatever state the files and the model loaders are, the three loaders
    return without reading anything, a call that returns leaves the
    globals as they are, and a call does return when the value under the
    kanji is none, falsy, or an object whose "meanings" and "wk_radicals"
    are absent or joinable, and the retrieval of line 116 returns. *)
Theorem warm_after_first_call w st st' (kanji line : str) :
  Untyped.generate_mnemonic w st kanji = Ok (st', line) ->
  Untyped.radicals_csv w <> None
    \/ (Untyped._RADICAL_DOCS st <> None /\ Untyped._EMBEDDER st <> None
        /\ Untyped._FAISS_INDEX st <> None) ->
  Untyped.warm st'
  /\ exists data,
       Untyped._KANJI_DATA st' = Some (Untyped.StoreObject data)
       /\ forall w' (kanji' : str),
            Untyped._ensure_kanji_data w' st' = Ok st'
            /\ Untyped._ensure_radical_index w' st' = Ok st'
            /\ Untyped._ensure_pipe w' st' = Ok st'
            /\ (forall st'' line',
                  Untyped.generate_mnemonic w' st' kanji' = Ok (st'', line') -> st'' = st')
            /\ (Untyped.answerable (data !! strip kanji') ->
                (forall query_text, exists found,
                   Untyped._retrieve_relevant_radicals w' st' query_text 3 = Ok found) ->
                exists line', Untyped.generate_mnemonic w' st' kanji' = Ok (st', line')).
Proof.
  intros Hcall Hpre.
  destruct (untyped_generate_inv w st st' kanji line Hcall)
    as (st1 & st2 & data & H1 & H2 & H3 & Hdata).
  assert (Hwarm : Untyped.warm st').
  { destruct (untyped_kanji_data_frame w st st1 H1) as (Fd & Fe & Fi).
    destruct (untyped_pipe_frame w st2 st' H3) as (Hp & _ & Gd & Ge & Gi).
    destruct (untyped_radical_index_built w st1 st2 H2) as (Bd & Be & Bi).
    { rewrite Fd, Fe, Fi. exact Hpre. }
    unfold Untyped.warm. rewrite Gd, Ge, Gi, Hdata.
    repeat split; try assumption; discriminate. }
  split; [exact Hwarm |]. exists data. split; [exact Hdata |]. intros w' kanji'.
  destruct (untyped_warm_loaders w' st' Hwarm) as (L1 & L2 & L3).
  split; [exact L1 | split; [exact L2 | split; [exact L3 | split]]].
  - intros st'' line' Hlater.
    destruct (untyped_generate_inv w' st' st'' kanji' line' Hlater)
      as (s1 & s2 & _ & K1 & K2 & K3 & _).
    rewrite L1 in K1. injection K1 as <-. rewrite L2 in K2. injection K2 as <-.
    rewrite L3 in K3. injection K3 as <-. reflexivity.
  - intros Hvalue Hretrieve. unfold Untyped.generate_mnemonic.
    rewrite L1. cbn [mbind result_bind]. rewrite L2. cbn [mbind result_bind].
    rewrite L3. cbn [mbind result_bind]. cbv zeta. rewrite Hdata.
    destruct (data !! strip kanji') as [[r | truthy] |]; [| | eauto].
    + cbn [Untyped.details_truthy]. destruct (Untyped.object_truthy r); [| eauto].
      cbn [Untyped.answerable] in Hvalue.
      destruct (Untyped.typed_record r) as [d |] eqn:Htyped; [| congruence].
      destruct (Hretrieve (join (u " ") (get_list (rec_wk_radicals d)))) as [found Hfound].
      rewrite (typed_record_line w' st' r d (strip kanji') found Htyped Hfound). eauto.
    + cbn [Untyped.answerable] in Hvalue. subst truthy.
      cbn [Untyped.details_truthy]. eauto.
Qed.

End WarmFacts.

Lemma warm_after_first_call_witness :
  let st' := lift_state (toy_st3 (Ok (u "買 = Net + Shell → A net of shells."))) in
  Untyped.warm st'
  /\ exists data,
       Untyped._KANJI_DATA st' = Some (Untyped.StoreObject data)
       /\ forall (w' : @Untyped.World nat) (kanji' : str),
            Untyped._ensure_kanji_data w' st' = Ok st'
            /\ Untyped._ensure_radical_index w' st' = Ok st'
            /\ Untyped._ensure_pipe w' st' = Ok st'
            /\ (forall st'' line',
                  Untyped.generate_mnemonic w' st' kanji' = Ok (st'', line') -> st'' = st')
            /\ (Untyped.answerable (data !! strip kanji') ->
                (forall query_text, exists found,
                   Untyped._retrieve_relevant_radicals w' st' query_text 3 = Ok found) ->
                exists line', Untyped.generate_mnemonic w' st' kanji' = Ok (st', line')).
Proof.
  apply (warm_after_first_call
           (lift_world (toy_world (Some (Ok toy_rows))
                          (Ok (u "買 = Net + Shell → A net of shells."))))
           Untyped.initial_state
           (lift_state (toy_st3 (Ok (u "買 = Net + Shell → A net of shells."))))
           (u "買") (u "買 = Net + Shell → A net of shells.")).
  - vm_compute. reflexivity.
  - left. cbn. discriminate.
Defined.

(** A later call in a world where nothing can be read any more, and one
    in which the search raises: the globals are warm, the call raises. *)
Example warm_call_in_unreadable_world :
  snd <$> Untyped.generate_mnemonic (lift_world unreadable_world)
            (lift_state (toy_st3 (Ok (u "買 = Net + Shell → A net of shells.")))) (u "買")
  = Ok (u "買 = Net + Shell → A net of shells.")
  /\ Untyped.generate_mnemonic failing_search_world
       (lift_state (toy_st3 (Ok (u "買 = Net + Shell → A net of shells.")))) (u "買")
     = Raise.
Proof. split; vm_compute; reflexivity. Qed.

(** ** The first model inside the second *)

Section LiftingFacts.
Context {U : PyUnicode} {vec : Type}.

Lemma encode_lift (embed : str -> vec) (sentences : list str) :
  Untyped.encode (lift_embedder embed) sentences = Ok (List.map embed sentences).
Proof.
  induction sentences as [| s rest IH]; [reflexivity |].
  cbn [Untyped.encode List.map]. rewrite IH. reflexivity.
Qed.

Lemma lift_ensure_kanji_data (w : @World vec) (st : @State vec) :
  Untyped._ensure_kanji_data (lift_world w) (lift_state st)
  = lift_state <$> _ensure_kanji_data w st.
Proof.
  unfold Untyped._ensure_kanji_data, _ensure_kanji_data.
  cbn [lift_state Untyped._KANJI_DATA lift_world Untyped.kanji_json].
  destruct (_KANJI_DATA st) as [data |] eqn:Hdata; cbn [fmap option_fmap option_map].
  - cbn. unfold lift_state. rewrite Hdata. reflexivity.
  - destruct (kanji_json w); reflexivity.
Qed.

Lemma lift_ensure_radical_index (w : @World vec) (st : @State vec) :
  Untyped._ensure_radical_index (lift_world w) (lift_state st)
  = lift_state <$> _ensure_radical_index w st.
Proof.
  unfold Untyped._ensure_radical_index, _ensure_radical_index.
  cbn [lift_state Untyped._RADICAL_DOCS Untyped._EMBEDDER Untyped._FAISS_INDEX
       lift_world Untyped.radicals_csv Untyped.sentence_transformer].
  assert (Hbuild :
    match radicals_csv w with
    | Some csv =>
      df ← csv;
      embed ← lift_embedder <$> sentence_transformer w;
      radical_embeddings ← Untyped.encode embed (List.map radical_doc df);
      dim ← Untyped.shape1 (lift_world w) radical_embeddings;
      Ok (Untyped.set_index (lift_state st) (List.map radical_doc df) (Some embed)
            (Some (index_add {| idx_dim := dim; idx_rows := [] |} radical_embeddings)))
    | None => Ok (Untyped.set_index (lift_state st) [] None None)
    end
    = lift_state <$>
      match radicals_csv w with
      | Some csv =>
        df ← csv;
        embed ← sentence_transformer w;
        dim ← shape1 w (List.map embed (List.map radical_doc df));
        Ok (set_index st (List.map radical_doc df) (Some embed)
              (Some (index_add {| idx_dim := dim; idx_rows := [] |}
                       (List.map embed (List.map radical_doc df)))))
      | None => Ok (set_index st [] None None)
      end).
  { destruct (radicals_csv w) as [[df |] |]; try reflexivity.
    cbn [mbind result_bind]. destruct (sentence_transformer w) as [embed |]; [| reflexivity].
    cbn [fmap result_fmap mbind result_bind]. rewrite encode_lift. cbn [mbind result_bind].
    destruct (List.map embed (List.map radical_doc df)); reflexivity. }
  destruct (_RADICAL_DOCS st) as [docs |], (_EMBEDDER st) as [embed |],
    (_FAISS_INDEX st) as [ix |]; cbn [fmap option_fmap option_map]; try exact Hbuild.
  reflexivity.
Qed.

Lemma lift_ensure_pipe (w : @World vec) (st : @State vec) :
  Untyped._ensure_pipe (lift_world w) (lift_state st) = lift_state <$> _ensure_pipe w st.
Proof.
  unfold Untyped._ensure_pipe, _ensure_pipe.
  cbn [lift_state Untyped._PIPE lift_world Untyped.text_generation].
  destruct (_PIPE st); [reflexivity |]. destruct (text_generation w); reflexivity.
Qed.

Lemma lift_retrieve (w : @World vec) (st : @State vec) (query_text : str) (top_k : nat) :
  Untyped._retrieve_relevant_radicals (lift_world w) (lift_state st) query_text top_k
  = _retrieve_relevant_radicals w st query_text top_k.
Proof.
  unfold Untyped._retrieve_relevant_radicals, _retrieve_relevant_radicals.
  cbn [lift_state Untyped._RADICAL_DOCS Untyped._EMBEDDER Untyped._FAISS_INDEX
       lift_world Untyped.faiss_search].
  destruct (_RADICAL_DOCS st) as [[| d docs] |]; try reflexivity.
  destruct (_EMBEDDER st) as [embed |], (_FAISS_INDEX st) as [ix |]; reflexivity.
Qed.

Lemma typed_lift_record (d : KanjiRecord) : Untyped.typed_record (lift_record d) = Some d.
Proof. destruct d as [[m |] [r |] other]; reflexivity. Qed.

(** On a store of well-typed records, with an embedding and a search that
    return, [Untyped.generate_mnemonic] is [generate_mnemonic]. *)
Lemma lift_generate_mnemonic (w : @World vec) (st : @State vec) (kanji : str) :
  Untyped.generate_mnemonic (lift_world w) (lift_state st) kanji
  = (fun out => (lift_state (fst out), snd out)) <$> generate_mnemonic w st kanji.
Proof.
  unfold Untyped.generate_mnemonic, generate_mnemonic.
  rewrite lift_ensure_kanji_data.
  destruct (_ensure_kanji_data w st) as [st1 |]; [| reflexivity].
  cbn [fmap result_fmap mbind result_bind]. rewrite lift_ensure_radical_index.
  destruct (_ensure_radical_index w st1) as [st2 |]; [| reflexivity].
  cbn [fmap result_fmap mbind result_bind]. rewrite lift_ensure_pipe.
  destruct (_ensure_pipe w st2) as [st3 |] eqn:H3; [| reflexivity].
  cbn [fmap result_fmap mbind result_bind]. cbv zeta.
  destruct (ensure_pipe_loaded w st2 st3 H3) as [[pipe Hpipe] _].
  cbn [lift_state Untyped._KANJI_DATA]. rewrite Hpipe.
  destruct (_KANJI_DATA st3) as [data |]; [| reflexivity].
  cbn [fmap option_fmap option_map lift_store]. rewrite lookup_fmap.
  destruct (data !! strip kanji) as [d |]; [| reflexivity].
  cbn [fmap option_fmap option_map Untyped.details_truthy].
  rewrite (typed_record_truthy (lift_record d) d (typed_lift_record d)).
  destruct (record_truthy d); [| reflexivity].
  destruct (_retrieve_relevant_radicals w st3 (join (u " ") (get_list (rec_wk_radicals d))) 3)
    as [found |] eqn:Hfound.
  - rewrite (typed_record_line (lift_world w) (lift_state st3) (lift_record d) d
               (strip kanji) found (typed_lift_record d)).
    + cbn [lift_state Untyped._PIPE]. rewrite Hpipe. reflexivity.
    + rewrite lift_retrieve. exact Hfound.
  - rewrite (typed_record_meanings (lift_record d) d (u ", ") (typed_lift_record d)).
    cbn [mbind result_bind].
    destruct (typed_record_radicals (lift_record d) d (u " + ") (typed_lift_record d))
      as [Hplus ->].
    destruct (typed_record_radicals (lift_record d) d (u " ") (typed_lift_record d))
      as [Hblank _].
    rewrite Hplus, Hblank.
    destruct (get_list (rec_wk_radicals d)); cbn [mbind result_bind];
      rewrite lift_retrieve, Hfound; reflexivity.
Qed.

End LiftingFacts.

(** ** A reply that follows the format *)

Lemma literal_prefix_app (pat s : str) : literal_prefix pat (pat ++ s) = Some s.
Proof.
  induction pat as [| p pat IH]; [destruct s; reflexivity |].
  cbn [app literal_prefix]. rewrite N.eqb_refl. exact IH.
Qed.

Lemma rstrip_by_all (p : char -> bool) (s : str) : forallb p s = true -> rstrip_by p s = [].
Proof.
  induction s as [| c s IH] using rev_ind; [reflexivity |].
  rewrite forallb_app, rstrip_by_snoc. cbn [forallb]. rewrite andb_true_r.
  intros H. apply andb_true_iff in H as [Hs ->]. exact (IH Hs).
Qed.

Lemma strip_padded (a b x : str) (c d : char) :
  is_space c = false -> is_space d = false ->
  forallb is_space a = true -> forallb is_space b = true ->
  strip (a ++ (c :: x ++ [d]) ++ b) = c :: x ++ [d].
Proof.
  intros Hc Hd Ha Hb. unfold strip, lstrip_by.
  replace (a ++ (c :: x ++ [d]) ++ b) with (a ++ c :: (x ++ d :: b))
    by (cbn [app]; rewrite <- !app_assoc; reflexivity).
  rewrite (drop_while_app_keep is_space a c _ Hc), (drop_while_all _ _ Ha). cbn [app].
  change (c :: x ++ d :: b) with ((c :: x) ++ d :: b).
  rewrite (rstrip_by_app_keep is_space (c :: x) d b Hd), (rstrip_by_all _ _ Hb).
  reflexivity.
Qed.

Lemma replace_bar_fix (s : str) : contains BAR s = false -> replace_bar s = s.
Proof.
  unfold replace_bar. induction s as [| c s IH]; [reflexivity |].
  rewrite contains_cons. intros H. apply orb_false_iff in H as [Hc H].
  cbn [List.map]. rewrite N.eqb_sym, Hc, (IH H). reflexivity.
Qed.

Lemma coll_ok_glue (w : bool) (x y : str) (c : char) :
  is_space c = false -> coll_ok w (x ++ [c]) = true -> coll_ok false y = true ->
  coll_ok w (x ++ c :: y) = true.
Proof.
  intros Hc. revert w. induction x as [| d x IH]; intros w; cbn [app coll_ok].
  - rewrite Hc. auto.
  - destruct (is_space d).
    + intros H Hy. apply andb_true_iff in H as [H1 H]. rewrite H1. cbn [andb]. auto.
    + auto.
Qed.

Lemma coll_ok_glue_space (w : bool) (x y : str) :
  coll_ok w (x ++ [SPACE]) = true -> no_leading_space y -> coll_ok false y = true ->
  coll_ok w (x ++ SPACE :: y) = true.
Proof.
  revert w. induction x as [| d x IH]; intros w; cbn [app coll_ok].
  - replace (is_space SPACE) with true by reflexivity.
    intros H Hy Hok. apply andb_true_iff in H as [H1 _]. rewrite H1. cbn [andb].
    destruct y as [| e y]; [reflexivity |]. cbn in Hy. cbn [coll_ok] in *.
    rewrite Hy in *. exact Hok.
  - destruct (is_space d).
    + intros H Hy Hok. apply andb_true_iff in H as [H1 H]. rewrite H1. cbn [andb]. auto.
    + auto.
Qed.

Lemma coll_ok_snoc_space (w : bool) (x : str) (c : char) :
  is_space c = false -> coll_ok w (x ++ [c]) = true ->
  coll_ok w ((x ++ [c]) ++ [SPACE]) = true.
Proof.
  intros Hc. revert w. induction x as [| d x IH]; intros w; cbn [app coll_ok].
  - rewrite Hc. reflexivity.
  - destruct (is_space d).
    + intros H. apply andb_true_iff in H as [H1 H]. rewrite H1. cbn [andb]. auto.
    + auto.
Qed.

Lemma coll_ok_not_newline (w : bool) (s : str) :
  coll_ok w s = true -> forallb not_newline s = true.
Proof.
  revert w. induction s as [| c s IH]; intros w; cbn [coll_ok forallb]; [reflexivity |].
  destruct (is_space c) eqn:Hs.
  - intros H. apply andb_true_iff in H as [H1 H]. apply andb_true_iff in H1 as [_ H1].
    apply N.eqb_eq in H1. subst c. rewrite (IH _ H). reflexivity.
  - intros H. rewrite (IH _ H), andb_true_r. unfold not_newline.
    apply negb_true_iff, N.eqb_neq. intros ->. discriminate Hs.
Qed.

Lemma re_search_line_head (k text m : str) :
  match_line_at k text = Some m -> re_search_line k text = Some m.
Proof. intros H. destruct text; cbn [re_search_line]; rewrite H; reflexivity. Qed.

Lemma plain_parts (s : str) :
  plain s = true ->
  exists c x, s = c :: x /\ is_space c = false
    /\ trimmed s = true /\ coll_ok false s = true
    /\ contains ARROW s = false /\ contains BAR s = false.
Proof.
  unfold plain. rewrite !andb_true_iff, !negb_true_iff.
  intros ((((Hne & Htr) & Hco) & Har) & Hbar).
  destruct s as [| c x]; [discriminate |]. exists c, x.
  repeat split; try assumption. eapply trimmed_head, Htr.
Qed.

Lemma trimmed_last (s : str) (d : char) :
  trimmed s = true -> last_char s = Some d -> is_space d = false.
Proof.
  unfold trimmed. destruct s as [| c s]; [discriminate |]. intros H Hl. rewrite Hl in H.
  apply andb_true_iff in H as [_ H]. apply negb_true_iff in H. exact H.
Qed.

Lemma snoc_parts (s : str) :
  s <> [] -> exists x d, s = x ++ [d] /\ last_char s = Some d.
Proof.
  intros Hs. destruct (exists_last Hs) as (x & d & ->). exists x, d.
  split; [reflexivity | apply last_char_snoc].
Qed.

Lemma coll_ok_sep (a b : str) (c : char) :
  a <> [] -> trimmed a = true -> coll_ok false a = true ->
  no_leading_space b -> coll_ok false b = true -> is_space c = false ->
  coll_ok false (a ++ [SPACE; c; SPACE] ++ b) = true.
Proof.
  intros Ha Htr Hca Hb Hcb Hc.
  destruct (snoc_parts a Ha) as (x & d & -> & Hlast).
  pose proof (trimmed_last _ d Htr Hlast) as Hd.
  pose proof (coll_ok_snoc_space false x d Hd Hca) as H1.
  pose proof (coll_ok_snoc false _ c Hc H1) as H2.
  pose proof (coll_ok_snoc_space false _ c Hc H2) as H3.
  pose proof (coll_ok_glue_space false _ b H3 Hb Hcb) as H4.
  rewrite <- !app_assoc in H4. cbn [app] in H4.
  rewrite <- app_assoc. cbn [app]. exact H4.
Qed.

Section PassThrough.
Context {U : PyUnicode}.

Lemma arrow_line_found (k lhs r : str) :
  plain k = true -> plain lhs = true ->
  coll_ok false r = true ->
  re_search_line k (arrow_line k lhs r) = Some (arrow_line k lhs r).
Proof.
  intros Hk Hlhs Hr. apply re_search_line_head.
  destruct (plain_parts lhs Hlhs) as (cl & lx & -> & Hcl & _ & Hcol & Harl & _).
  unfold arrow_line, match_line_at. rewrite literal_prefix_app.
  change (u " = ") with [SPACE; EQUALS; SPACE].
  change (u " → ") with [SPACE; ARROW; SPACE].
  assert (Hsp : is_space SPACE = true) by reflexivity.
  assert (Heq : is_space EQUALS = false) by reflexivity.
  cbn [app drop_while take_while].
  repeat (rewrite ?Hsp, ?Heq, ?Hcl; cbn [drop_while take_while]).
  rewrite N.eqb_refl. cbn [andb].
  change (cl :: lx ++ SPACE :: ARROW :: SPACE :: r)
    with ((cl :: lx) ++ SPACE :: ARROW :: SPACE :: r).
  rewrite contains_app, (before_first_app ARROW _ _ Harl), (after_first_app ARROW _ _ Harl).
  replace (contains ARROW (SPACE :: ARROW :: SPACE :: r)) with true by reflexivity.
  rewrite orb_true_r.
  replace (before_first ARROW (SPACE :: ARROW :: SPACE :: r)) with [SPACE] by reflexivity.
  replace (after_first ARROW (SPACE :: ARROW :: SPACE :: r)) with (SPACE :: r) by reflexivity.
  rewrite forallb_app, (coll_ok_not_newline _ _ Hcol). cbn [forallb andb].
  replace (not_newline SPACE) with true by reflexivity. cbn [andb].
  cbn [take_while]. replace (not_newline SPACE) with true by reflexivity.
  rewrite (take_while_fix not_newline r (coll_ok_not_newline _ _ Hr)).
  rewrite <- !app_assoc. reflexivity.
Qed.

Lemma arrow_line_clean (k lhs r before after : str) :
  plain k = true -> plain lhs = true ->
  reduced r = true -> r <> [] -> contains BAR r = false ->
  forallb is_space before = true -> forallb is_space after = true ->
  clean_text (strip (before ++ arrow_line k lhs r ++ after)) = arrow_line k lhs r.
Proof.
  intros Hk Hlhs Hred Hne Hbar Hbefore Hafter.
  destruct (plain_parts k Hk) as (ck & kx & Ek & Hck & Htk & Hcok & Hark & Hbark).
  destruct (plain_parts lhs Hlhs) as (cl & lx & El & Hcl & Htl & Hcol & Harl & Hbarl).
  destruct (reduced_parts r Hred) as (_ & _ & _ & _ & Htr).
  assert (Hcor : coll_ok false r = true).
  { unfold reduced in Hred. apply andb_true_iff in Hred as [Hn _].
    apply normal4_parts in Hn. tauto. }
  destruct (snoc_parts r Hne) as (rx & dr & Er & Hlast).
  pose proof (trimmed_last r dr Htr Hlast) as Hdr.
  assert (Hline : arrow_line k lhs r
                  = ck :: (kx ++ u " = " ++ lhs ++ u " → " ++ rx) ++ [dr]).
  { unfold arrow_line. rewrite Ek, Er. cbn [app]. rewrite <- !app_assoc. reflexivity. }
  assert (Hstrip : strip (before ++ arrow_line k lhs r ++ after) = arrow_line k lhs r).
  { rewrite Hline. apply strip_padded; assumption. }
  rewrite Hstrip. unfold clean_text.
  assert (Hnobar : contains BAR (arrow_line k lhs r) = false).
  { unfold arrow_line. rewrite !contains_app, Hbark, Hbarl, Hbar. reflexivity. }
  rewrite (replace_bar_fix _ Hnobar). unfold collapse_ws. apply collapse_fix.
  unfold arrow_line.
  change (u " = ") with [SPACE; EQUALS; SPACE].
  change (u " → ") with [SPACE; ARROW; SPACE].
  apply coll_ok_sep; try assumption; try reflexivity.
  - rewrite Ek. discriminate.
  - rewrite El. cbn. exact Hcl.
  - apply coll_ok_sep; try assumption; try reflexivity.
    + rewrite El. discriminate.
    + destruct r as [| cr r']; [exact I |]. cbn. eapply trimmed_head, Htr.
Qed.

(** X8.  A reply that follows the format comes back as it is.  When the
    pipeline answers with the line [k = lhs → r], alone or between
    whitespace, where [k] and [lhs] are plain and [r] is one reduced
    sentence of at most 120 characters that ends in ".", "!", "?" or the
    ellipsis, holds no bar, and is a right-hand side that lines 163-171
    leave alone, then [generate_mnemonic]'s line is exactly that line. *)
Theorem well_formed_reply_unchanged (pipe : str -> result str)
    (k lhs meanings r before after prompt : str) :
  plain k = true -> plain lhs = true ->
  reduced r = true -> length r <= 120 -> ends_terminal r = true ->
  contains BAR r = false -> stable_right lhs meanings r ->
  forallb is_space before = true -> forallb is_space after = true ->
  pipe prompt = Ok (before ++ (k ++ u " = " ++ lhs ++ u " → " ++ r) ++ after) ->
  generate_line pipe k lhs meanings prompt = k ++ u " = " ++ lhs ++ u " → " ++ r.
Proof.
  intros Hk Hlhs Hred Hlen Hterm Hbar (_ & Hcjk & H6 & H7 & H8) Hbefore Hafter Hpipe.
  assert (Hne : r <> []).
  { intros ->. discriminate Hterm. }
  unfold generate_line. rewrite Hpipe. unfold normalize.
  fold (arrow_line k lhs r).
  rewrite (arrow_line_clean k lhs r before after Hk Hlhs Hred Hne Hbar Hbefore Hafter).
  assert (Hcor : coll_ok false r = true).
  { unfold reduced in Hred. apply andb_true_iff in Hred as [Hn _].
    apply normal4_parts in Hn. tauto. }
  unfold extract_line. rewrite (arrow_line_found k lhs r Hk Hlhs Hcor).
  destruct (plain_parts k Hk) as (ck & kx & Ek & Hck & Htk & Hcok & Hark & Hbark).
  destruct (plain_parts lhs Hlhs) as (cl & lx & El & Hcl & Htl & Hcol & Harl & Hbarl).
  destruct (reduced_parts r Hred) as (_ & _ & _ & _ & Htr).
  destruct (snoc_parts r Hne) as (rx & dr & Er & Hlast).
  pose proof (trimmed_last r dr Htr Hlast) as Hdr.
  destruct (snoc_parts lhs) as (lx' & dl & El' & Hlastl); [rewrite El; discriminate |].
  pose proof (trimmed_last lhs dl Htl Hlastl) as Hdl.
  assert (Hstrip : strip (arrow_line k lhs r) = arrow_line k lhs r).
  { replace (arrow_line k lhs r)
      with ([] ++ (ck :: (kx ++ u " = " ++ lhs ++ u " → " ++ rx) ++ [dr]) ++ []).
    - rewrite strip_padded by (assumption || reflexivity). rewrite app_nil_r. reflexivity.
    - unfold arrow_line. rewrite Ek, Er, app_nil_r. cbn [app].
      rewrite <- !app_assoc. reflexivity. }
  rewrite Hstrip. unfold sanitize_line.
  assert (Hsplit : arrow_line k lhs r = (k ++ u " = " ++ lhs ++ [SPACE]) ++ ARROW :: SPACE :: r).
  { unfold arrow_line. change (u " → ") with [SPACE; ARROW; SPACE].
    rewrite <- !app_assoc. reflexivity. }
  assert (Hpre : contains ARROW (k ++ u " = " ++ lhs ++ [SPACE]) = false).
  { rewrite !contains_app, Hark, Harl. reflexivity. }
  rewrite Hsplit.
  rewrite contains_app, (before_first_app ARROW _ _ Hpre), (after_first_app ARROW _ _ Hpre).
  rewrite contains_cons, N.eqb_refl, orb_true_r.
  replace (before_first ARROW (ARROW :: SPACE :: r)) with (@nil char)
    by (unfold before_first; cbn [take_while]; rewrite N.eqb_refl; reflexivity).
  replace (after_first ARROW (ARROW :: SPACE :: r)) with (SPACE :: r)
    by (unfold after_first; cbn [drop_while]; rewrite N.eqb_refl; reflexivity).
  rewrite app_nil_r.
  assert (Hleft : strip (k ++ u " = " ++ lhs ++ [SPACE]) = k ++ u " = " ++ lhs).
  { replace (k ++ u " = " ++ lhs ++ [SPACE])
      with ([] ++ (ck :: (kx ++ u " = " ++ lx') ++ [dl]) ++ [SPACE]).
    - rewrite strip_padded by (assumption || reflexivity).
      rewrite Ek, El'. cbn [app]. rewrite <- !app_assoc. reflexivity.
    - rewrite Ek, El'. cbn [app]. rewrite <- !app_assoc. reflexivity. }
  rewrite Hleft.
  rewrite (sanitize_right_stable lhs meanings r Hred (or_introl Hlen) Hne Hterm Hcjk H6 H7 H8).
  change (u " → ") with [SPACE; ARROW; SPACE]. rewrite <- !app_assoc. reflexivity.
Qed.

End PassThrough.

Lemma well_formed_reply_unchanged_witness :
  generate_line (fun _ => Ok (u " 買 = Net + Shell → Buying involves catching valuable shells in a net." ++ [NEWLINE]))
    (u "買") (u "Net + Shell") (u "buy") []
  = u "買" ++ u " = " ++ u "Net + Shell" ++ u " → "
      ++ u "Buying involves catching valuable shells in a net.".
Proof.
  apply (well_formed_reply_unchanged _ (u "買") (u "Net + Shell") (u "buy")
           (u "Buying involves catching valuable shells in a net.") [SPACE] [NEWLINE] []).
  - vm_compute. reflexivity.
  - vm_compute. reflexivity.
  - vm_compute. reflexivity.
  - apply Nat.leb_le. vm_compute. reflexivity.
  - vm_compute. reflexivity.
  - vm_compute. reflexivity.
  - unfold stable_right. split; [| split; [| split; [| split]]].
    + left. apply Nat.leb_le. vm_compute. reflexivity.
    + vm_compute. reflexivity.
    + vm_compute. reflexivity.
    + vm_compute. reflexivity.
    + vm_compute. reflexivity.
  - reflexivity.
  - reflexivity.
  - vm_compute. reflexivity.
Defined.

(** ** The line built when nothing is found *)

Lemma drop_while_snoc_space (x : str) :
  drop_while is_space (x ++ [SPACE])
  = match drop_while is_space x with [] => [] | c :: y => (c :: y) ++ [SPACE] end.
Proof.
  induction x as [| c x IH]; [reflexivity |]. cbn [app drop_while].
  destruct (is_space c); [exact IH | reflexivity].
Qed.

Lemma strip_app_space (x : str) : strip (x ++ [SPACE]) = strip x.
Proof.
  unfold strip, lstrip_by. rewrite drop_while_snoc_space.
  destruct (drop_while is_space x) as [| c y]; [reflexivity |].
  rewrite rstrip_by_snoc. reflexivity.
Qed.

Section SynthesizedLine.
Context {U : PyUnicode}.

Lemma synth_line_parts (k lhs meanings : str) :
  synth_line k lhs meanings
  = (k ++ u " = " ++ lhs ++ [SPACE]) ++ ARROW :: SPACE :: synth_sentence meanings.
Proof.
  unfold synth_line, synth_sentence.
  change (u " → Represents ") with ([SPACE; ARROW; SPACE] ++ u "Represents ").
  rewrite <- !app_assoc. reflexivity.
Qed.

Lemma sanitize_synth_line (k lhs meanings : str) :
  contains ARROW k = false -> contains ARROW lhs = false ->
  sanitize_line lhs meanings (synth_line k lhs meanings)
  = strip (k ++ u " = " ++ lhs) ++ u " → "
      ++ sanitize_right lhs meanings (SPACE :: synth_sentence meanings).
Proof.
  intros Hk Hlhs. rewrite synth_line_parts.
  assert (Hpre : contains ARROW (k ++ u " = " ++ lhs ++ [SPACE]) = false).
  { rewrite !contains_app, Hk, Hlhs. reflexivity. }
  unfold sanitize_line.
  rewrite contains_app, (before_first_app ARROW _ _ Hpre), (after_first_app ARROW _ _ Hpre).
  rewrite contains_cons, N.eqb_refl, orb_true_r.
  replace (before_first ARROW (ARROW :: SPACE :: synth_sentence meanings)) with (@nil char)
    by (unfold before_first; cbn [take_while]; rewrite N.eqb_refl; reflexivity).
  replace (after_first ARROW (ARROW :: SPACE :: synth_sentence meanings))
    with (SPACE :: synth_sentence meanings)
    by (unfold after_first; cbn [drop_while]; rewrite N.eqb_refl; reflexivity).
  rewrite app_nil_r.
  replace (k ++ u " = " ++ lhs ++ [SPACE]) with ((k ++ u " = " ++ lhs) ++ [SPACE])
    by (rewrite <- !app_assoc; reflexivity).
  rewrite strip_app_space. reflexivity.
Qed.

Lemma synth_sentence_terminal (meanings : str) :
  synth_sentence meanings <> [] /\ ends_terminal (synth_sentence meanings) = true.
Proof.
  unfold synth_sentence. split.
  - change (u "Represents ") with (0x52%N :: skipn 1 (u "Represents ")). discriminate.
  - unfold ends_terminal. rewrite app_assoc.
    rewrite last_char_app by (vm_compute; discriminate).
    vm_compute. reflexivity.
Qed.

(** C6, amended.  When the search finds no arrow line in the cleaned
    text, the line built is "<k> = <lhs> → Represents <meanings,
    lowercased> through its parts.", and it is then sanitized like a line
    that was found: with [k] and [lhs] free of arrows, the normaliser
    returns the stripped left-hand side, the arrow, and the sanitized
    sentence.  This is the line built itself when [k] and [lhs] are not
    empty and stripped and the sentence is one reduced sentence of at most
    120 characters that lines 163-171 leave alone. *)
Theorem no_match_synthesizes_line (k lhs meanings raw : str) :
  let sentence := u "Represents " ++ str_lower meanings ++ u " through its parts." in
  re_search_line k (clean_text (strip raw)) = None ->
  extract_line k lhs meanings (clean_text (strip raw))
  = k ++ u " = " ++ lhs ++ u " → " ++ sentence
  /\ (contains ARROW k = false -> contains ARROW lhs = false ->
      normalize k lhs meanings raw
      = strip (k ++ u " = " ++ lhs) ++ u " → "
          ++ sanitize_right lhs meanings (SPACE :: sentence)
      /\ (k <> [] -> trimmed k = true -> lhs <> [] -> trimmed lhs = true ->
          reduced sentence = true -> length sentence <= 120 ->
          stable_right lhs meanings sentence ->
          normalize k lhs meanings raw = k ++ u " = " ++ lhs ++ u " → " ++ sentence)).
Proof.
  intros sentence Hnone.
  assert (Hline : extract_line k lhs meanings (clean_text (strip raw))
                  = synth_line k lhs meanings).
  { unfold extract_line. rewrite Hnone. reflexivity. }
  split.
  { rewrite Hline, synth_line_parts. fold sentence.
    change (u " → ") with [SPACE; ARROW; SPACE]. rewrite <- !app_assoc. reflexivity. }
  intros Hk Hlhs.
  assert (Hnorm : normalize k lhs meanings raw
                  = strip (k ++ u " = " ++ lhs) ++ u " → "
                      ++ sanitize_right lhs meanings (SPACE :: sentence)).
  { unfold normalize. rewrite Hline. apply (sanitize_synth_line k lhs meanings Hk Hlhs). }
  split; [exact Hnorm |].
  intros Hkne Hktr Hlne Hltr Hred Hlen (_ & Hcjk & H6 & H7 & H8).
  rewrite Hnorm.
  destruct (synth_sentence_terminal meanings) as [Hne Hterm]. fold sentence in Hne, Hterm.
  rewrite (sanitize_right_stable lhs meanings sentence Hred (or_introl Hlen) Hne Hterm
             Hcjk H6 H7 H8).
  destruct k as [| ck kx]; [congruence |].
  destruct (snoc_parts lhs Hlne) as (lx & dl & El & Hlast).
  pose proof (trimmed_head ck kx Hktr) as Hck.
  pose proof (trimmed_last lhs dl Hltr Hlast) as Hdl.
  replace ((ck :: kx) ++ u " = " ++ lhs)
    with ([] ++ (ck :: (kx ++ u " = " ++ lx) ++ [dl]) ++ [])
    by (rewrite El, app_nil_r; cbn [app]; rewrite <- !app_assoc; reflexivity).
  rewrite strip_padded by (assumption || reflexivity).
  rewrite El. cbn [app]. rewrite <- !app_assoc. reflexivity.
Qed.

End SynthesizedLine.

Lemma no_match_synthesizes_line_witness :
  normalize (u "買") (u "Net + Shell") (u "buy, purchase") (u "I cannot | help with that.")
  = u "買" ++ u " = " ++ u "Net + Shell" ++ u " → "
      ++ (u "Represents " ++ str_lower (u "buy, purchase") ++ u " through its parts.").
Proof.
  apply (no_match_synthesizes_line (u "買") (u "Net + Shell") (u "buy, purchase")
           (u "I cannot | help with that.")).
  - vm_compute. reflexivity.
  - vm_compute. reflexivity.
  - vm_compute. reflexivity.
  - discriminate.
  - vm_compute. reflexivity.
  - discriminate.
  - vm_compute. reflexivity.
  - vm_compute. reflexivity.
  - apply Nat.leb_le. vm_compute. reflexivity.
  - unfold stable_right. split; [| split; [| split; [| split]]].
    + left. apply Nat.leb_le. vm_compute. reflexivity.
    + vm_compute. reflexivity.
    + vm_compute. reflexivity.
    + vm_compute. reflexivity.
    + vm_compute. reflexivity.
Defined.

(** C6, as stated, fails: the line built goes through the sanitizing of
    lines 161-177.  With neither radicals nor meanings its doubled blanks
    are taken out, and a long list of meanings is cut at 120 characters
    and gets the ellipsis. *)
Lemma synthesized_line_is_sanitized :
  re_search_line (u "買") (clean_text (strip (u "I cannot help with that."))) = None
  /\ synth_line (u "買") [] [] = u "買 =  → Represents  through its parts."
  /\ normalize (u "買") [] [] (u "I cannot help with that.")
     = u "買 = → Represents through its parts."
  /\ synth_line (u "買") (u "Net + Shell")
       (u "buy, purchase, acquire, obtain, procure, shop for, pay for, trade for, barter for, bargain for, deal in")
     = u "買 = Net + Shell → Represents buy, purchase, acquire, obtain, procure, shop for, pay for, trade for, barter for, bargain for, deal in through its parts."
  /\ normalize (u "買") (u "Net + Shell")
       (u "buy, purchase, acquire, obtain, procure, shop for, pay for, trade for, barter for, bargain for, deal in")
       (u "I cannot help with that.")
     = u "買 = Net + Shell → Represents buy, purchase, acquire, obtain, procure, shop for, pay for, trade for, barter for, bargain for, deal in throu…".
Proof. repeat split; vm_compute; reflexivity. Qed.

(** ** The page's fallback line and the core's *)

Section AppFallbackFacts.
Context {U : PyUnicode}.

Lemma str_lower_meaning : str_lower (u "meaning") = u "meaning".
Proof. rewrite str_lower_ascii by (vm_compute; reflexivity). vm_compute. reflexivity. Qed.

Lemma str_lower_empty : str_lower [] = [].
Proof. rewrite str_lower_ascii; reflexivity. Qed.

Lemma join_nil_nonempty (sep : str) (parts : list str) :
  nonempty (join sep parts) = true -> parts <> [].
Proof. destruct parts; [discriminate | discriminate]. Qed.

(** X9.  For a record whose left-hand side is not empty and whose
    meanings are either absent or join to a non-empty text, the fallback
    line of the page is the last-resort line of the core. *)
Theorem app_fallback_agrees_with_core (k : str) (info : KanjiRecord) :
  nonempty (lhs_of info) = true ->
  get_list (rec_meanings info) = [] \/ nonempty (meanings_of info) = true ->
  app_fallback k info = fallback_line k (lhs_of info) (meanings_of info).
Proof.
  intros Hlhs Hmean. unfold app_fallback, fallback_line. rewrite Hlhs.
  unfold lhs_of, meanings_of in *.
  destruct (get_list (rec_meanings info)) as [| m ms] eqn:Hm.
  - cbn [join]. rewrite str_lower_empty, str_lower_meaning. cbn [nonempty].
    destruct (get_list (rec_wk_radicals info)) as [| r rs]; [discriminate | reflexivity].
  - destruct Hmean as [Hmean | Hmean]; [discriminate |].
    apply nonempty_true in Hmean.
    pose proof (str_lower_nonempty _ Hmean) as Hlow. apply nonempty_true in Hlow.
    rewrite Hlow.
    destruct (get_list (rec_wk_radicals info)) as [| r rs]; reflexivity.
Qed.

End AppFallbackFacts.

Lemma app_fallback_agrees_with_core_witness :
  app_fallback (u "買") kai_record
  = fallback_line (u "買") (lhs_of kai_record) (meanings_of kai_record).
Proof.
  apply (app_fallback_agrees_with_core (u "買") kai_record).
  - vm_compute. reflexivity.
  - right. vm_compute. reflexivity.
Defined.

(** Where the two part: a record with neither meanings nor radicals. *)
Example app_fallback_bare_record :
  let info := {| rec_meanings := None; rec_wk_radicals := None; rec_other_keys := true |} in
  app_fallback (u "買") info = u "買 = meaning → Represents meaning through its parts."
  /\ fallback_line (u "買") (lhs_of info) (meanings_of info)
     = u "買 = — → Represents meaning through its parts.".
Proof. split; vm_compute; reflexivity. Qed.

(** ** [_find_radicals_csv]: the greatest name, the newest snapshot *)

Lemma str_ltb_irrefl (a : str) : str_ltb a a = false.
Proof.
  induction a as [| x a IH]; [reflexivity |]. cbn [str_ltb].
  rewrite N.ltb_irrefl, N.eqb_refl, IH. reflexivity.
Qed.

Lemma str_ltb_cons (x y : char) (a b : str) :
  str_ltb (x :: a) (y :: b) = (x <? y)%N || ((x =? y)%N && str_ltb a b).
Proof. reflexivity. Qed.

(** [c < a] and [a <= b] give [c < b]. *)
Lemma str_ltb_le_trans (c a b : str) :
  str_ltb c a = true -> str_ltb b a = false -> str_ltb c b = true.
Proof.
  revert a b. induction c as [| x c IH]; intros [| y a] [| z b]; cbn [str_ltb];
    try discriminate; try reflexivity.
  destruct (N.ltb_spec x y), (N.eqb_spec x y), (N.ltb_spec z y), (N.eqb_spec z y),
    (N.ltb_spec x z), (N.eqb_spec x z); cbn [orb andb];
    try discriminate; try reflexivity; try lia.
  apply IH.
Qed.

Lemma str_ltb_asym (a b : str) : str_ltb a b = true -> str_ltb b a = false.
Proof.
  revert b. induction a as [| x a IH]; intros [| y b]; cbn [str_ltb];
    try discriminate; try reflexivity.
  destruct (N.ltb_spec x y), (N.eqb_spec x y), (N.ltb_spec y x), (N.eqb_spec y x);
    cbn [orb andb]; try discriminate; try reflexivity; try lia.
  apply IH.
Qed.

Lemma str_le_trans (a b c : str) : str_le a b -> str_le b c -> str_le a c.
Proof.
  unfold str_le. intros Hab Hbc. destruct (str_ltb c a) eqn:Hca; [| reflexivity].
  rewrite (str_ltb_le_trans c a b Hca Hab) in Hbc. discriminate.
Qed.

Lemma insert_sorted_Forall (P : str -> Prop) (x : str) (l : list str) :
  Forall P (insert_sorted x l) <-> P x /\ Forall P l.
Proof.
  induction l as [| y l IH]; cbn [insert_sorted].
  - split; [intros H; inversion H; auto | intros [H _]; auto].
  - destruct (str_ltb y x).
    + rewrite !List.Forall_cons_iff, IH. tauto.
    + rewrite !List.Forall_cons_iff. tauto.
Qed.

Lemma sorted_Forall (P : str -> Prop) (l : list str) :
  Forall P (sorted l) <-> Forall P l.
Proof.
  induction l as [| x l IH]; [reflexivity |]. unfold sorted in *. cbn [fold_right].
  rewrite insert_sorted_Forall, List.Forall_cons_iff, IH. reflexivity.
Qed.

Lemma insert_sorted_In (z x : str) (l : list str) :
  In z (insert_sorted x l) <-> z = x \/ In z l.
Proof.
  induction l as [| y l IH]; cbn [insert_sorted].
  - cbn. intuition congruence.
  - destruct (str_ltb y x); cbn [In]; [rewrite IH |]; intuition congruence.
Qed.

Lemma sorted_In (z : str) (l : list str) : In z (sorted l) <-> In z l.
Proof.
  induction l as [| x l IH]; [reflexivity |]. unfold sorted in *. cbn [fold_right In].
  rewrite insert_sorted_In, IH. intuition congruence.
Qed.

Lemma insert_sorted_ascending (x : str) (l : list str) :
  StronglySorted str_le l -> StronglySorted str_le (insert_sorted x l).
Proof.
  induction 1 as [| y l Hl IH Hy]; cbn [insert_sorted].
  - repeat constructor.
  - destruct (str_ltb y x) eqn:Hyx.
    + constructor; [exact IH |]. apply insert_sorted_Forall. split; [| exact Hy].
      apply str_ltb_asym, Hyx.
    + constructor; [constructor; assumption |]. constructor; [exact Hyx |].
      eapply List.Forall_impl; [| exact Hy]. intros z Hz. cbv beta in Hz.
      apply (str_le_trans x y z); [exact Hyx | exact Hz].
Qed.

Lemma sorted_ascending (l : list str) : StronglySorted str_le (sorted l).
Proof.
  induction l as [| x l IH]; [constructor |]. apply insert_sorted_ascending, IH.
Qed.

Lemma last_ascending (l : list str) (p : str) :
  StronglySorted str_le l -> List.last (List.map Some l) None = Some p ->
  In p l /\ Forall (fun n => str_le n p) l.
Proof.
  induction 1 as [| y l Hl IH Hy]; [discriminate |].
  destruct l as [| z l].
  - cbn. intros [= <-]. split; [auto |]. constructor; [apply str_ltb_irrefl | constructor].
  - intros Hlast. change (List.last (List.map Some (z :: l)) None = Some p) in Hlast.
    destruct (IH Hlast) as [Hin Hall]. split; [right; exact Hin |].
    constructor; [| exact Hall].
    rewrite List.Forall_forall in Hy. apply Hy, Hin.
Qed.

Lemma find_some (listing : list str) (p : str) :
  _find_radicals_csv listing = Some p ->
  In p listing /\ glob_match p = true
  /\ forall n, In n listing -> glob_match n = true -> str_ltb p n = false.
Proof.
  unfold _find_radicals_csv.
  pose proof (sorted_ascending (List.filter glob_match listing)) as Hasc.
  assert (Hmem : forall z, In z (sorted (List.filter glob_match listing))
                           <-> In z listing /\ glob_match z = true).
  { intros z. rewrite sorted_In. apply List.filter_In. }
  destruct (sorted (List.filter glob_match listing)) as [| c cs]; [discriminate |].
  intros Hlast. destruct (last_ascending (c :: cs) p Hasc Hlast) as [Hin Hall].
  destruct (proj1 (Hmem p) Hin) as [Hp Hm]. repeat split; try assumption.
  intros n Hn Hnm. rewrite List.Forall_forall in Hall. apply (Hall n), Hmem. auto.
Qed.

Lemma find_none (listing : list str) :
  _find_radicals_csv listing = None <-> forall n, In n listing -> glob_match n = false.
Proof.
  unfold _find_radicals_csv.
  assert (Hmem : forall z, In z (sorted (List.filter glob_match listing))
                           <-> In z listing /\ glob_match z = true).
  { intros z. rewrite sorted_In. apply List.filter_In. }
  destruct (sorted (List.filter glob_match listing)) as [| c cs].
  - split; [intros _ | reflexivity]. intros n Hn.
    destruct (glob_match n) eqn:Hm; [| reflexivity].
    destruct (proj2 (Hmem n) (conj Hn Hm)).
  - split.
    + intros Hlast. exfalso.
      change (List.last (List.map Some (c :: cs)) None = None) in Hlast.
      destruct (exists_last (l := c :: cs)) as (l' & p & Heq); [discriminate |].
      rewrite Heq, List.map_app in Hlast. cbn [List.map] in Hlast.
      rewrite last_last in Hlast. discriminate.
    + intros Hall. exfalso.
      destruct (proj1 (Hmem c) (or_introl eq_refl)) as [Hin Hm].
      rewrite (Hall c Hin) in Hm. discriminate.
Qed.

(** X10.  [_find_radicals_csv] gives nothing exactly when no name of the
    directory matches the pattern; otherwise it gives a matching name of
    the directory that no matching name exceeds in the order of the code
    points. *)
Theorem find_radicals_csv_greatest (listing : list str) :
  (_find_radicals_csv listing = None
   <-> Forall (fun n => glob_match n = false) listing)
  /\ (forall p, _find_radicals_csv listing = Some p ->
        In p listing /\ glob_match p = true
        /\ Forall (fun n => glob_match n = true -> str_ltb p n = false) listing).
Proof.
  split.
  - rewrite find_none, List.Forall_forall. reflexivity.
  - intros p Hfind. destruct (find_some listing p Hfind) as (Hin & Hm & Hmax).
    split; [exact Hin | split; [exact Hm |]].
    apply List.Forall_forall. intros n Hn Hnm. exact (Hmax n Hn Hnm).
Qed.

(** *** Snapshots: the order of the names is the order of the moments *)

Lemma glob_match_csv_path (timestamp : str) : glob_match (csv_path timestamp) = true.
Proof.
  unfold glob_match, csv_path. rewrite literal_prefix_app. unfold ends_with.
  rewrite rev_app_distr, literal_prefix_app. reflexivity.
Qed.

Lemma str_ltb_app_prefix (p a b : str) : str_ltb (p ++ a) (p ++ b) = str_ltb a b.
Proof.
  induction p as [| x p IH]; [reflexivity |]. cbn [app str_ltb].
  rewrite N.ltb_irrefl, N.eqb_refl, IH. reflexivity.
Qed.

Lemma two_digits_shape (n : N) :
  (n < 100)%N ->
  exists q r, (q < 10 /\ r < 10 /\ n = 10 * q + r)%N
    /\ two_digits n = [(48 + q)%N; (48 + r)%N].
Proof.
  intros Hn. exists (n / 10)%N, (n mod 10)%N.
  assert (Hq : (n / 10 < 10)%N) by (apply N.Div0.div_lt_upper_bound; lia).
  split; [split; [exact Hq | split; [apply N.mod_lt; discriminate | apply N.div_mod']] |].
  unfold two_digits, digit. rewrite (N.mod_small _ _ Hq). reflexivity.
Qed.

Lemma two_digits_order (n m : N) (a b : str) :
  (n < 100)%N -> (m < 100)%N ->
  str_ltb (two_digits n ++ a) (two_digits m ++ b)
  = (n <? m)%N || ((n =? m)%N && str_ltb a b).
Proof.
  intros Hn Hm.
  destruct (two_digits_shape n Hn) as (qn & rn & (Hqn & Hrn & ->) & ->).
  destruct (two_digits_shape m Hm) as (qm & rm & (Hqm & Hrm & ->) & ->).
  cbn [app str_ltb].
  destruct (str_ltb a b);
    destruct (N.ltb_spec (10 * qn + rn) (10 * qm + rm)),
      (N.eqb_spec (10 * qn + rn) (10 * qm + rm)),
      (N.ltb_spec (48 + qn) (48 + qm)), (N.eqb_spec (48 + qn) (48 + qm)),
      (N.ltb_spec (48 + rn) (48 + rm)), (N.eqb_spec (48 + rn) (48 + rm));
    cbn [orb andb]; try reflexivity; lia.
Qed.

Lemma four_digits_split (n : N) :
  four_digits n = two_digits (n / 100) ++ two_digits (n mod 100).
Proof.
  unfold four_digits, two_digits, digit. cbn [app].
  assert (H1 : ((n / 100 / 10) mod 10 = (n / 1000) mod 10)%N).
  { rewrite N.Div0.div_div. reflexivity. }
  assert (H2 : ((n mod 100 / 10) mod 10 = (n / 10) mod 10)%N).
  { change 100%N with (10 * 10)%N. rewrite N.Div0.mod_mul_r.
    rewrite (N.mul_comm 10), N.div_add by discriminate.
    rewrite (N.div_small (n mod 10)) by (apply N.mod_lt; discriminate).
    rewrite N.add_0_l, N.Div0.mod_mod. reflexivity. }
  assert (H3 : ((n mod 100) mod 10 = n mod 10)%N).
  { change 100%N with (10 * 10)%N. rewrite N.Div0.mod_mul_r.
    rewrite (N.mul_comm 10), N.Div0.mod_add, N.Div0.mod_mod. reflexivity. }
  rewrite H1, H2, H3. reflexivity.
Qed.

Lemma four_digits_order (n m : N) (a b : str) :
  (n < 10000)%N -> (m < 10000)%N ->
  str_ltb (four_digits n ++ a) (four_digits m ++ b)
  = (n <? m)%N || ((n =? m)%N && str_ltb a b).
Proof.
  intros Hn Hm. rewrite !four_digits_split, <- !app_assoc.
  assert (Hqn : (n / 100 < 100)%N) by (apply N.Div0.div_lt_upper_bound; lia).
  assert (Hqm : (m / 100 < 100)%N) by (apply N.Div0.div_lt_upper_bound; lia).
  assert (Hrn : (n mod 100 < 100)%N) by (apply N.mod_lt; discriminate).
  assert (Hrm : (m mod 100 < 100)%N) by (apply N.mod_lt; discriminate).
  rewrite (two_digits_order _ _ _ _ Hqn Hqm), (two_digits_order _ _ _ _ Hrn Hrm).
  pose proof (N.div_mod' n 100) as En. pose proof (N.div_mod' m 100) as Em.
  revert En Em Hrn Hrm.
  generalize (n / 100)%N (n mod 100)%N (m / 100)%N (m mod 100)%N.
  intros qn rn qm rm En Em Hrn Hrm.
  destruct (str_ltb a b);
    destruct (N.ltb_spec n m), (N.eqb_spec n m),
      (N.ltb_spec qn qm), (N.eqb_spec qn qm), (N.ltb_spec rn rm), (N.eqb_spec rn rm);
    cbn [orb andb]; try reflexivity; lia.
Qed.

Lemma csv_path_order (a b : DateTime) :
  valid_datetime a -> valid_datetime b ->
  str_ltb (csv_path (strftime a)) (csv_path (strftime b)) = earlier a b.
Proof.
  intros (Ya & Ma & Da & Ha & Mia & Sa) (Yb & Mb & Db & Hb & Mib & Sb).
  unfold csv_path, strftime. rewrite str_ltb_app_prefix, <- !app_assoc.
  change (u "_") with [0x5F%N]. cbn [app].
  rewrite four_digits_order by lia.
  rewrite !two_digits_order by lia.
  rewrite str_ltb_cons, N.ltb_irrefl, N.eqb_refl. cbn [orb andb].
  rewrite !two_digits_order by lia.
  rewrite str_ltb_irrefl. reflexivity.
Qed.

(** X11.  When every matching name of the directory is a snapshot that
    [radical_visual_form.py] wrote (at a moment from the year 1000 on) and
    at least one is there, [_find_radicals_csv] gives the newest of them:
    no snapshot of the directory was written later. *)
Theorem find_radicals_csv_newest (listing : list str) (dts : list DateTime)
    (d : DateTime) :
  Forall valid_datetime dts ->
  (forall n, In n listing -> glob_match n = true ->
     exists t, In t dts /\ n = csv_path (strftime t)) ->
  In d dts -> In (csv_path (strftime d)) listing ->
  exists newest,
    In newest dts
    /\ _find_radicals_csv listing = Some (csv_path (strftime newest))
    /\ forall t, In t dts -> In (csv_path (strftime t)) listing ->
         earlier newest t = false.
Proof.
  intros Hvalid Hsnap Hd Hin. rewrite List.Forall_forall in Hvalid.
  destruct (_find_radicals_csv listing) as [p |] eqn:Hfind.
  - destruct (find_some listing p Hfind) as (Hp & Hm & Hmax).
    destruct (Hsnap p Hp Hm) as (newest & Hnewest & ->).
    exists newest. repeat split; [exact Hnewest |].
    intros t Ht Htin.
    rewrite <- (csv_path_order newest t (Hvalid _ Hnewest) (Hvalid _ Ht)).
    apply Hmax; [exact Htin | apply glob_match_csv_path].
  - exfalso. pose proof (proj1 (find_none listing) Hfind _ Hin) as H.
    rewrite glob_match_csv_path in H. discriminate.
Qed.

Example strftime_example : strftime snapshot_2025 = u "20250102_030405".
Proof. vm_compute. reflexivity. Qed.

Example find_radicals_csv_example :
  _find_radicals_csv toy_listing = Some (u "radicals_with_visual_form_20250102_030405.csv").
Proof. vm_compute. reflexivity. Qed.

Lemma find_radicals_csv_newest_witness :
  exists newest,
    In newest [snapshot_2024; snapshot_2025]
    /\ _find_radicals_csv toy_listing = Some (csv_path (strftime newest))
    /\ forall t, In t [snapshot_2024; snapshot_2025] ->
         In (csv_path (strftime t)) toy_listing -> earlier newest t = false.
Proof.
  apply (find_radicals_csv_newest toy_listing [snapshot_2024; snapshot_2025] snapshot_2024).
  - repeat constructor; vm_compute; discriminate.
  - intros n [<- | [<- | [<- | [<- | []]]]]; vm_compute; intros H; try discriminate H.
    + exists snapshot_2025. split; [right; left; reflexivity | reflexivity].
    + exists snapshot_2024. split; [left; reflexivity | reflexivity].
  - left. reflexivity.
  - right. right. left. vm_compute. reflexivity.
Defined.

(** ** The retry loop of [generate_visual_form_ollama] *)

Lemma attempts_spec (ollama : nat -> str -> RunOutcome) (radical prompt : str)
    (n : nat) (e : Effects) :
  let response := fst (attempts ollama radical prompt n e) in
  let e' := snd (attempts ollama radical prompt n e) in
  logged e' = logged e
  /\ ((exists i stdout,
         i < n
         /\ (forall j, j < i -> failed (ollama (runs e + j) prompt))
         /\ ollama (runs e + i) prompt = Completed stdout
         /\ response = strip stdout
         /\ runs e' = runs e + i + 1
         /\ slept e' = slept e + i
         /\ length (printed e') = length (printed e) + i)
      \/ ((forall j, j < n -> failed (ollama (runs e + j) prompt))
          /\ response = []
          /\ runs e' = runs e + n
          /\ slept e' = slept e + n
          /\ length (printed e') = length (printed e) + n)).
Proof.
  revert e. induction n as [| n IH]; intros e; cbn zeta.
  - cbn [attempts fst snd]. split; [reflexivity |]. right.
    repeat split; try lia; intros j Hj; lia.
  - cbn [attempts].
    assert (Hstep : forall msg,
      failed (ollama (runs e) prompt) ->
      let e1 := sleep 1 (safe_print msg (ran e)) in
      let response := fst (attempts ollama radical prompt n e1) in
      let e' := snd (attempts ollama radical prompt n e1) in
      logged e' = logged e
      /\ ((exists i stdout,
             i < S n
             /\ (forall j, j < i -> failed (ollama (runs e + j) prompt))
             /\ ollama (runs e + i) prompt = Completed stdout
             /\ response = strip stdout
             /\ runs e' = runs e + i + 1
             /\ slept e' = slept e + i
             /\ length (printed e') = length (printed e) + i)
          \/ ((forall j, j < S n -> failed (ollama (runs e + j) prompt))
              /\ response = []
              /\ runs e' = runs e + S n
              /\ slept e' = slept e + S n
              /\ length (printed e') = length (printed e) + S n))).
    { intros msg Hfail e1 response e'. subst response e'.
      assert (Hfirst : forall j, (forall j', j' < j -> failed (ollama (runs e1 + j') prompt)) ->
                forall j', j' < S j -> failed (ollama (runs e + j') prompt)).
      { intros j Hall [| j'] Hj'.
        - rewrite Nat.add_0_r. exact Hfail.
        - replace (runs e + S j') with (runs e1 + j') by (subst e1; cbn; lia).
          apply Hall. lia. }
      destruct (IH e1) as [Hlog [(i & out & Hi & Hbefore & Hrun & Hresp & Hruns & Hslept & Hpr)
                                | (Hall & Hresp & Hruns & Hslept & Hpr)]].
      - split; [rewrite Hlog; reflexivity |]. left. exists (S i), out.
        split; [lia |]. split; [exact (Hfirst i Hbefore) |].
        split; [replace (runs e + S i) with (runs e1 + i) by (subst e1; cbn; lia); exact Hrun |].
        split; [exact Hresp |].
        subst e1. cbn in Hruns, Hslept, Hpr. rewrite length_app in Hpr. cbn in Hpr.
        repeat split; lia.
      - split; [rewrite Hlog; reflexivity |]. right.
        split; [exact (Hfirst n Hall) |]. split; [exact Hresp |].
        subst e1. cbn in Hruns, Hslept, Hpr. rewrite length_app in Hpr. cbn in Hpr.
        repeat split; lia. }
    destruct (ollama (runs e) prompt) as [stdout | stderr | message] eqn:Hrun.
    + cbn [fst snd]. split; [reflexivity |]. left. exists 0, stdout.
      rewrite !Nat.add_0_r. cbn [ran runs slept printed].
      repeat split; try lia; try assumption; intros j Hj; lia.
    + apply Hstep. exact I.
    + apply Hstep. exact I.
Qed.

(** X12.  [generate_visual_form_ollama] runs the model until a run
    completes, [retries] times at most: it returns the stripped output of
    the first run that completes and starts no run after it; every failed
    run costs one printed warning and one second of sleep; when no run
    completes (none is started for [retries <= 0]) it returns the empty
    string.  Nothing is written to the log. *)
Theorem visual_form_first_completed (ollama : nat -> str -> RunOutcome)
    (radical meaning : str) (retries : Z) (e e' : Effects) (response : str) :
  generate_visual_form_ollama ollama radical meaning retries e = (response, e') ->
  let prompt := visual_prompt radical meaning in
  let n := Z.to_nat retries in
  logged e' = logged e
  /\ ((exists i stdout,
         i < n
         /\ (forall j, j < i -> failed (ollama (runs e + j) prompt))
         /\ ollama (runs e + i) prompt = Completed stdout
         /\ response = strip stdout
         /\ runs e' = runs e + i + 1
         /\ slept e' = slept e + i
         /\ length (printed e') = length (printed e) + i)
      \/ ((forall j, j < n -> failed (ollama (runs e + j) prompt))
          /\ response = []
          /\ runs e' = runs e + n
          /\ slept e' = slept e + n
          /\ length (printed e') = length (printed e) + n)).
Proof.
  unfold generate_visual_form_ollama. intros Hcall. cbv zeta.
  pose proof (attempts_spec ollama radical (visual_prompt radical meaning)
                (Z.to_nat retries) e) as H.
  cbv zeta in H. rewrite Hcall in H. exact H.
Qed.

Example visual_form_second_run :
  generate_visual_form_ollama flaky_ollama (u "山") (u "mountain") 2 no_effects
  = (u "three peaks",
     {| runs := 2; printed := [u "⚠️ Ollama error for 山: model not found"];
        slept := 1; logged := [] |}).
Proof. vm_compute. reflexivity. Qed.

Lemma visual_form_first_completed_witness :
  logged {| runs := 2; printed := [u "⚠️ Ollama error for 山: model not found"];
            slept := 1; logged := [] |} = logged no_effects
  /\ ((exists i stdout,
         i < Z.to_nat 2
         /\ (forall j, j < i ->
               failed (flaky_ollama (runs no_effects + j)
                         (visual_prompt (u "山") (u "mountain"))))
         /\ flaky_ollama (runs no_effects + i) (visual_prompt (u "山") (u "mountain"))
            = Completed stdout
         /\ u "three peaks" = strip stdout
         /\ 2 = runs no_effects + i + 1
         /\ 1 = slept no_effects + i
         /\ 1 = length (printed no_effects) + i)
      \/ ((forall j, j < Z.to_nat 2 ->
             failed (flaky_ollama (runs no_effects + j)
                       (visual_prompt (u "山") (u "mountain"))))
          /\ u "three peaks" = []
          /\ 2 = runs no_effects + Z.to_nat 2
          /\ 1 = slept no_effects + Z.to_nat 2
          /\ 1 = length (printed no_effects) + Z.to_nat 2)).
Proof.
  apply (visual_form_first_completed flaky_ollama (u "山") (u "mountain") 2 no_effects
           {| runs := 2; printed := [u "⚠️ Ollama error for 山: model not found"];
              slept := 1; logged := [] |} (u "three peaks")).
  vm_compute. reflexivity.
Defined.

(** ** The batch *)

Lemma visual_row_bounds (ollama : nat -> str -> RunOutcome) (row : str * str) (e : Effects) :
  let e' := snd (visual_row ollama row e) in
  length (logged e') = length (logged e) + 1
  /\ runs e + 1 <= runs e' <= runs e + 2
  /\ slept e + 1 <= slept e' <= slept e + (runs e' - runs e) + 1.
Proof.
  unfold visual_row, generate_visual_form_ollama.
  set (e0 := safe_print _ e).
  pose proof (attempts_spec ollama (fst row) (visual_prompt (fst row) (snd row))
                (Z.to_nat 2) e0) as H.
  cbv zeta in H.
  destruct (attempts ollama (fst row) (visual_prompt (fst row) (snd row)) (Z.to_nat 2) e0)
    as [visual e1].
  cbn [fst snd] in H. cbn [snd sleep log_write safe_print runs slept logged].
  rewrite length_app. cbn [length].
  change (runs e0) with (runs e) in H. change (slept e0) with (slept e) in H.
  change (logged e0) with (logged e) in H.
  change (Z.to_nat 2) with 2 in H.
  destruct H as [Hlog [(i & out & Hi & _ & _ & _ & Hruns & Hslept & _)
                      | (_ & _ & Hruns & Hslept & _)]];
    rewrite Hlog; repeat split; lia.
Qed.

(** X13.  The batch appends one visual form per row, so the new column
    has the length of the table, and writes one log line per row; with
    the default of two attempts it starts between one and two runs of the
    model per row, and sleeps at least one second per row and at most one
    second per row and per run, so at most three seconds per row. *)
Theorem visual_forms_bounds (ollama : nat -> str -> RunOutcome) (rows : list (str * str))
    (e e' : Effects) (visuals : list str) :
  visual_forms ollama rows e = (visuals, e') ->
  length visuals = length rows
  /\ length (logged e') = length (logged e) + length rows
  /\ runs e + length rows <= runs e' <= runs e + 2 * length rows
  /\ slept e + length rows <= slept e' <= slept e + (runs e' - runs e) + length rows
  /\ slept e' <= slept e + 3 * length rows.
Proof.
  revert e e' visuals. induction rows as [| row rows IH]; intros e e' visuals.
  - cbn [visual_forms]. intros [= <- <-]. cbn [length]. repeat split; lia.
  - cbn [visual_forms].
    pose proof (visual_row_bounds ollama row e) as Hrow. cbv zeta in Hrow.
    destruct (visual_row ollama row e) as [visual e1]. cbn [snd] in Hrow.
    destruct (visual_forms ollama rows e1) as [visuals' e2] eqn:Hrest.
    intros [= <- <-].
    destruct (IH e1 e2 visuals' Hrest) as (Hlen & Hlog & Hruns & Hslept & _).
    cbn [length]. repeat split; lia.
Qed.

Lemma visual_forms_bounds_witness :
  let rows := [(u "山", u "mountain"); (u "日", u "sun")] in
  let e' := snd (visual_forms flaky_ollama rows no_effects) in
  length [u "three peaks"; u "three peaks"] = length rows
  /\ length (logged e') = length (logged no_effects) + length rows
  /\ runs no_effects + length rows <= runs e' <= runs no_effects + 2 * length rows
  /\ slept no_effects + length rows <= slept e'
     <= slept no_effects + (runs e' - runs no_effects) + length rows
  /\ slept e' <= slept no_effects + 3 * length rows.
Proof.
  apply (visual_forms_bounds flaky_ollama [(u "山", u "mountain"); (u "日", u "sun")]
           no_effects).
  vm_compute. reflexivity.
Defined.

Example visual_forms_two_rows :
  let e' := snd (visual_forms flaky_ollama
                   [(u "山", u "mountain"); (u "日", u "sun")] no_effects) in
  (runs e', slept e', length (printed e'), length (logged e')) = (3, 3, 5, 2).
Proof. vm_compute. reflexivity. Qed.

(** ** The index of saved mnemonics *)

Section SavedIndex.
Variable json_loads : str -> JLine.

Lemma index_line_passed_over (idx : gmap str Saved) (line : str) :
  passed_over json_loads line = true -> index_line json_loads idx line = Ok idx.
Proof.
  unfold passed_over, index_line. destruct (nonempty (strip line)); [| reflexivity].
  cbn [negb orb]. destruct (json_loads (strip line)); [reflexivity | discriminate ..].
Qed.

Lemma index_line_other (idx idx' : gmap str Saved) (k line : str) :
  names_kanji json_loads k line = false ->
  index_line json_loads idx line = Ok idx' -> idx' !! k = idx !! k.
Proof.
  unfold names_kanji, index_line. destruct (nonempty (strip line)); cbn [andb];
    [| intros _ [= <-]; reflexivity].
  destruct (json_loads (strip line)) as [| | kanji m r];
    [intros _ [= <-]; reflexivity | discriminate |].
  destruct kanji as [| [| c k'] | | hashable]; try (intros _ [= <-]; reflexivity).
  - cbn [nonempty andb]. intros Hk.
    destruct (saved_entry m r) as [e |]; cbn [mbind result_bind]; [| discriminate].
    intros [= <-]. apply lookup_insert_ne. apply bool_decide_eq_false in Hk. exact Hk.
  - intros _. destruct (saved_entry m r) as [e |]; cbn [mbind result_bind]; [| discriminate].
    destruct hashable; [intros [= <-]; reflexivity | discriminate].
Qed.

Lemma index_line_names (idx idx' : gmap str Saved) (k line : str) :
  names_kanji json_loads k line = true ->
  index_line json_loads idx line = Ok idx' ->
  exists m r e,
    json_loads (strip line) = JObject (JStr k) m r
    /\ saved_entry m r = Ok e /\ idx' !! k = Some e.
Proof.
  unfold names_kanji, index_line. destruct (nonempty (strip line)); [| discriminate].
  cbn [andb]. destruct (json_loads (strip line)) as [| | kanji m r] eqn:Hparse;
    try discriminate.
  destruct kanji as [| [| c k'] | | hashable]; try discriminate.
  cbn [nonempty andb]. intros Hk. apply bool_decide_eq_true in Hk. subst k.
  destruct (saved_entry m r) as [e |] eqn:He; cbn [mbind result_bind]; [| discriminate].
  intros [= <-]. exists m, r, e. split; [reflexivity | split; [exact He |]].
  apply lookup_insert_eq.
Qed.

Lemma index_lines_app (idx : gmap str Saved) (a b : list str) :
  index_lines json_loads idx (a ++ b)
  = idx' ← index_lines json_loads idx a; index_lines json_loads idx' b.
Proof.
  revert idx. induction a as [| l a IH]; intros idx; [reflexivity |].
  cbn [app index_lines]. destruct (index_line json_loads idx l) as [idx1 |];
    cbn [mbind result_bind]; [apply IH | reflexivity].
Qed.

Lemma index_lines_none (idx idx' : gmap str Saved) (k : str) (lines : list str) :
  index_lines json_loads idx lines = Ok idx' ->
  idx' !! k = None
  <-> idx !! k = None /\ Forall (fun l => names_kanji json_loads k l = false) lines.
Proof.
  revert idx. induction lines as [| l lines IH]; intros idx.
  - cbn [index_lines]. intros [= <-]. split; [intros H; split; [exact H | constructor] |].
    intros [H _]. exact H.
  - cbn [index_lines]. destruct (index_line json_loads idx l) as [idx1 |] eqn:Hl;
      cbn [mbind result_bind]; [| discriminate].
    intros Hrest. rewrite (IH idx1 Hrest).
    destruct (names_kanji json_loads k l) eqn:Hk.
    + destruct (index_line_names idx idx1 k l Hk Hl) as (m & r & e & _ & _ & He).
      split.
      * intros [H _]. congruence.
      * intros [_ H]. inversion H; congruence.
    + rewrite (index_line_other idx idx1 k l Hk Hl). split.
      * intros [H1 H2]. split; [exact H1 | constructor; assumption].
      * intros [H1 H2]. inversion H2; subst. split; assumption.
Qed.

Lemma index_lines_keep (idx idx' : gmap str Saved) (k : str) (lines : list str) :
  Forall (fun l => names_kanji json_loads k l = false) lines ->
  index_lines json_loads idx lines = Ok idx' -> idx' !! k = idx !! k.
Proof.
  intros Hall. revert idx. induction Hall as [| l lines Hl _ IH]; intros idx.
  - intros [= <-]. reflexivity.
  - cbn [index_lines]. destruct (index_line json_loads idx l) as [idx1 |] eqn:H1;
      cbn [mbind result_bind]; [| discriminate].
    intros Hrest. rewrite (IH idx1 Hrest). apply (index_line_other idx idx1 k l Hl H1).
Qed.

(** X14.  The last one wins: when the load returns, the entry of a kanji
    is the one built from the last line of the file that names it, its
    two texts stripped. *)
Theorem saved_mnemonic_last_wins (before after : list str) (line k : str)
    (idx : gmap str Saved) :
  load_mnemonics_index json_loads (Some (before ++ line :: after)) = Ok idx ->
  names_kanji json_loads k line = true ->
  Forall (fun l => names_kanji json_loads k l = false) after ->
  exists m r e,
    json_loads (strip line) = JObject (JStr k) m r
    /\ saved_entry m r = Ok e /\ idx !! k = Some e.
Proof.
  unfold load_mnemonics_index. rewrite index_lines_app.
  destruct (index_lines json_loads ∅ before) as [idx0 |]; cbn [mbind result_bind];
    [| discriminate].
  cbn [index_lines]. destruct (index_line json_loads idx0 line) as [idx1 |] eqn:Hline;
    cbn [mbind result_bind]; [| discriminate].
  intros Hafter Hk Hnone.
  destruct (index_line_names idx0 idx1 k line Hk Hline) as (m & r & e & Hm & He & Hidx).
  exists m, r, e. repeat split; try assumption.
  rewrite (index_lines_keep idx1 idx k after Hnone Hafter). exact Hidx.
Qed.

Lemma saved_text_trimmed (f : JField) (t : str) : saved_text f = Ok t -> trimmed t = true.
Proof.
  destruct f; cbn [saved_text]; try discriminate; intros [= <-];
    [reflexivity | apply trimmed_strip | reflexivity].
Qed.

Lemma index_line_clean (idx idx' : gmap str Saved) (line : str) :
  clean_entries idx -> index_line json_loads idx line = Ok idx' -> clean_entries idx'.
Proof.
  intros Hclean. unfold index_line. destruct (nonempty (strip line));
    [| intros [= <-]; exact Hclean].
  destruct (json_loads (strip line)) as [| | kanji m r];
    [intros [= <-]; exact Hclean | discriminate |].
  destruct kanji as [| [| c k'] | | hashable]; try (intros [= <-]; exact Hclean).
  - unfold saved_entry.
    destruct (saved_text m) as [m' |] eqn:Hm; cbn [mbind result_bind]; [| discriminate].
    destruct (saved_text r) as [r' |] eqn:Hr; cbn [mbind result_bind]; [| discriminate].
    intros [= <-] k e. destruct (decide (k = c :: k')) as [-> | Hne].
    + rewrite lookup_insert_eq. intros [= <-]. cbn.
      repeat split; [discriminate | eapply saved_text_trimmed, Hm
                    | eapply saved_text_trimmed, Hr].
    + rewrite lookup_insert_ne by congruence. apply Hclean.
  - destruct (saved_entry m r); cbn [mbind result_bind]; [| discriminate].
    destruct hashable; [intros [= <-]; exact Hclean | discriminate].
Qed.

Lemma index_lines_clean (idx idx' : gmap str Saved) (lines : list str) :
  clean_entries idx -> index_lines json_loads idx lines = Ok idx' -> clean_entries idx'.
Proof.
  revert idx. induction lines as [| l lines IH]; intros idx Hclean.
  - intros [= <-]. exact Hclean.
  - cbn [index_lines]. destruct (index_line json_loads idx l) as [idx1 |] eqn:H1;
      cbn [mbind result_bind]; [| discriminate].
    apply IH. eapply index_line_clean; eassumption.
Qed.

(** X15.  When the load returns, a kanji has no entry exactly when no
    line of the file names it, no entry is stored under the empty string,
    and the two texts of every entry neither begin nor end with
    whitespace. *)
Theorem saved_index_entries (lines : list str) (idx : gmap str Saved) :
  load_mnemonics_index json_loads (Some lines) = Ok idx ->
  (forall k, idx !! k = None
             <-> Forall (fun l => names_kanji json_loads k l = false) lines)
  /\ (forall k e, idx !! k = Some e ->
        k <> [] /\ trimmed (saved_mnemonic e) = true /\ trimmed (saved_reminder e) = true).
Proof.
  unfold load_mnemonics_index. intros Hload. split.
  - intros k. rewrite (index_lines_none ∅ idx k lines Hload), lookup_empty. tauto.
  - apply (index_lines_clean ∅ idx lines); [| exact Hload].
    intros k e. rewrite lookup_empty. discriminate.
Qed.

(** X16.  Blank lines and lines that do not parse change nothing: the
    load gives, or raises, the same with them as without them; a missing
    file gives the empty index. *)
Theorem passed_over_lines_ignored (lines : list str) :
  load_mnemonics_index json_loads
    (Some (List.filter (fun l => negb (passed_over json_loads l)) lines))
  = load_mnemonics_index json_loads (Some lines)
  /\ load_mnemonics_index json_loads None = Ok ∅.
Proof.
  split; [| reflexivity]. unfold load_mnemonics_index.
  generalize (∅ : gmap str Saved).
  induction lines as [| l lines IH]; intros idx; [reflexivity |].
  cbn [List.filter index_lines]. destruct (passed_over json_loads l) eqn:Hl; cbn [negb].
  - rewrite (index_line_passed_over idx l Hl). cbn [mbind result_bind]. apply IH.
  - cbn [index_lines]. destruct (index_line json_loads idx l); cbn [mbind result_bind];
      [apply IH | reflexivity].
Qed.

End SavedIndex.

Example load_example :
  load_mnemonics_index toy_loads
    (Some [u "{a first } "; u "   "; u "{b other"; u "{a  second }  "; u "{b"])
  = Ok (<[u "a" := {| saved_mnemonic := u "second }"; saved_reminder := [] |}]>
          (<[u "b" := {| saved_mnemonic := []; saved_reminder := [] |}]> ∅)).
Proof. vm_compute. reflexivity. Qed.

Lemma saved_mnemonic_last_wins_witness :
  exists m r e,
    toy_loads (strip (u "{a  second }  ")) = JObject (JStr (u "a")) m r
    /\ saved_entry m r = Ok e
    /\ (<[u "a" := {| saved_mnemonic := u "second }"; saved_reminder := [] |}]>
          (<[u "b" := {| saved_mnemonic := []; saved_reminder := [] |}]> ∅)
         : gmap str Saved) !! u "a" = Some e.
Proof.
  apply (saved_mnemonic_last_wins toy_loads
           [u "{a first } "; u "   "; u "{b other"] [u "{b"] (u "{a  second }  ")).
  - vm_compute. reflexivity.
  - vm_compute. reflexivity.
  - constructor; [vm_compute; reflexivity | constructor].
Defined.

Lemma saved_index_entries_witness :
  (forall k,
     (<[u "a" := {| saved_mnemonic := u "first }"; saved_reminder := [] |}]> ∅
      : gmap str Saved) !! k = None
     <-> Forall (fun l => names_kanji toy_loads k l = false) [u "{a first } "; u "   "])
  /\ (forall k e,
        (<[u "a" := {| saved_mnemonic := u "first }"; saved_reminder := [] |}]> ∅
         : gmap str Saved) !! k = Some e ->
        k <> [] /\ trimmed (saved_mnemonic e) = true /\ trimmed (saved_reminder e) = true).
Proof.
  apply (saved_index_entries toy_loads [u "{a first } "; u "   "]).
  vm_compute. reflexivity.
Defined.
